(** * Fork and exec helpers for POSIX (common/exechelp-posix.c)

    A shallow embedding of the descriptor census, the bulk closer, the
    reap coordinator and the process handle of GnuPG's exechelp, together
    with the properties its specification states about them.

    The development follows the calling process.  The kernel is an explicit
    [world] that every function threads through: the table of child
    processes, the set of open descriptors, [errno], the cache of exit
    records ([terminated_children]), the log and the trace of system and
    allocator calls.  Code that runs in a forked child never returns to the
    caller; the table entry created by [sys_fork] stands for it. *)

From stdpp Require Import gmap strings list sorting.

Open Scope Z_scope.
Set Warnings "-clear-no-such-hyp".

(** ** Error values (libgpg-error) *)

Inductive gpg_err_code_t :=
| GPG_ERR_NO_ERROR
| GPG_ERR_GENERAL
| GPG_ERR_INV_VALUE
| GPG_ERR_BUG
| GPG_ERR_TIMEOUT
| GPG_ERR_INV_FLAG
| GPG_ERR_CONFIGURATION
| GPG_ERR_MISSING_ERRNO
| GPG_ERR_SYSTEM_ERROR (e : Z).

(** A [gpg_error_t] packs an error source and an error code. *)
Record gpg_error_t := mk_error { err_source : Z; err_code : gpg_err_code_t }.

Definition GPG_ERR_SOURCE_UNKNOWN : Z := 0.

Definition no_error : gpg_error_t := mk_error GPG_ERR_SOURCE_UNKNOWN GPG_ERR_NO_ERROR.

Definition gpg_err_make (source : Z) (code : gpg_err_code_t) : gpg_error_t :=
  match code with
  | GPG_ERR_NO_ERROR => no_error
  | _ => mk_error source code
  end.

(** A bare [gpg_err_code_t] read as a [gpg_error_t]: the source bits are zero. *)
Definition code_only (code : gpg_err_code_t) : gpg_error_t :=
  mk_error GPG_ERR_SOURCE_UNKNOWN code.

(** [if (ec)]: the packed value is not zero. *)
Definition failed (ec : gpg_error_t) : bool :=
  match err_code ec with
  | GPG_ERR_NO_ERROR => negb (err_source ec =? 0)
  | _ => true
  end.

Definition gpg_err_code_from_errno (e : Z) : gpg_err_code_t :=
  if e =? 0 then GPG_ERR_NO_ERROR else GPG_ERR_SYSTEM_ERROR e.

(** ** errno values and signals *)

Definition ESRCH : Z := 3.
Definition EINTR : Z := 4.
Definition EBADF : Z := 9.
Definition ECHILD : Z := 10.
Definition EAGAIN : Z := 11.
Definition ENOMEM : Z := 12.
Definition EACCES : Z := 13.
Definition EMFILE : Z := 24.
Definition SIGTERM : Z := 15.
Definition INT32_MAX : Z := 2147483647.

(** ** Build configuration

    The wait-status macros come from <sys/wait.h>, the spawn flags from
    exechelp.h and the error sources from the including program; the code
    is verified for every choice of them. *)

Class Config := {
  WIFEXITED : Z → bool;
  WEXITSTATUS : Z → Z;
  USE_NPTH : bool;
  GPG_ERR_SOURCE_DEFAULT : Z;
  default_errsource : Z;
  GNUPG_PROCESS_DETACHED : Z;
  GNUPG_PROCESS_STDIN_PIPE : Z;
  GNUPG_PROCESS_STDOUT_PIPE : Z;
  GNUPG_PROCESS_STDERR_PIPE : Z;
  GNUPG_PROCESS_STDINOUT_SOCKETPAIR : Z;
  GNUPG_PROCESS_STDIN_NULL : Z;
  GNUPG_PROCESS_STDOUT_NULL : Z;
  GNUPG_PROCESS_STDERR_NULL : Z;
  GNUPG_PROCESS_STDFDS_SETTING : Z;
}.

(** The configuration of a Linux build against glibc, used to run the
    model on concrete inputs. *)
Definition glibc (npth : bool) : Config := {|
  WIFEXITED status := Z.land status 127 =? 0;
  WEXITSTATUS status := Z.shiftr (Z.land status 65280) 8;
  USE_NPTH := npth;
  GPG_ERR_SOURCE_DEFAULT := 0;
  default_errsource := 0;
  GNUPG_PROCESS_DETACHED := Z.shiftl 1 1;
  GNUPG_PROCESS_STDIN_PIPE := Z.shiftl 1 8;
  GNUPG_PROCESS_STDOUT_PIPE := Z.shiftl 1 9;
  GNUPG_PROCESS_STDERR_PIPE := Z.shiftl 1 10;
  GNUPG_PROCESS_STDINOUT_SOCKETPAIR := Z.shiftl 1 11;
  GNUPG_PROCESS_STDIN_NULL := Z.shiftl 1 12;
  GNUPG_PROCESS_STDOUT_NULL := Z.shiftl 1 13;
  GNUPG_PROCESS_STDERR_NULL := Z.shiftl 1 14;
  GNUPG_PROCESS_STDFDS_SETTING := 32512;
|}.

(** ** The world: kernel tables, process globals, observations *)

(** A child of the caller either still runs (and will leave [fate] as its
    wait status once it ends) or has ended and awaits being reaped. *)
Inductive child :=
| Running (fate : Z)
| Zombie (status : Z).

Inductive block :=
| Blk_fd_array
| Blk_record
| Blk_exitcodes
| Blk_argv
| Blk_process.

Inductive event :=
| EvClose (fd : Z)
| EvAlloc (b : block) (nelem : Z)
| EvFree (b : block)
| EvWaitpid (pid : Z) (hang : bool)
| EvKill (pid sig : Z)
| EvFork.

Inductive log_entry :=
| Log_wait_failed (pid : Z) (e : Z)
| Log_not_installed (pgmname : string)
| Log_exit_status (pgmname : string) (code : Z)
| Log_terminated (pgmname : string)
| Log_wait_processes_failed (e : Z)
| Log_pid_reused (pid : Z)
| Log_fork_failed (ec : gpg_err_code_t)
| Log_waitpid_detached_failed (ec : gpg_err_code_t).

(** What the descriptor census can find out about the descriptor limit. *)
Record fd_census := mk_census {
  proc_self_fd : option (list Z);   (* numeric entries of /proc/self/fd *)
  rlimit_nofile : option Z;         (* rl.rlim_max of RLIMIT_NOFILE *)
  rlimit_ofile : option Z;          (* rl.rlim_max of RLIMIT_OFILE *)
  sc_open_max : Z;                  (* sysconf (_SC_OPEN_MAX) *)
  posix_open_max : option Z;        (* _POSIX_OPEN_MAX, when defined *)
  open_max : option Z;              (* OPEN_MAX, when defined *)
}.

Record world := World {
  children : list (Z * child);      (* children of the caller, first to end first *)
  open_fds : gset Z;                (* descriptors open in the caller *)
  fd_limit : Z;                     (* descriptors are allocated below it *)
  census : fd_census;
  interrupts : nat;                 (* blocking waits that a signal will interrupt *)
  allocs : list bool;               (* outcome of the coming allocations; then success *)
  forks : list (option (Z * child));(* outcome of the coming forks; then failure *)
  setuid : bool;                    (* getuid () != geteuid () *)
  access_x : string → Z;            (* errno of access (name, X_OK), 0 on success *)
  errno : Z;
  terminated_children : list (Z * Z);
  log : list log_entry;
  trace : list event;
}.

Definition set_children v (w : world) : world :=
  World v (open_fds w) (fd_limit w) (census w) (interrupts w) (allocs w) (forks w)
        (setuid w) (access_x w) (errno w) (terminated_children w) (log w) (trace w).
Definition set_open_fds v (w : world) : world :=
  World (children w) v (fd_limit w) (census w) (interrupts w) (allocs w) (forks w)
        (setuid w) (access_x w) (errno w) (terminated_children w) (log w) (trace w).
Definition set_interrupts v (w : world) : world :=
  World (children w) (open_fds w) (fd_limit w) (census w) v (allocs w) (forks w)
        (setuid w) (access_x w) (errno w) (terminated_children w) (log w) (trace w).
Definition set_allocs v (w : world) : world :=
  World (children w) (open_fds w) (fd_limit w) (census w) (interrupts w) v (forks w)
        (setuid w) (access_x w) (errno w) (terminated_children w) (log w) (trace w).
Definition set_forks v (w : world) : world :=
  World (children w) (open_fds w) (fd_limit w) (census w) (interrupts w) (allocs w) v
        (setuid w) (access_x w) (errno w) (terminated_children w) (log w) (trace w).
Definition set_errno v (w : world) : world :=
  World (children w) (open_fds w) (fd_limit w) (census w) (interrupts w) (allocs w) (forks w)
        (setuid w) (access_x w) v (terminated_children w) (log w) (trace w).
Definition set_terminated_children v (w : world) : world :=
  World (children w) (open_fds w) (fd_limit w) (census w) (interrupts w) (allocs w) (forks w)
        (setuid w) (access_x w) (errno w) v (log w) (trace w).
Definition log_error (m : log_entry) (w : world) : world :=
  World (children w) (open_fds w) (fd_limit w) (census w) (interrupts w) (allocs w) (forks w)
        (setuid w) (access_x w) (errno w) (terminated_children w) (log w ++ [m]) (trace w).
Definition emit (e : event) (w : world) : world :=
  World (children w) (open_fds w) (fd_limit w) (census w) (interrupts w) (allocs w) (forks w)
        (setuid w) (access_x w) (errno w) (terminated_children w) (log w) (trace w ++ [e]).

Definition gpg_err_code_from_syserror (w : world) : gpg_err_code_t :=
  if errno w =? 0 then GPG_ERR_MISSING_ERRNO else GPG_ERR_SYSTEM_ERROR (errno w).

(** ** System calls *)

(** close(2): closing a descriptor that is not open fails with EBADF. *)
Definition sys_close (fd : Z) (w : world) : Z * world :=
  let w := emit (EvClose fd) w in
  if decide (fd ∈ open_fds w)
  then (0, set_open_fds (open_fds w ∖ {[fd]}) w)
  else (-1, set_errno EBADF w).

(** fstat(2), as far as the census uses it. *)
Definition sys_fstat (fd : Z) (w : world) : Z * world :=
  if decide (fd ∈ open_fds w) then (0, w) else (-1, set_errno EBADF w).

(** The allocator: [calloc], [realloc], [xtrymalloc] and [xtrycalloc] take
    the next outcome of [allocs]; a failure sets [errno] to ENOMEM. *)
Definition sys_alloc (b : block) (nelem : Z) (w : world) : bool * world :=
  let w := emit (EvAlloc b nelem) w in
  match allocs w with
  | [] => (true, w)
  | true :: rest => (true, set_allocs rest w)
  | false :: rest => (false, set_errno ENOMEM (set_allocs rest w))
  end.

Definition sys_free (b : block) (w : world) : world := emit (EvFree b) w.

(** waitpid(2).  [pid = -1] and [pid = 0] select every child (children stay
    in the caller's process group), a positive [pid] selects that child.
    A child that has ended is reaped at once; otherwise a blocking wait
    lasts until the first selected child ends, unless a signal interrupts
    it, and a non-blocking wait reports that nothing has ended. *)
Inductive wait_result :=
| Wait_error (e : Z)
| Wait_none
| Wait_reaped (pid status : Z).

Definition wait_selects (pid : Z) (c : Z * child) : bool :=
  (0 <? c.1) && ((pid =? -1) || (pid =? 0) || (c.1 =? pid)).

Definition has_ended (c : Z * child) : bool :=
  match c.2 with Zombie _ => true | Running _ => false end.

Definition final_status (c : child) : Z :=
  match c with Zombie status => status | Running fate => fate end.

Fixpoint take_first {A} (P : A → bool) (l : list A) : option (A * list A) :=
  match l with
  | [] => None
  | x :: l' =>
      if P x then Some (x, l')
      else match take_first P l' with
           | Some (y, rest) => Some (y, x :: rest)
           | None => None
           end
  end.

Definition sys_waitpid (pid : Z) (hang : bool) (w : world) : wait_result * world :=
  let w := emit (EvWaitpid pid hang) w in
  match take_first (λ c, wait_selects pid c && has_ended c) (children w) with
  | Some (c, rest) => (Wait_reaped c.1 (final_status c.2), set_children rest w)
  | None =>
      match take_first (wait_selects pid) (children w) with
      | None => (Wait_error ECHILD, set_errno ECHILD w)
      | Some (c, rest) =>
          if hang then
            match interrupts w with
            | S n => (Wait_error EINTR, set_errno EINTR (set_interrupts n w))
            | O => (Wait_reaped c.1 (final_status c.2), set_children rest w)
            end
          else (Wait_none, w)
      end
  end.

(** [while ((i = waitpid (...)) == -1 && errno == EINTR);] with at most
    [n] restarts; as many restarts as there are pending interrupts bring
    the loop to its end. *)
Fixpoint waitpid_restart (n : nat) (pid : Z) (hang : bool) (w : world)
  : wait_result * world :=
  let '(r, w') := sys_waitpid pid hang w in
  match r, n with
  | Wait_error e, S n' =>
      if e =? EINTR then waitpid_restart n' pid hang w' else (r, w')
  | _, _ => (r, w')
  end.

(** kill(2): a non-positive [pid] addresses a group or everybody. *)
Definition sys_kill (pid sig : Z) (w : world) : Z * world :=
  let w := emit (EvKill pid sig) w in
  if (pid <=? 0) || existsb (λ c, c.1 =? pid) (children w)
  then (0, w)
  else (-1, set_errno ESRCH w).

(** fork(2), seen from the parent. *)
Definition sys_fork (w : world) : Z * world :=
  let w := emit EvFork w in
  match forks w with
  | Some (pid, c) :: rest =>
      if 0 <? pid
      then (pid, set_children (children w ++ [(pid, c)]) (set_forks rest w))
      else (-1, set_errno EAGAIN (set_forks rest w))
  | None :: rest => (-1, set_errno EAGAIN (set_forks rest w))
  | [] => (-1, set_errno EAGAIN w)
  end.

(** Descriptors are handed out lowest unused number first. *)
Definition lowest_free (s : gset Z) : Z :=
  let n := Z.of_nat (size s) in
  default n (head (filter (λ fd, fd ∉ s) (seqZ 0 (n + 1)))).

Definition sys_new_fd (w : world) : option Z * world :=
  let fd := lowest_free (open_fds w) in
  if fd <? fd_limit w
  then (Some fd, set_open_fds ({[fd]} ∪ open_fds w) w)
  else (None, set_errno EMFILE w).

(** pipe(2) and socketpair(2): two new descriptors, or none at all. *)
Definition sys_pipe (w : world) : option (Z * Z) * world :=
  match sys_new_fd w with
  | (Some fd0, w1) =>
      match sys_new_fd w1 with
      | (Some fd1, w2) => (Some (fd0, fd1), w2)
      | (None, _) => (None, set_errno EMFILE w)
      end
  | (None, w1) => (None, w1)
  end.

Definition sys_socketpair (w : world) : option (Z * Z) * world := sys_pipe w.

Definition sys_dup (fd : Z) (w : world) : Z * world :=
  if decide (fd ∈ open_fds w) then
    match sys_new_fd w with
    | (Some fd', w') => (fd', w')
    | (None, w') => (-1, w')
    end
  else (-1, set_errno EBADF w).

(** ** Descriptor census *)

(** Conversion of a wider integer to [int]. *)
Definition to_int (x : Z) : Z := (x + 2147483648) `mod` 4294967296 - 2147483648.

Definition get_max_fds (w : world) : Z :=
  let c := census w in
  let max_fds := -1 in
  let max_fds :=
    match proc_self_fd c with
    | Some entries => fold_left (λ m x, if x >? m then x else m) entries max_fds
    | None => max_fds
    end in
  if negb (max_fds =? -1) then max_fds + 1 else
  let max_fds :=
    match rlimit_nofile c with Some r => to_int r | None => max_fds end in
  let max_fds :=
    if max_fds =? -1
    then match rlimit_ofile c with Some r => to_int r | None => max_fds end
    else max_fds in
  let max_fds :=
    if max_fds =? -1
    then (if 0 <=? sc_open_max c then to_int (sc_open_max c) else max_fds)
    else max_fds in
  let max_fds := if max_fds =? -1 then default max_fds (posix_open_max c) else max_fds in
  let max_fds := if max_fds =? -1 then default max_fds (open_max c) else max_fds in
  let max_fds := if max_fds =? -1 then 256 else max_fds in
  let max_fds := if max_fds =? INT32_MAX then 256 else max_fds in
  max_fds.

(** ** Bulk closer *)

(** The exception list is the array up to its -1 end marker: a list holds
    the entries in front of the marker, and reading at its end gives -1. *)
Definition except_at (except : list Z) (i : nat) : Z := default (-1) (except !! i).

(** [for (i = except_start; except[i] != -1; i++) if (except[i] == fd) ...]
    over the entries from [i] on: the index at which the loop stops and,
    when it stopped by [break], the new [except_start]. *)
Fixpoint scan_except (fd : Z) (entries : list Z) (i : nat) : nat * option nat :=
  match entries with
  | [] => (i, None)
  | x :: entries' =>
      if x =? -1 then (i, None)
      else if x =? fd then (i, Some (i + 1)%nat)
      else scan_except fd entries' (S i)
  end.

Fixpoint close_except_loop (n : nat) (fd : Z) (except : list Z)
    (except_start : nat) (w : world) : world :=
  match n with
  | O => w
  | S n' =>
      let '(i, found) := scan_except fd (drop except_start except) except_start in
      let except_start := default except_start found in
      let w := if except_at except i =? -1 then (sys_close fd w).2 else w in
      close_except_loop n' (fd + 1) except except_start w
  end.

Fixpoint close_loop (n : nat) (fd : Z) (w : world) : world :=
  match n with
  | O => w
  | S n' => close_loop n' (fd + 1) (sys_close fd w).2
  end.

(** [except = None] is the NULL pointer.  Both loops run [fd] from [first]
    up to, but not including, [max_fd]. *)
Definition close_all_fds (first : Z) (except : option (list Z)) (w : world) : world :=
  let max_fd := get_max_fds w in
  let n := Z.to_nat (max_fd - first) in
  let w :=
    match except with
    | Some except => close_except_loop n first except 0 w
    | None => close_loop n first w
    end in
  set_errno 0 w.

(** ** Enumeration of the open descriptors (HAVE_STAT) *)

(** [narray += (narray < 256)? 32:256;] *)
Definition grow_narray (narray : Z) : Z :=
  narray + (if narray <? 256 then 32 else 256).

(** The loop over [fd]; [array] holds the [idx] entries stored so far. *)
Fixpoint open_fds_loop (n : nat) (fd : Z) (array : list Z) (narray : Z)
    (w : world) : option (list Z) * world :=
  match n with
  | O => (Some (array ++ [-1]), w)
  | S n' =>
      let '(r, w) := sys_fstat fd w in
      if (r =? -1) && (errno w =? EBADF)
      then open_fds_loop n' (fd + 1) array narray w
      else
        let idx := Z.of_nat (length array) in
        if idx + 1 >=? narray then
          let narray := grow_narray narray in
          match sys_alloc Blk_fd_array narray w with
          | (true, w) => open_fds_loop n' (fd + 1) (array ++ [fd]) narray w
          | (false, w) => (None, sys_free Blk_fd_array w)
          end
        else open_fds_loop n' (fd + 1) (array ++ [fd]) narray w
  end.

Definition get_all_open_fds (w : world) : option (list Z) * world :=
  let max_fd := get_max_fds w in
  let narray := 32 in
  match sys_alloc Blk_fd_array narray w with
  | (false, w) => (None, w)
  | (true, w) => open_fds_loop (Z.to_nat max_fd) 0 [] narray w
  end.

(** ** Reap coordinator: the cache of exit records *)

(** The linked list [terminated_children] as a list of (pid, exitcode),
    head first. *)
Definition store_result (pid exitcode : Z) (w : world) : gpg_err_code_t * world :=
  match sys_alloc Blk_record 1 w with
  | (false, w) => (gpg_err_code_from_syserror w, w)
  | (true, w) =>
      (GPG_ERR_NO_ERROR,
       set_terminated_children ((pid, exitcode) :: terminated_children w) w)
  end.

(** The walk of [get_result] along the list: the exit code of the first
    record of [pid] and the list with that record unlinked. *)
Fixpoint unlink_result (pid : Z) (c : list (Z * Z)) : option (Z * list (Z * Z)) :=
  match c with
  | [] => None
  | r :: next =>
      if r.1 =? pid then Some (r.2, next)
      else match unlink_result pid next with
           | Some (exitcode, next') => Some (exitcode, r :: next')
           | None => None
           end
  end.

(** [Some exitcode] is the return value 1 with [*r_exitcode] set, [None]
    the return value 0. *)
Definition get_result (pid : Z) (w : world) : option Z * world :=
  match unlink_result pid (terminated_children w) with
  | Some (exitcode, rest) =>
      (Some exitcode, sys_free Blk_record (set_terminated_children rest w))
  | None => (None, w)
  end.

Section Code.
Context `{!Config}.

(** ** Waiting for one pid *)

(** The wait statement: [npth_waitpid], or [waitpid] restarted on EINTR. *)
Definition wait_statement (pid : Z) (hang : bool) (w : world) : wait_result * world :=
  if USE_NPTH then sys_waitpid pid hang w
  else waitpid_restart (interrupts w) pid hang w.

(** [r_exitcode] is the caller's slot: [None] for a NULL pointer, else its
    content; the result carries the slot's final content. *)
Definition gnupg_wait_process (pgmname : string) (pid : Z) (hang : bool)
    (r_exitcode : option Z) (w : world) : gpg_error_t * option Z * world :=
  let r_exitcode := (λ _, -1) <$> r_exitcode in
  if pid =? -1 then
    (gpg_err_make GPG_ERR_SOURCE_DEFAULT GPG_ERR_INV_VALUE, r_exitcode, w)
  else
    let '(i, w) := wait_statement pid hang w in
    let '(ec, r_exitcode, w) :=
      match i with
      | Wait_error _ =>
          (gpg_err_code_from_errno (errno w), r_exitcode,
           log_error (Log_wait_failed pid (errno w)) w)
      | Wait_none => (GPG_ERR_TIMEOUT, r_exitcode, w)
      | Wait_reaped _ status =>
          if WIFEXITED status && (WEXITSTATUS status =? 127) then
            (GPG_ERR_CONFIGURATION, r_exitcode,
             log_error (Log_not_installed pgmname) w)
          else if WIFEXITED status && negb (WEXITSTATUS status =? 0) then
            match r_exitcode with
            | None =>
                (GPG_ERR_GENERAL, r_exitcode,
                 log_error (Log_exit_status pgmname (WEXITSTATUS status)) w)
            | Some _ => (GPG_ERR_GENERAL, Some (WEXITSTATUS status), w)
            end
          else if negb (WIFEXITED status) then
            (GPG_ERR_GENERAL, r_exitcode, log_error (Log_terminated pgmname) w)
          else
            (GPG_ERR_NO_ERROR, (λ _, 0) <$> r_exitcode, w)
      end in
    (gpg_err_make GPG_ERR_SOURCE_DEFAULT ec, r_exitcode, w).

(** ** Waiting for several pids *)

(** First loop: invalid pids are skipped, cached results are taken;
    [nleft] is the counter [left]. *)
Fixpoint drain_results (pids : list Z) (nleft : Z) (w : world) : list Z * Z * world :=
  match pids with
  | [] => ([], nleft, w)
  | pid :: pids' =>
      if pid =? -1 then
        let '(r_exitcodes, nleft, w) := drain_results pids' (nleft - 1) w in
        (-1 :: r_exitcodes, nleft, w)
      else
        let '(found, w) := get_result pid w in
        let status := default (-1) found in
        let nleft := match found with Some _ => nleft - 1 | None => nleft end in
        let '(r_exitcodes, nleft, w) := drain_results pids' nleft w in
        (status :: r_exitcodes, nleft, w)
  end.

(** [for (i = 0; i < count; i++) if (pid == pids[i]) break;] *)
Definition find_pid (pid : Z) (pids : list Z) : option nat :=
  fst <$> list_find (λ p, pid = p) pids.

(** The [while (left > 0)] loop.  Every turn that goes on has reaped a
    child, so [fuel] beyond the number of children is never used up. *)
Fixpoint wait_loop (fuel : nat) (pids : list Z) (hang : bool) (nleft : Z)
    (ec : gpg_err_code_t) (r_exitcodes : list Z) (w : world)
  : option (gpg_err_code_t * list Z * world) :=
  if nleft <=? 0 then Some (ec, r_exitcodes, w) else
  match fuel with
  | O => None
  | S fuel' =>
      let '(res, w) := wait_statement (-1) hang w in
      match res with
      | Wait_error _ =>
          Some (gpg_err_code_from_errno (errno w), r_exitcodes,
                log_error (Log_wait_processes_failed (errno w)) w)
      | Wait_none => Some (GPG_ERR_TIMEOUT, r_exitcodes, w)
      | Wait_reaped pid status =>
          match find_pid pid pids with
          | None =>
              let '(ec, w) := store_result pid status w in
              match ec with
              | GPG_ERR_NO_ERROR => wait_loop fuel' pids hang nleft ec r_exitcodes w
              | _ => Some (ec, r_exitcodes, w)
              end
          | Some i =>
              if negb (default (-1) (r_exitcodes !! i) =? -1) then
                Some (GPG_ERR_GENERAL, r_exitcodes, log_error (Log_pid_reused pid) w)
              else
                wait_loop fuel' pids hang (nleft - 1) ec (<[i:=status]> r_exitcodes) w
          end
      end
  end.

(** Last loop: the statuses are classified, slot [i] first. *)
Fixpoint classify_results (dummy : bool) (pgmnames : list string) (i : nat)
    (r_exitcodes : list Z) (ec : gpg_err_code_t) (w : world)
  : gpg_err_code_t * list Z * world :=
  match r_exitcodes with
  | [] => (ec, [], w)
  | status :: rest =>
      let pgmname := default "" (pgmnames !! i) in
      let '(slot, ec, w) :=
        if status =? -1 then (status, ec, w)
        else if WIFEXITED status && (WEXITSTATUS status =? 127) then
          (status, GPG_ERR_CONFIGURATION, log_error (Log_not_installed pgmname) w)
        else if WIFEXITED status && negb (WEXITSTATUS status =? 0) then
          if dummy
          then (status, GPG_ERR_GENERAL,
                log_error (Log_exit_status pgmname (WEXITSTATUS status)) w)
          else (WEXITSTATUS status, GPG_ERR_GENERAL, w)
        else if negb (WIFEXITED status) then
          (status, GPG_ERR_GENERAL, log_error (Log_terminated pgmname) w)
        else (status, ec, w) in
      let '(ec, rest, w) := classify_results dummy pgmnames (S i) rest ec w in
      (ec, slot :: rest, w)
  end.

(** [count] is the length of [pids]; [r_exitcodes] tells whether the caller
    passed an array (all its [count] slots are written before they are
    read).  The result carries the final content of that array; it is
    [None] only if the loop ran out of fuel, which it never does. *)
Definition gnupg_wait_processes (pgmnames : list string) (pids : list Z)
    (hang : bool) (r_exitcodes : bool) (w : world)
  : option (gpg_error_t * option (list Z) * world) :=
  let count := Z.of_nat (length pids) in
  let dummy := negb r_exitcodes in
  let '(allocated, w) :=
    if dummy then sys_alloc Blk_exitcodes count w else (true, w) in
  if negb allocated then
    Some (code_only (gpg_err_code_from_syserror w), None, w)
  else
    let '(slots, nleft, w) := drain_results pids count w in
    match wait_loop (S (length (children w))) pids hang nleft GPG_ERR_NO_ERROR slots w with
    | None => None
    | Some (ec, slots, w) =>
        let '(ec, slots, w) := classify_results dummy pgmnames 0 slots ec w in
        let w := if dummy then sys_free Blk_exitcodes w else w in
        Some (gpg_err_make GPG_ERR_SOURCE_DEFAULT ec,
              if dummy then None else Some slots, w)
    end.

End Code.

(** ** Process handle *)

Record gnupg_process := mk_process {
  pgmname : string;
  terminated : bool;   (* or detached *)
  flags : Z;
  pid : Z;
  fd_in : Z;
  fd_out : Z;
  fd_err : Z;
  wstatus : Z;
}.

Definition set_terminated v (p : gnupg_process) : gnupg_process :=
  mk_process (pgmname p) v (flags p) (pid p) (fd_in p) (fd_out p) (fd_err p) (wstatus p).
Definition set_pid v (p : gnupg_process) : gnupg_process :=
  mk_process (pgmname p) (terminated p) (flags p) v (fd_in p) (fd_out p) (fd_err p) (wstatus p).
Definition set_fd_in v (p : gnupg_process) : gnupg_process :=
  mk_process (pgmname p) (terminated p) (flags p) (pid p) v (fd_out p) (fd_err p) (wstatus p).
Definition set_fd_out v (p : gnupg_process) : gnupg_process :=
  mk_process (pgmname p) (terminated p) (flags p) (pid p) (fd_in p) v (fd_err p) (wstatus p).
Definition set_fd_err v (p : gnupg_process) : gnupg_process :=
  mk_process (pgmname p) (terminated p) (flags p) (pid p) (fd_in p) (fd_out p) v (wstatus p).
Definition set_wstatus v (p : gnupg_process) : gnupg_process :=
  mk_process (pgmname p) (terminated p) (flags p) (pid p) (fd_in p) (fd_out p) (fd_err p) v.

(** A function that stores through a pointer either returns or faults on
    a NULL pointer. *)
Inductive outcome (A : Type) :=
| Returns (a : A)
| Faults.
Arguments Returns {A} a.
Arguments Faults {A}.

(** The hooks around blocking system calls ([pre_syscall], [post_syscall])
    call out to the scheduler and leave the world of this unit alone. *)

Definition process_kill (process : gnupg_process) (sig : Z) (w : world)
  : gpg_err_code_t * world :=
  let '(r, w) := sys_kill (pid process) sig w in
  if r <? 0 then (gpg_err_code_from_syserror w, w) else (GPG_ERR_NO_ERROR, w).

Definition gnupg_process_terminate (process : gnupg_process) (w : world)
  : gpg_err_code_t * world :=
  process_kill process SIGTERM w.

(** [r_fd_in], [r_fd_out], [r_fd_err] tell which pointers are not NULL;
    the result carries what was stored through them. *)
Definition gnupg_process_get_fds (process : gnupg_process) (flags : Z)
    (r_fd_in r_fd_out r_fd_err : bool)
  : gpg_err_code_t * (option Z * option Z * option Z) * gnupg_process :=
  let '(got_in, process) :=
    if r_fd_in then (Some (fd_in process), set_fd_in (-1) process)
    else (None, process) in
  let '(got_out, process) :=
    if r_fd_out then (Some (fd_out process), set_fd_out (-1) process)
    else (None, process) in
  let '(got_err, process) :=
    if r_fd_err then (Some (fd_err process), set_fd_err (-1) process)
    else (None, process) in
  (GPG_ERR_NO_ERROR, (got_in, got_out, got_err), process).

Definition gnupg_process_wait (process : gnupg_process) (hang : bool) (w : world)
  : gpg_err_code_t * gnupg_process * world :=
  if terminated process then (GPG_ERR_NO_ERROR, process, w)
  else
    let '(r, w) := waitpid_restart (interrupts w) (pid process) hang w in
    match r with
    | Wait_error _ =>
        let ec := gpg_err_code_from_syserror w in
        (ec, process, log_error (Log_wait_failed (-1) (errno w)) w)
    | Wait_none => (GPG_ERR_TIMEOUT, process, w)
    | Wait_reaped _ status =>
        (GPG_ERR_NO_ERROR, set_wstatus status (set_terminated true process), w)
    end.

(** [process = None] is the NULL pointer. *)
Definition gnupg_process_release (process : option gnupg_process) (w : world) : world :=
  match process with
  | None => w
  | Some process =>
      let w :=
        if terminated process then
          let '(_, w) := gnupg_process_terminate process w in
          let '(_, _, w) := gnupg_process_wait process true w in
          w
        else w in
      sys_free Blk_process w
  end.

Section Spawn.
Context `{!Config}.

Definition has_flag (flags flag : Z) : bool := negb (Z.land flags flag =? 0).

Definition do_create_pipe (w : world) : gpg_error_t * (Z * Z) * world :=
  match sys_pipe w with
  | (Some filedes, w) => (no_error, filedes, w)
  | (None, w) =>
      (gpg_err_make default_errsource (gpg_err_code_from_syserror w), (-1, -1), w)
  end.

Definition do_create_socketpair (w : world) : gpg_error_t * (Z * Z) * world :=
  match sys_socketpair w with
  | (Some filedes, w) => (no_error, filedes, w)
  | (None, w) => (code_only (gpg_err_code_from_syserror w), (-1, -1), w)
  end.

Definition close_if (c : bool) (fd : Z) (w : world) : world :=
  if c then (sys_close fd w).2 else w.

(** The parent's side of [spawn_detached]; the first child detaches, forks
    the program and exits. *)
Definition spawn_detached (process : gnupg_process) (pgmname : string) (w : world)
  : gpg_err_code_t * gnupg_process * world :=
  if setuid w then
    (GPG_ERR_BUG, process, sys_free Blk_argv (sys_free Blk_process w))
  else if negb (access_x w pgmname =? 0) then
    let w := set_errno (access_x w pgmname) w in
    (gpg_err_code_from_syserror w, process,
     sys_free Blk_argv (sys_free Blk_process w))
  else
    let '(pid, w) := sys_fork w in
    if pid =? -1 then
      let ec := gpg_err_code_from_syserror w in
      (ec, process,
       sys_free Blk_argv (sys_free Blk_process (log_error (Log_fork_failed ec) w)))
    else
      match sys_waitpid pid true w with
      | (Wait_error _, w) =>
          let ec := gpg_err_code_from_syserror w in
          (ec, process, log_error (Log_waitpid_detached_failed ec) w)
      | (_, w) =>
          let process := set_pid (-1) process in
          let process := set_fd_in (-1) process in
          let process := set_fd_out (-1) process in
          let process := set_fd_err (-1) process in
          let process := set_wstatus (-1) process in
          let process := set_terminated true process in
          (GPG_ERR_NO_ERROR, process, w)
      end.

(** The descriptors of the three standard streams as [gnupg_process_spawn]
    sets them up: on success the pairs [fd_in], [fd_out], [fd_err]. *)
Definition setup_stdio (flags : Z) (w : world)
  : gpg_error_t * ((Z * Z) * (Z * Z) * (Z * Z)) * world :=
  let none := (-1, -1) in
  let '(ec, fd_in, fd_out, w) :=
    if has_flag flags GNUPG_PROCESS_STDINOUT_SOCKETPAIR then
      let '(ec, fd_in, w) := do_create_socketpair w in
      if negb (failed ec) then
        let '(out0, w) := sys_dup fd_in.1 w in
        let '(out1, w) := sys_dup fd_in.2 w in
        (ec, fd_in, (out0, out1), w)
      else (ec, fd_in, none, w)
    else
      let '(ec, fd_in, w) :=
        if has_flag flags GNUPG_PROCESS_STDIN_PIPE then do_create_pipe w
        else if has_flag flags GNUPG_PROCESS_STDIN_NULL then (no_error, (-1, -1), w)
        else (no_error, (0, -1), w) in
      if negb (failed ec) then
        if has_flag flags GNUPG_PROCESS_STDOUT_PIPE then
          let '(ec, fd_out, w) := do_create_pipe w in
          if negb (failed ec) then (ec, fd_in, fd_out, w)
          else
            let w := close_if ((0 <=? fd_in.1) && negb (fd_in.1 =? 0)) fd_in.1 w in
            let w := close_if (0 <=? fd_in.2) fd_in.2 w in
            (ec, fd_in, fd_out, w)
        else if has_flag flags GNUPG_PROCESS_STDOUT_NULL then (ec, fd_in, (-1, -1), w)
        else (ec, fd_in, (-1, 1), w)
      else (ec, fd_in, none, w) in
  if negb (failed ec) then
    if has_flag flags GNUPG_PROCESS_STDERR_PIPE then
      let '(ec, fd_err, w) := do_create_pipe w in
      if negb (failed ec) then (ec, (fd_in, fd_out, fd_err), w)
      else
        let w := close_if ((0 <=? fd_in.1) && negb (fd_in.1 =? 0)) fd_in.1 w in
        let w := close_if (0 <=? fd_in.2) fd_in.2 w in
        let w := close_if (0 <=? fd_out.1) fd_out.1 w in
        let w := close_if ((0 <=? fd_out.2) && negb (fd_out.2 =? 1)) fd_out.2 w in
        (ec, (fd_in, fd_out, fd_err), w)
    else if has_flag flags GNUPG_PROCESS_STDERR_NULL then
      (ec, (fd_in, fd_out, (-1, -1)), w)
    else (ec, (fd_in, fd_out, (-1, 2)), w)
  else (ec, (fd_in, fd_out, none), w).

(** [r_process] tells whether the caller passed a place for the handle;
    the result carries what that place holds on return (a handle whose
    block the trace shows as freed is a dangling pointer).  The argument
    vector and the callback only matter to the child, so of the vector
    the parent's side keeps the allocation alone. *)
Definition gnupg_process_spawn (pgmname : string) (argv1 : list string)
    (flags : Z) (r_process : bool) (w : world)
  : outcome (gpg_error_t * option gnupg_process) * world :=
  match sys_alloc Blk_argv (Z.of_nat (length argv1) + 2) w with
  | (false, w) => (Returns (code_only (gpg_err_code_from_syserror w), None), w)
  | (true, w) =>
  match sys_alloc Blk_process 1 w with
  | (false, w) =>
      let w := sys_free Blk_argv w in
      (Returns (code_only (gpg_err_code_from_syserror w), None), w)
  | (true, w) =>
  let process := mk_process pgmname false flags 0 0 0 0 0 in
  if has_flag flags GNUPG_PROCESS_DETACHED then
    if has_flag flags GNUPG_PROCESS_STDFDS_SETTING then
      (Returns (code_only GPG_ERR_INV_FLAG, None),
       sys_free Blk_argv (sys_free Blk_process w))
    else if r_process then
      let '(ec, process, w) := spawn_detached process pgmname w in
      (Returns (code_only ec, Some process), w)
    else (Faults, w)
  else
  let '(ec, fds, w) := setup_stdio flags w in
  if negb (failed ec) then
    let '(fd_in, fd_out, fd_err) := fds in
    let '(pid, w) := sys_fork w in
    if pid =? -1 then
      let ec := gpg_err_code_from_syserror w in
      let w := log_error (Log_fork_failed ec) w in
      let w := close_if ((0 <=? fd_in.1) && negb (fd_in.1 =? 0)) fd_in.1 w in
      let w := close_if (0 <=? fd_in.2) fd_in.2 w in
      let w := close_if (0 <=? fd_out.1) fd_out.1 w in
      let w := close_if ((0 <=? fd_out.2) && negb (fd_out.2 =? 1)) fd_out.2 w in
      let w := close_if (0 <=? fd_err.1) fd_err.1 w in
      let w := close_if ((0 <=? fd_err.2) && negb (fd_err.2 =? 2)) fd_err.2 w in
      (Returns (code_only ec, None), sys_free Blk_argv (sys_free Blk_process w))
    else
      let w := sys_free Blk_argv w in
      let process := set_pid pid process in
      let w := close_if ((0 <=? fd_in.1) && negb (fd_in.1 =? 0)) fd_in.1 w in
      let w := close_if ((0 <=? fd_out.2) && negb (fd_out.2 =? 1)) fd_out.2 w in
      let w := close_if ((0 <=? fd_err.2) && negb (fd_err.2 =? 2)) fd_err.2 w in
      let process := set_fd_in fd_in.2 process in
      let process := set_fd_out fd_out.1 process in
      let process := set_fd_err fd_err.1 process in
      let process := set_wstatus (-1) process in
      let process := set_terminated false process in
      if r_process then (Returns (no_error, Some process), w)
      else
        let '(ec, process, w) := gnupg_process_wait process true w in
        let w := gnupg_process_release (Some process) w in
        (Returns (code_only ec, None), w)
  else (Returns (ec, None), sys_free Blk_argv (sys_free Blk_process w))
  end end.

End Spawn.

(** ** Waiting for a list of handles *)

(** [process_list] is an array of pointers to handles: the handles live in
    [heap] and a pointer is an index into it, so that two entries of the
    array may name the same handle.  A pointer that names no handle makes
    the access fault.  [count] is the length of [process_list]. *)
Fixpoint gnupg_process_wait_list (heap : list gnupg_process)
    (process_list : list nat) (hang : bool) (w : world)
  : outcome (gpg_err_code_t * list gnupg_process) * world :=
  match process_list with
  | [] => (Returns (GPG_ERR_NO_ERROR, heap), w)
  | i :: rest =>
      match heap !! i with
      | None => (Faults, w)
      | Some process =>
          if terminated process then gnupg_process_wait_list heap rest hang w
          else
            let '(ec, process, w) := gnupg_process_wait process hang w in
            let heap := <[i := process]> heap in
            if failed (code_only ec) then (Returns (ec, heap), w)
            else gnupg_process_wait_list heap rest hang w
      end
  end.

(** ** The child's side of a spawn *)

(** open(2) of /dev/null: the lowest unused descriptor, or -1. *)
Definition sys_open_null (w : world) : Z * world :=
  match sys_new_fd w with
  | (Some fd, w) => (fd, w)
  | (None, w) => (-1, w)
  end.

(** dup2(2): [newfd] becomes a copy of [oldfd], whatever it was before;
    the call fails with EBADF when [oldfd] is not open or [newfd] is out
    of range. *)
Definition sys_dup2 (oldfd newfd : Z) (w : world) : Z * world :=
  if decide (oldfd ∈ open_fds w ∧ 0 ≤ newfd < fd_limit w)
  then (newfd, set_open_fds ({[newfd]} ∪ open_fds w) w)
  else (-1, set_errno EBADF w).

(** How the child's side of a spawn ends: with the call of execv, or in
    [log_fatal], which ends the process. *)
Inductive child_end :=
| Execv (pgmname : string) (argv : list string) (w : world)
| Log_fatal (w : world).

(** [struct spawn_cb_arg]: the array [fds] of three descriptors and the
    exception list ([None] is the NULL pointer); [arg] is the callback's
    own. *)
Record spawn_cb_arg := mk_sca {
  fds : Z * Z * Z;
  except_fds : option (list Z);
}.

Definition get_fd (fds : Z * Z * Z) (i : Z) : Z :=
  if i =? 0 then fds.1.1 else if i =? 1 then fds.1.2 else fds.2.

Definition set_fd (fds : Z * Z * Z) (i : Z) (fd : Z) : Z * Z * Z :=
  if i =? 0 then (fd, fds.1.2, fds.2)
  else if i =? 1 then (fds.1.1, fd, fds.2)
  else (fds.1.1, fds.1.2, fd).

Definition posix_open_null (for_write : Z) (w : world) : (Z * world) + world :=
  let '(fd, w) := sys_open_null w in
  if fd =? -1 then inr w else inl (fd, w).

(** [for (i = 0; i <= 2; i++) if (sca.fds[i] == -1) sca.fds[i] =
    posix_open_null (i);] over the indices [todo] still to come. *)
Fixpoint assign_null (todo : list Z) (fds : Z * Z * Z) (w : world)
  : (Z * Z * Z * world) + world :=
  match todo with
  | [] => inl (fds, w)
  | i :: todo =>
      if get_fd fds i =? -1 then
        match posix_open_null i w with
        | inl (fd, w) => assign_null todo (set_fd fds i fd) w
        | inr w => inr w
        end
      else assign_null todo fds w
  end.

(** [for (i = 0; i <= 2; i++) if (sca.fds[i] != i) if (dup2 (sca.fds[i],
    i) == -1) log_fatal (...);] *)
Fixpoint connect_std (todo : list Z) (fds : Z * Z * Z) (w : world) : world + world :=
  match todo with
  | [] => inl w
  | i :: todo =>
      if negb (get_fd fds i =? i) then
        let '(r, w) := sys_dup2 (get_fd fds i) i w in
        if r =? -1 then inr w else connect_std todo fds w
      else connect_std todo fds w
  end.

(** [spawn_cb = None] is the NULL pointer; a callback may change the
    argument it is given and the world. *)
Definition my_exec (pgmname : string) (argv : list string) (fd_in fd_out fd_err : Z)
    (spawn_cb : option (spawn_cb_arg → world → spawn_cb_arg * world)) (w : world)
  : child_end :=
  let sca := mk_sca (fd_in, fd_out, fd_err) None in
  let '(sca, w) :=
    match spawn_cb with
    | Some cb => cb sca w
    | None => (sca, w)
    end in
  match assign_null [0; 1; 2] (fds sca) w with
  | inr w => Log_fatal w
  | inl (fds, w) =>
      match connect_std [0; 1; 2] fds w with
      | inr w => Log_fatal w
      | inl w => Execv pgmname argv (close_all_fds 3 (except_fds sca) w)
      end
  end.

(** ** Control requests *)

(** The macros of <sys/wait.h> for a child ended by a signal. *)
Class WaitSignal := {
  WIFSIGNALED : Z → bool;
  WTERMSIG : Z → Z;
}.

(** glibc: [WTERMSIG (s)] is [s & 0x7f], and [WIFSIGNALED (s)] is
    [((signed char) ((s & 0x7f) + 1) >> 1) > 0]. *)
Definition glibc_signal : WaitSignal := {|
  WIFSIGNALED status :=
    let low := Z.land status 127 + 1 in
    let signed := if 128 <=? low then low - 256 else low in
    0 <? Z.shiftr signed 1;
  WTERMSIG status := Z.land status 127;
|}.

(** The codes that [process_vctl] returns: those of the rest of the unit
    and two of its own. *)
Inductive ctl_code :=
| Code (ec : gpg_err_code_t)
| GPG_ERR_UNFINISHED
| GPG_ERR_UNKNOWN_COMMAND.

(** A request with the arguments that [process_vctl] takes from the
    variable argument list for it; a pointer argument is given by whether
    it is not NULL. *)
Inductive request :=
| GNUPG_PROCESS_NOP
| GNUPG_PROCESS_GET_ID (r_id : bool)
| GNUPG_PROCESS_GET_EXIT_ID (r_exit_status : bool)
| GNUPG_PROCESS_GET_PID (r_pid : bool)
| GNUPG_PROCESS_GET_WSTATUS (r_if_exited r_if_signaled r_exit_status r_termsig : bool)
| GNUPG_PROCESS_KILL (sig : Z)
| GNUPG_PROCESS_UNKNOWN (number : Z).

Section Control.
Context `{!Config} `{!WaitSignal}.

(** [if (p) *p = v;]: what is stored through [p], if anything. *)
Definition store_if (p : bool) (v : Z) : option Z := if p then Some v else None.

(** The result lists, in the order of the pointer arguments, what has
    been stored through each of them. *)
Definition process_vctl (process : gnupg_process) (req : request) (w : world)
  : outcome (ctl_code * list (option Z)) * world :=
  match req with
  | GNUPG_PROCESS_NOP => (Returns (Code GPG_ERR_NO_ERROR, []), w)
  | GNUPG_PROCESS_GET_ID r_id =>
      if negb r_id then (Returns (Code GPG_ERR_INV_VALUE, [None]), w)
      else (Returns (Code GPG_ERR_NO_ERROR, [Some (to_int (pid process))]), w)
  | GNUPG_PROCESS_GET_EXIT_ID r_exit_status =>
      let status := wstatus process in
      if negb (terminated process) then (Returns (GPG_ERR_UNFINISHED, [None]), w)
      else if WIFEXITED status then
        (Returns (Code GPG_ERR_NO_ERROR, [store_if r_exit_status (WEXITSTATUS status)]), w)
      else if r_exit_status then (Returns (Code GPG_ERR_NO_ERROR, [Some (-1)]), w)
      else (Faults, w)
  | GNUPG_PROCESS_GET_PID r_pid =>
      if negb r_pid then (Returns (Code GPG_ERR_INV_VALUE, [None]), w)
      else (Returns (Code GPG_ERR_NO_ERROR, [Some (pid process)]), w)
  | GNUPG_PROCESS_GET_WSTATUS r_if_exited r_if_signaled r_exit_status r_termsig =>
      let status := wstatus process in
      if negb (terminated process) then
        (Returns (GPG_ERR_UNFINISHED, [None; None; None; None]), w)
      else if WIFEXITED status then
        (Returns (Code GPG_ERR_NO_ERROR,
                  [store_if r_if_exited 1; store_if r_if_signaled 0;
                   store_if r_exit_status (WEXITSTATUS status);
                   store_if r_termsig 0]), w)
      else if WIFSIGNALED status then
        (Returns (Code GPG_ERR_NO_ERROR,
                  [store_if r_if_exited 0; store_if r_if_signaled 1;
                   store_if r_exit_status 0;
                   store_if r_termsig (WTERMSIG status)]), w)
      else (Returns (Code GPG_ERR_NO_ERROR, [None; None; None; None]), w)
  | GNUPG_PROCESS_KILL sig =>
      let '(ec, w) := process_kill process sig w in
      (Returns (Code ec, []), w)
  | GNUPG_PROCESS_UNKNOWN _ => (Returns (GPG_ERR_UNKNOWN_COMMAND, []), w)
  end.

Definition gnupg_process_ctl (process : gnupg_process) (req : request) (w : world)
  : outcome (ctl_code * list (option Z)) * world :=
  process_vctl process req w.

End Control.

(** ** The older interface: spawning by pid *)

(** The spawn flags of exechelp.h that [do_exec] looks at. *)
Class SpawnFlags := {
  GNUPG_SPAWN_KEEP_STDIN : Z;
  GNUPG_SPAWN_KEEP_STDOUT : Z;
  GNUPG_SPAWN_KEEP_STDERR : Z;
}.

Definition exechelp_flags : SpawnFlags := {|
  GNUPG_SPAWN_KEEP_STDIN := 256;
  GNUPG_SPAWN_KEEP_STDOUT := 512;
  GNUPG_SPAWN_KEEP_STDERR := 1024;
|}.

(** [strrchr (pgmname, '/')] moved one character on: what follows the
    last slash, if there is a slash. *)
Fixpoint after_last_slash (s : string) : option string :=
  match s with
  | EmptyString => None
  | String a s' =>
      match after_last_slash s' with
      | Some r => Some r
      | None => if String.eqb (String a EmptyString) "/" then Some s' else None
      end
  end.

(** The argument vector of [do_exec]: the program's base name, for which
    [pgmname] is copied if it has no slash, in front of [argv].  [xcalloc]
    and [xstrdup] do not return when they fail. *)
Definition make_arg_list (pgmname : string) (argv : list string) (w : world)
  : option (list string) * world :=
  match sys_alloc Blk_argv (Z.of_nat (length argv) + 2) w with
  | (false, w) => (None, w)
  | (true, w) =>
      match after_last_slash pgmname with
      | Some name => (Some (name :: argv), w)
      | None =>
          match sys_alloc Blk_argv (Z.of_nat (String.length pgmname) + 1) w with
          | (false, w) => (None, w)
          | (true, w) => (Some (pgmname :: argv), w)
          end
      end
  end.

Section OlderChild.
Context `{!SpawnFlags}.

(** [nodevnull[i]] *)
Definition nodevnull (flags : Z) (i : Z) : bool :=
  has_flag flags (if i =? 0 then GNUPG_SPAWN_KEEP_STDIN
                  else if i =? 1 then GNUPG_SPAWN_KEEP_STDOUT
                  else GNUPG_SPAWN_KEEP_STDERR).

Fixpoint do_exec_assign_null (todo : list Z) (flags : Z) (fds : Z * Z * Z)
    (w : world) : (Z * Z * Z * world) + world :=
  match todo with
  | [] => inl (fds, w)
  | i :: todo =>
      if nodevnull flags i then do_exec_assign_null todo flags fds w
      else if get_fd fds i =? -1 then
        let '(fd, w) := sys_open_null w in
        if fd =? -1 then inr w
        else do_exec_assign_null todo flags (set_fd fds i fd) w
      else do_exec_assign_null todo flags fds w
  end.

Fixpoint do_exec_connect_std (todo : list Z) (flags : Z) (fds : Z * Z * Z)
    (w : world) : world + world :=
  match todo with
  | [] => inl w
  | i :: todo =>
      if nodevnull flags i then do_exec_connect_std todo flags fds w
      else if negb (get_fd fds i =? i) then
        let '(r, w) := sys_dup2 (get_fd fds i) i w in
        if r =? -1 then inr w else do_exec_connect_std todo flags fds w
      else do_exec_connect_std todo flags fds w
  end.

Definition do_exec (pgmname : string) (argv : list string) (fd_in fd_out fd_err : Z)
    (except : option (list Z)) (flags : Z) (w : world) : child_end :=
  match make_arg_list pgmname argv w with
  | (None, w) => Log_fatal w
  | (Some arg_list, w) =>
      match do_exec_assign_null [0; 1; 2] flags (fd_in, fd_out, fd_err) w with
      | inr w => Log_fatal w
      | inl (fds, w) =>
          match do_exec_connect_std [0; 1; 2] flags fds w with
          | inr w => Log_fatal w
          | inl w => Execv pgmname arg_list (close_all_fds 3 except w)
          end
      end
  end.

End OlderChild.

Section OlderInterface.
Context `{!Config}.

(** The parent's side of [gnupg_spawn_process_fd]; the child runs
    [do_exec] without exceptions and flags.  [pid] tells whether the
    pointer is not NULL; the result carries what it points to. *)
Definition gnupg_spawn_process_fd (pgmname : string) (argv : list string)
    (infd outfd errfd : Z) (pid : bool) (w : world)
  : outcome (gpg_error_t * Z) * world :=
  if negb pid then (Faults, w)
  else
    let '(child, w) := sys_fork w in
    if child =? -1 then
      let ec := gpg_err_code_from_syserror w in
      (Returns (gpg_err_make default_errsource ec, child),
       log_error (Log_fork_failed ec) w)
    else (Returns (no_error, child), w).

(** The parent's side of [gnupg_spawn_process_detached]; [gnupg_access]
    returns the code of the errno that access(2) leaves. *)
Definition gnupg_spawn_process_detached (pgmname : string) (argv envp : list string)
    (w : world) : gpg_error_t * world :=
  if setuid w then (gpg_err_make default_errsource GPG_ERR_BUG, w)
  else
    let ec := gpg_err_code_from_errno (access_x w pgmname) in
    if failed (code_only ec) then
      (gpg_err_make default_errsource ec, set_errno (access_x w pgmname) w)
    else
      let '(child, w) := sys_fork w in
      if child =? -1 then
        let w := log_error (Log_fork_failed (gpg_err_code_from_syserror w)) w in
        (gpg_err_make default_errsource (gpg_err_code_from_syserror w), w)
      else
        match sys_waitpid child true w with
        | (Wait_error _, w) =>
            (no_error,
             log_error (Log_waitpid_detached_failed (gpg_err_code_from_syserror w)) w)
        | (_, w) => (no_error, w)
        end.

End OlderInterface.

(** ** Notions used to state the properties *)

(** The capacity of the descriptor array after [k] enlargements. *)
Definition capacity (k : nat) : Z := Nat.iter k grow_narray 32.

(** The records that the cache holds for [pid]. *)
Definition records_of (pid : Z) (c : list (Z * Z)) : list (Z * Z) :=
  filter (λ r, r.1 = pid) c.





(** ** Sample worlds *)

(** A process with children, a cache and coming allocator outcomes as
    given; the descriptors 0, 1 and 2 are open and all else is quiet. *)
Definition world_with (c : list (Z * child)) (cache : list (Z * Z))
    (outcomes : list bool) : world :=
  World c (list_to_set [0; 1; 2]) 1024
        (mk_census (Some [0; 1; 2]) None None 256 None None)
        0 outcomes [] false (λ _, 0) 0 cache [] [].

(** A process with the descriptors 0-5, 7 and 9 open, as /proc/self/fd
    lists them, and no children. *)
Definition quiet_world : world :=
  World [] (list_to_set [0; 1; 2; 3; 4; 5; 7; 9]) 1024
        (mk_census (Some [0; 1; 2; 3; 4; 5; 7; 9]) None None 256 None None)
        0 [] [] false (λ _, 0) 0 [] [] [].


(** A process with one child, pid 4711, that still runs and will end on
    SIGTERM (wait status 15), and the handle of that child. *)
Definition busy_world : world :=
  World [(4711, Running 15)] (list_to_set [0; 1; 2; 5; 6]) 1024
        (mk_census (Some [0; 1; 2; 5; 6]) None None 256 None None)
        0 [] [] false (λ _, 0) 0 [] [] [].

Definition busy_handle : gnupg_process :=
  mk_process "/usr/bin/gpg-agent" false 0 4711 5 6 (-1) (-1).

(** The handle of a child that has been waited for (it left with exit
    code 0). *)
Definition done_handle : gnupg_process :=
  mk_process "/usr/bin/gpg-agent" true 0 4711 5 6 (-1) 0.

(** A process about to spawn: the next fork succeeds with pid 4712, and
    that child has ended by the time it is waited for. *)
Definition spawning_world : world :=
  World [] (list_to_set [0; 1; 2]) 1024
        (mk_census (Some [0; 1; 2]) None None 256 None None)
        0 [] [Some (4712, Zombie 0)] false (λ _, 0) 0 [] [] [].

(** A process whose child 4711 has left with exit code 37. *)
Definition reaping_world : world := world_with [(4711, Zombie 9472)] [] [].


(** A process with the running child 4711, two other children and two
    signals about to interrupt its blocking waits. *)
Definition interrupted_world : world :=
  World [(4700, Zombie 0); (4711, Running 256); (4720, Running 0)]
        (list_to_set [0; 1; 2; 5; 6]) 1024
        (mk_census (Some [0; 1; 2; 5; 6]) None None 256 None None)
        2 [] [] false (λ _, 0) 0 [(4600, 0)] [] [].

(** The descriptors that a handle owns: its slots that are not -1. *)
Definition owned_fds (process : gnupg_process) : gset Z :=
  list_to_set (filter (λ fd, 0 ≤ fd) [fd_in process; fd_out process; fd_err process]).

(** A process with its three standard descriptors and 5 open, whose next
    fork succeeds with pid 4712. *)
Definition parent_world : world :=
  World [] (list_to_set [0; 1; 2; 5]) 1024
        (mk_census (Some [0; 1; 2; 5]) None None 256 None None)
        0 [] [Some (4712, Running 0)] false (λ _, 0) 0 [] [] [].

(** The same process when it may have no more than seven descriptors, so
    that a third pipe cannot be made, and when the fork fails. *)
Definition tight_world : world :=
  World [] (list_to_set [0; 1; 2; 5]) 9
        (mk_census (Some [0; 1; 2; 5]) None None 256 None None)
        0 [] [Some (4712, Running 0)] false (λ _, 0) 0 [] [] [].

(** Every open descriptor lies below the limit under which the kernel
    hands out descriptors. *)
Definition fds_below_limit (w : world) : Prop :=
  ∀ fd, fd ∈ open_fds w → 0 ≤ fd < fd_limit w.

(** A child just after the fork: beside 0, 1 and 2 it has the two ends of
    a pipe open, 5 and 6; /proc/self/fd cannot be read, and the resource
    limit is the limit of the kernel. *)
Definition child_world : world :=
  World [] (list_to_set [0; 1; 2; 5; 6]) 64
        (mk_census None (Some 64) None 256 None None)
        0 [] [] false (λ _, 0) 0 [] [] [].

(** * Properties *)

(** ** Bulk closer *)

Lemma sys_close_trace fd w : trace (sys_close fd w).2 = trace w ++ [EvClose fd].
Proof. unfold sys_close. by case_decide. Qed.

Lemma sys_close_open_fds fd w : open_fds (sys_close fd w).2 = open_fds w ∖ {[fd]}.
Proof.
  unfold sys_close. case_decide as Hin; simpl in *; [done|].
  apply set_eq. intros x. set_solver.
Qed.

Lemma seqZ_succ_nat m n : seqZ m (Z.of_nat (S n)) = m :: seqZ (m + 1) (Z.of_nat n).
Proof. rewrite seqZ_cons by lia. f_equal. f_equal; lia. Qed.

Lemma close_loop_spec n : ∀ fd w,
  trace (close_loop n fd w) = trace w ++ (EvClose <$> seqZ fd (Z.of_nat n))
  ∧ open_fds (close_loop n fd w) = open_fds w ∖ list_to_set (seqZ fd (Z.of_nat n)).
Proof.
  induction n as [|n IH]; intros fd w.
  - simpl. rewrite app_nil_r. split; [done|]. set_solver.
  - cbn [close_loop]. destruct (IH (fd + 1) (sys_close fd w).2) as [Ht Ho].
    rewrite Ht, Ho, sys_close_trace, sys_close_open_fds, seqZ_succ_nat.
    split.
    + rewrite fmap_cons, <- app_assoc. done.
    + rewrite list_to_set_cons. set_solver.
Qed.

(** The inner loop finds [fd] exactly when it occurs among the entries it
    looks at, and otherwise stops at the end marker. *)
Lemma scan_except_spec fd : ∀ entries i,
  -1 ∉ entries →
  match scan_except fd entries i with
  | (j, Some s) => ∃ k, j = (i + k)%nat ∧ s = S j ∧ entries !! k = Some fd
  | (j, None) => j = (i + length entries)%nat ∧ fd ∉ entries
  end.
Proof.
  induction entries as [|x entries IH]; intros i Hno; simpl.
  - split; [lia|]. set_solver.
  - apply not_elem_of_cons in Hno as [Hx Hno].
    destruct (Z.eqb_spec x (-1)) as [->|_]; [done|].
    destruct (Z.eqb_spec x fd) as [->|Hne].
    + exists 0%nat. split_and!; [lia|lia|done].
    + specialize (IH (S i) Hno). destruct (scan_except fd entries (S i)) as [j [s|]].
      * destruct IH as (k & -> & -> & Hk). exists (S k). split_and!; [lia|lia|done].
      * destruct IH as [-> Hnot]. split; [lia|]. set_solver.
Qed.

(** Loop invariant of the merge pass: the entries in front of
    [except_start] are all below the descriptor under test. *)
Lemma close_except_loop_spec E n : ∀ fd start w,
  StronglySorted Z.le E → -1 ∉ E →
  Forall (λ x, x < fd) (take start E) → (start ≤ length E)%nat →
  trace (close_except_loop n fd E start w)
    = trace w ++ (EvClose <$> filter (λ x, x ∉ E) (seqZ fd (Z.of_nat n)))
  ∧ open_fds (close_except_loop n fd E start w)
    = open_fds w ∖ list_to_set (filter (λ x, x ∉ E) (seqZ fd (Z.of_nat n))).
Proof.
  induction n as [|n IH]; intros fd start w Hs Hno Hlt Hlen.
  - simpl. rewrite app_nil_r. split; [done|]. set_solver.
  - cbn [close_except_loop].
    assert (Hno' : -1 ∉ drop start E).
    { intros Hin. apply Hno. rewrite <- (take_drop start E). set_solver. }
    pose proof (scan_except_spec fd (drop start E) start Hno') as Hscan.
    destruct (scan_except fd (drop start E) start) as [j [s|]].
    + destruct Hscan as (k & -> & -> & Hk). rewrite lookup_drop in Hk.
      assert (HfdE : fd ∈ E) by (by eapply list_elem_of_lookup_2).
      unfold except_at. rewrite Hk. simpl.
      destruct (Z.eqb_spec fd (-1)) as [->|_]; [done|].
      destruct (IH (fd + 1) (S (start + k)) w Hs Hno) as [Ht Ho].
      { apply Forall_lookup. intros i x Hi.
        apply lookup_take_Some in Hi as [Hi Hlt'].
        assert (x ≤ fd); [|lia].
        destruct (decide (i = (start + k)%nat)) as [->|Hne]; [naive_solver lia|].
        assert (E = take (start + k) E ++ fd :: drop (S (start + k)) E) as HE.
        { rewrite <- (take_drop (start + k) E) at 1. f_equal.
          by apply drop_S. }
        rewrite HE in Hs.
        eapply (StronglySorted_app_1_elem_of _ _ _ _ _ Hs); [|set_solver].
        apply elem_of_take. exists i. split; [done|lia]. }
      { apply lookup_lt_Some in Hk. lia. }
      rewrite Ht, Ho, seqZ_succ_nat, filter_cons. by case_decide.
    + destruct Hscan as [-> Hnot].
      rewrite length_drop.
      replace (start + (length E - start))%nat with (length E) by lia.
      unfold except_at. rewrite lookup_ge_None_2 by lia. simpl.
      assert (HfdE : fd ∉ E).
      { rewrite <- (take_drop start E). apply not_elem_of_app. split; [|done].
        intros Hin. rewrite Forall_forall in Hlt. apply Hlt in Hin. lia. }
      destruct (IH (fd + 1) start (sys_close fd w).2 Hs Hno) as [Ht Ho]; [|done|].
      { eapply Forall_impl; [exact Hlt|]. simpl. lia. }
      rewrite Ht, Ho, seqZ_succ_nat, filter_cons, sys_close_trace, sys_close_open_fds.
      case_decide; [|done]. split.
      * rewrite fmap_cons, <- app_assoc. done.
      * rewrite list_to_set_cons. set_solver.
Qed.

Lemma seqZ_to_nat m len : seqZ m (Z.of_nat (Z.to_nat len)) = seqZ m len.
Proof. unfold seqZ. by rewrite Nat2Z.id. Qed.

(** What [close_all_fds] does with an exception list and without one. *)
Lemma close_all_fds_spec (first : Z) (E : list Z) (w : world) :
  Sorted Z.le E → -1 ∉ E →
  trace (close_all_fds first (Some E) w)
    = trace w ++ (EvClose <$> filter (λ fd, fd ∉ E) (seqZ first (get_max_fds w - first)))
  ∧ (∀ fd, fd ∈ open_fds (close_all_fds first (Some E) w)
           ↔ fd ∈ open_fds w ∧ (fd ∈ E ∨ ¬ (first ≤ fd < get_max_fds w))).
Proof.
  intros Hs Hno. apply Sorted_StronglySorted in Hs; [|apply _].
  unfold close_all_fds; simpl.
  destruct (close_except_loop_spec E (Z.to_nat (get_max_fds w - first)) first 0 w)
    as [Ht Ho]; [done|done|by rewrite take_0|lia|].
  rewrite seqZ_to_nat in Ht, Ho. split; [done|].
  intros fd. rewrite Ho, elem_of_difference, elem_of_list_to_set,
    list_elem_of_filter, elem_of_seqZ.
  destruct (decide (fd ∈ E)) as [HE|HE]; intuition lia.
Qed.

Lemma close_all_fds_null_spec (first : Z) (w : world) :
  trace (close_all_fds first None w)
    = trace w ++ (EvClose <$> seqZ first (get_max_fds w - first))
  ∧ (∀ fd, fd ∈ open_fds (close_all_fds first None w)
           ↔ fd ∈ open_fds w ∧ ¬ (first ≤ fd < get_max_fds w)).
Proof.
  unfold close_all_fds; simpl.
  destruct (close_loop_spec (Z.to_nat (get_max_fds w - first)) first w) as [Ht Ho].
  rewrite seqZ_to_nat in Ht, Ho. split; [done|].
  intros fd. rewrite Ho, elem_of_difference, elem_of_list_to_set, elem_of_seqZ.
  intuition lia.
Qed.

(** C5: for an ascending exception list [E] in front of its -1 marker,
    [close_all_fds first E] issues close for exactly the descriptors of
    [first, max) that are not in [E], in ascending order, so that a
    descriptor stays open iff it was open and is in [E] or outside the
    range; with a NULL list it closes every descriptor of [first, max). *)
Theorem close_all_fds_closes_exactly (first : Z) (E : list Z) (w : world) :
  Sorted Z.le E → -1 ∉ E →
  trace (close_all_fds first (Some E) w)
    = trace w ++ (EvClose <$> filter (λ fd, fd ∉ E) (seqZ first (get_max_fds w - first)))
  ∧ (∀ fd, fd ∈ open_fds (close_all_fds first (Some E) w)
           ↔ fd ∈ open_fds w ∧ (fd ∈ E ∨ ¬ (first ≤ fd < get_max_fds w)))
  ∧ trace (close_all_fds first None w)
    = trace w ++ (EvClose <$> seqZ first (get_max_fds w - first))
  ∧ (∀ fd, fd ∈ open_fds (close_all_fds first None w)
           ↔ fd ∈ open_fds w ∧ ¬ (first ≤ fd < get_max_fds w)).
Proof.
  intros Hs Hno.
  destruct (close_all_fds_spec first E w Hs Hno) as [Ht Ho].
  destruct (close_all_fds_null_spec first w) as [Ht' Ho'].
  by split_and!.
Qed.

Lemma close_all_fds_closes_exactly_witness :
  trace (close_all_fds 3 (Some [4; 7]) quiet_world)
    = [EvClose 3; EvClose 5; EvClose 6; EvClose 8; EvClose 9]
  ∧ (∀ fd, fd ∈ open_fds (close_all_fds 3 (Some [4; 7]) quiet_world)
           ↔ fd ∈ open_fds quiet_world ∧ (fd ∈ [4; 7] ∨ ¬ (3 ≤ fd < 10))).
Proof.
  destruct (close_all_fds_closes_exactly 3 [4; 7] quiet_world) as (Ht & Ho & _).
  - repeat constructor; lia.
  - intros Hin. repeat (apply elem_of_cons in Hin as [Hin|Hin]; [lia|]).
    by apply elem_of_nil in Hin.
  - split; [exact Ht | exact Ho].
Defined.

(** ** Descriptor census *)

Lemma highest_entry_spec (entries : list Z) : ∀ m0,
  let r := fold_left (λ m x, if x >? m then x else m) entries m0 in
  m0 ≤ r ∧ (∀ x, x ∈ entries → x ≤ r) ∧ (r = m0 ∨ r ∈ entries).
Proof.
  induction entries as [|y entries IH]; intros m0; simpl.
  { split_and!; [lia|set_solver|by left]. }
  destruct (IH (if y >? m0 then y else m0)) as (Hge & Hall & Hin).
  destruct (Z.gtb_spec y m0); split_and!; try lia.
  - intros x [->|Hx]%elem_of_cons; [lia|by apply Hall].
  - right. destruct Hin as [->|Hin]; set_solver.
  - intros x [->|Hx]%elem_of_cons; [lia|by apply Hall].
  - destruct Hin as [->|Hin]; [by left|right; set_solver].
Qed.

(** On the fast path the limit is one more than the highest entry of
    /proc/self/fd, hence above every descriptor listed there. *)
Lemma get_max_fds_proc (w : world) (entries : list Z) :
  proc_self_fd (census w) = Some entries →
  (∃ x, x ∈ entries ∧ 0 ≤ x) →
  get_max_fds w = fold_left (λ m x, if x >? m then x else m) entries (-1) + 1
  ∧ ∀ x, x ∈ entries → x < get_max_fds w.
Proof.
  intros Hproc (x0 & Hx0 & Hpos). unfold get_max_fds. rewrite Hproc.
  destruct (highest_entry_spec entries (-1)) as (Hge & Hall & Hin). simpl in *.
  specialize (Hall x0 Hx0) as Hx0'.
  destruct (Z.eqb_spec (fold_left (λ m x, if x >? m then x else m) entries (-1)) (-1))
    as [Heq|Hne]; [lia|]. simpl.
  split; [done|]. intros x Hx. specialize (Hall x Hx). lia.
Qed.

(** With every open descriptor listed in /proc/self/fd, no descriptor
    from [first] on stays open unless the exception list names it. *)
Lemma close_all_fds_leaves_only_exceptions (first : Z) (E : list Z) (w : world)
    (entries : list Z) :
  Sorted Z.le E → -1 ∉ E →
  proc_self_fd (census w) = Some entries →
  (∀ fd, fd ∈ open_fds w → fd ∈ entries ∧ 0 ≤ fd) →
  ∀ fd, fd ∈ open_fds (close_all_fds first (Some E) w) → first ≤ fd → fd ∈ E.
Proof.
  intros Hs Hno Hproc Hlisted fd Hfd Hfirst.
  destruct (close_all_fds_spec first E w Hs Hno) as (_ & Ho).
  apply Ho in Hfd as [Hopen [HE|Hout]]; [done|].
  destruct (Hlisted fd Hopen) as [Hin Hpos].
  destruct (get_max_fds_proc w entries Hproc) as [_ Hlt]; [by exists fd|].
  specialize (Hlt fd Hin). lia.
Qed.

(** ** Enumeration of the open descriptors *)

Arguments capacity : simpl never.

Lemma capacity_S k : capacity (S k) = grow_narray (capacity k).
Proof. done. Qed.


Lemma sys_alloc_spec b n w :
  trace (sys_alloc b n w).2 = trace w ++ [EvAlloc b n]
  ∧ allocs (sys_alloc b n w).2 = tail (allocs w)
  ∧ ((sys_alloc b n w).1 = false ↔ allocs w !! 0%nat = Some false)
  ∧ ((sys_alloc b n w).1 = false → errno (sys_alloc b n w).2 = ENOMEM).
Proof.
  unfold sys_alloc. simpl.
  destruct (allocs w) as [|[] rest] eqn:E; simpl; rewrite ?E;
    split_and!; try done; by split.
Qed.

Lemma sys_alloc_open_fds b n w : open_fds (sys_alloc b n w).2 = open_fds w.
Proof. unfold sys_alloc. simpl. by destruct (allocs w) as [|[] ?]. Qed.



(** Every capacity is below the next one. *)
Lemma capacity_lt k : capacity k < capacity (S k).
Proof. rewrite capacity_S. unfold grow_narray. destruct (_ <? _); lia. Qed.


(** When no allocation fails, the loop stores exactly the open descriptors
    of its range, in ascending order, and there is always room for the
    end marker. *)
Lemma open_fds_loop_result n : ∀ fd array k w,
  Z.of_nat (length array) < capacity k →
  (∀ i, allocs w !! i ≠ Some false) →
  ∃ j,
    (open_fds_loop n fd array (capacity k) w).1
      = Some (array ++ filter (λ x, x ∈ open_fds w) (seqZ fd (Z.of_nat n)) ++ [-1])
    ∧ trace (open_fds_loop n fd array (capacity k) w).2
      = trace w ++ (EvAlloc Blk_fd_array <$> (capacity <$> seq (S k) j))
    ∧ Z.of_nat (length array
                + length (filter (λ x, x ∈ open_fds w) (seqZ fd (Z.of_nat n))))
      < capacity (k + j).
Proof.
  induction n as [|n IH]; intros fd array k w Hroom Hallocs.
  { exists 0%nat. simpl. rewrite app_nil_r, Nat.add_0_r. split_and!; [done|done|].
    by rewrite Nat.add_0_r. }
  cbn [open_fds_loop]. rewrite seqZ_succ_nat, filter_cons. unfold sys_fstat.
  destruct (decide (fd ∈ open_fds w)) as [Hopen|Hclosed]; simpl.
  2:{ change (EBADF =? EBADF) with true. simpl.
      destruct (IH (fd + 1) array k (set_errno EBADF w) Hroom Hallocs) as (j & Hr & Ht & Hlen).
      exists j. by rewrite Hr, Ht. }
  assert (Hlen1 : length (array ++ [fd]) = S (length array)).
  { rewrite length_app. simpl. lia. }
  destruct (Z.geb_spec (Z.of_nat (length array) + 1) (capacity k)) as [Hfull|Hfree].
  - rewrite <- capacity_S.
    pose proof (sys_alloc_spec Blk_fd_array (capacity (S k)) w) as (Hat & Haa & Hok & _).
    pose proof (sys_alloc_open_fds Blk_fd_array (capacity (S k)) w) as Hopen1.
    destruct (sys_alloc Blk_fd_array (capacity (S k)) w) as [[] w1]; simpl in *.
    2:{ exfalso. by apply (Hallocs 0%nat), Hok. }
    destruct (IH (fd + 1) (array ++ [fd]) (S k) w1) as (j & Hr & Ht & Hlen).
    { pose proof (capacity_lt k). rewrite Hlen1. lia. }
    { intros i. rewrite Haa. specialize (Hallocs (S i)). by destruct (allocs w). }
    exists (S j). rewrite Hr, Ht, Hat, Hopen1, <- !app_assoc. split_and!; [done|done|].
    rewrite Hlen1, Hopen1 in Hlen. simpl.
    replace (k + S j)%nat with (S k + j)%nat by lia. lia.
  - destruct (IH (fd + 1) (array ++ [fd]) k w) as (j & Hr & Ht & Hlen).
    { rewrite Hlen1. lia. }
    { done. }
    exists j. rewrite Hr, Ht, <- !app_assoc. split_and!; [done|done|].
    rewrite Hlen1 in Hlen. simpl. lia.
Qed.

(** When no allocation fails, [get_all_open_fds] returns the open
    descriptors below [get_max_fds] in ascending order, then -1. *)
Lemma get_all_open_fds_lists_open (w : world) :
  (∀ i, allocs w !! i ≠ Some false) →
  ∃ m,
    (get_all_open_fds w).1
      = Some (filter (λ x, x ∈ open_fds w) (seqZ 0 (get_max_fds w)) ++ [-1])
    ∧ trace (get_all_open_fds w).2
      = trace w ++ (EvAlloc Blk_fd_array <$> (capacity <$> seq 0 (S m)))
    ∧ Z.of_nat (length (filter (λ x, x ∈ open_fds w) (seqZ 0 (get_max_fds w))))
      < capacity m.
Proof.
  intros Hallocs. unfold get_all_open_fds.
  pose proof (sys_alloc_spec Blk_fd_array 32 w) as (Hat & Haa & Hok & _).
  pose proof (sys_alloc_open_fds Blk_fd_array 32 w) as Hopen1.
  destruct (sys_alloc Blk_fd_array 32 w) as [[] w1]; simpl in *.
  2:{ exfalso. by apply (Hallocs 0%nat), Hok. }
  destruct (open_fds_loop_result (Z.to_nat (get_max_fds w)) 0 [] 0%nat w1)
    as (j & Hr & Ht & Hlen).
  { done. }
  { intros i. rewrite Haa. specialize (Hallocs (S i)). by destruct (allocs w). }
  change (capacity 0) with 32 in *. rewrite seqZ_to_nat, Hopen1 in Hr, Hlen.
  exists j. rewrite Hr, Ht, Hat, <- app_assoc. done.
Qed.




Section Handle.
Context `{!Config}.

(** ** Process handle *)

(** A non-blocking wait is never interrupted and, while every selected
    child still runs, finds nothing. *)
Lemma sys_waitpid_nohang_running pid w :
  0 < pid →
  (∃ fate, (pid, Running fate) ∈ children w) →
  (∀ c, c ∈ children w → c.1 = pid → has_ended c = false) →
  sys_waitpid pid false w = (Wait_none, emit (EvWaitpid pid false) w).
Proof.
  intros Hpos [fate Hin] Hrun. unfold sys_waitpid. simpl.
  assert (H1 : take_first (λ c, wait_selects pid c && has_ended c) (children w) = None).
  { clear Hin. induction (children w) as [|c l IH]; [done|]. simpl.
    assert (Hc : wait_selects pid c && has_ended c = false).
    { destruct (wait_selects pid c) eqn:Hsel; [|done]. simpl.
      apply Hrun; [set_solver|]. unfold wait_selects in Hsel. lia. }
    rewrite Hc, IH; [done|]. intros c' ? ?. apply Hrun; [set_solver|done]. }
  rewrite H1.
  assert (H2 : ∃ c rest, take_first (wait_selects pid) (children w) = Some (c, rest)).
  { clear H1 Hrun. induction (children w) as [|c l IH]; [set_solver|]. simpl.
    destruct (wait_selects pid c) eqn:Hsel; [eauto|].
    apply elem_of_cons in Hin as [<-|Hin].
    - unfold wait_selects in Hsel. simpl in Hsel. lia.
    - destruct (IH Hin) as (c' & rest & ->). eauto. }
  destruct H2 as (c & rest & ->). done.
Qed.

Lemma waitpid_restart_nohang_running n pid w :
  0 < pid →
  (∃ fate, (pid, Running fate) ∈ children w) →
  (∀ c, c ∈ children w → c.1 = pid → has_ended c = false) →
  waitpid_restart n pid false w = (Wait_none, emit (EvWaitpid pid false) w).
Proof.
  intros. destruct n; simpl; by rewrite sys_waitpid_nohang_running.
Qed.

(** C7: while the child of a handle still runs, a non-blocking
    [gnupg_process_wait] returns GPG_ERR_TIMEOUT and leaves the handle as
    it is, and a non-blocking [gnupg_wait_process] on its pid returns
    GPG_ERR_TIMEOUT with the caller's slot at -1; neither is the general
    error, and all either of them does is the one waitpid call. *)
Theorem nonblocking_wait_still_running (process : gnupg_process) (name : string)
    (r_exitcode : option Z) (w : world) :
  terminated process = false →
  0 < pid process →
  (∃ fate, (pid process, Running fate) ∈ children w) →
  (∀ c, c ∈ children w → c.1 = pid process → has_ended c = false) →
  gnupg_process_wait process false w
    = (GPG_ERR_TIMEOUT, process, emit (EvWaitpid (pid process) false) w)
  ∧ gnupg_wait_process name (pid process) false r_exitcode w
    = (mk_error GPG_ERR_SOURCE_DEFAULT GPG_ERR_TIMEOUT, (λ _, -1) <$> r_exitcode,
       emit (EvWaitpid (pid process) false) w)
  ∧ GPG_ERR_TIMEOUT ≠ GPG_ERR_GENERAL.
Proof.
  intros Hterm Hpos Hin Hrun. split_and!; [| |done].
  - unfold gnupg_process_wait. rewrite Hterm.
    by rewrite waitpid_restart_nohang_running.
  - unfold gnupg_wait_process, wait_statement.
    destruct (Z.eqb_spec (pid process) (-1)); [lia|].
    destruct USE_NPTH.
    + by rewrite sys_waitpid_nohang_running.
    + by rewrite waitpid_restart_nohang_running.
Qed.

Lemma gnupg_process_wait_early (process : gnupg_process) (hang : bool) (w : world) :
  terminated process = true →
  gnupg_process_wait process hang w = (GPG_ERR_NO_ERROR, process, w).
Proof. intros Hterm. unfold gnupg_process_wait. by rewrite Hterm. Qed.

(** C10: a wait on a handle that is already marked terminated returns
    success at once, blocking or not, and changes neither the handle nor
    the world: no system call is made. *)
Theorem gnupg_process_wait_terminated (process : gnupg_process) (hang : bool)
    (w : world) :
  terminated process = true →
  gnupg_process_wait process hang w = (GPG_ERR_NO_ERROR, process, w).
Proof. apply gnupg_process_wait_early. Qed.

(** C1, what the code does: for a handle that is not marked terminated
    the release only frees the block; it sends no signal and waits for
    nothing, and the child stays in the kernel's table. *)
Theorem gnupg_process_release_live_only_frees (process : gnupg_process) (w : world) :
  terminated process = false →
  gnupg_process_release (Some process) w = emit (EvFree Blk_process) w.
Proof. intros Hterm. unfold gnupg_process_release. by rewrite Hterm. Qed.

(** On a handle that is marked terminated the release does send the
    signal, to whatever [pid] holds, and then frees the block. *)
Lemma gnupg_process_release_terminated (process : gnupg_process) (w : world) :
  terminated process = true →
  trace (gnupg_process_release (Some process) w)
    = trace w ++ [EvKill (pid process) SIGTERM; EvFree Blk_process].
Proof.
  intros Hterm. unfold gnupg_process_release, gnupg_process_terminate, process_kill.
  rewrite Hterm.
  assert (Hk : trace (sys_kill (pid process) SIGTERM w).2
               = trace w ++ [EvKill (pid process) SIGTERM]).
  { unfold sys_kill. simpl. by destruct (_ || _). }
  destruct (sys_kill (pid process) SIGTERM w) as [r w1]. simpl in Hk.
  destruct (r <? 0); rewrite gnupg_process_wait_early by done;
    simpl; rewrite Hk, <- app_assoc; done.
Qed.

(** The release closes no descriptor. *)
Lemma gnupg_process_release_no_close (process : option gnupg_process) (w : world) :
  open_fds (gnupg_process_release process w) = open_fds w
  ∧ ∃ t, trace (gnupg_process_release process w) = trace w ++ t
         ∧ ∀ fd, EvClose fd ∉ t.
Proof.
  destruct process as [process|]; simpl.
  2:{ split; [done|]. exists []. rewrite app_nil_r. split; [done|]. set_solver. }
  destruct (terminated process) eqn:Hterm.
  - pose proof (gnupg_process_release_terminated process w Hterm) as Ht.
    unfold gnupg_process_release in Ht. rewrite Hterm in Ht. split.
    + unfold gnupg_process_terminate, process_kill, sys_kill. simpl.
      destruct (_ || _); simpl; rewrite gnupg_process_wait_early by done; done.
    + eexists. split; [exact Ht|]. intros fd Hin.
      repeat (apply elem_of_cons in Hin as [Hin|Hin]; [done|]).
      by apply elem_of_nil in Hin.
  - split; [done|]. exists [EvFree Blk_process]. split; [done|].
    intros fd Hin. apply elem_of_cons in Hin as [Hin|Hin]; [done|].
    by apply elem_of_nil in Hin.
Qed.

(** C8: [gnupg_process_get_fds] hands out the content of each requested
    slot and sets the slot to -1, so a later request for the same slot
    yields -1; slots not asked for are left alone; and a release of the
    handle afterwards issues no close at all. *)
Theorem gnupg_process_get_fds_transfers_once (process : gnupg_process)
    (flags1 flags2 : Z) (a b c a' b' c' : bool) (w : world) :
  let r1 := gnupg_process_get_fds process flags1 a b c in
  let r2 := gnupg_process_get_fds r1.2 flags2 a' b' c' in
  r1.1.1 = GPG_ERR_NO_ERROR
  ∧ r1.1.2 = (if a then Some (fd_in process) else None,
              if b then Some (fd_out process) else None,
              if c then Some (fd_err process) else None)
  ∧ fd_in r1.2 = (if a then -1 else fd_in process)
  ∧ fd_out r1.2 = (if b then -1 else fd_out process)
  ∧ fd_err r1.2 = (if c then -1 else fd_err process)
  ∧ (a = true → a' = true → r2.1.2.1.1 = Some (-1))
  ∧ (b = true → b' = true → r2.1.2.1.2 = Some (-1))
  ∧ (c = true → c' = true → r2.1.2.2 = Some (-1))
  ∧ open_fds (gnupg_process_release (Some r2.2) w) = open_fds w
  ∧ ∃ t, trace (gnupg_process_release (Some r2.2) w) = trace w ++ t
         ∧ ∀ fd, EvClose fd ∉ t.
Proof.
  intros r1 r2. subst r1 r2.
  split_and!; try (by destruct a, b, c);
    try (by intros ? ?; destruct a, b, c, a', b', c');
    apply gnupg_process_release_no_close.
Qed.

(** C9: when a detached [gnupg_process_spawn] returns success, the handle
    it hands back is marked terminated, holds -1 in its three descriptor
    slots and as its pid, and the first child has been waited for. *)
Theorem detached_spawn_is_terminated (name : string) (argv1 : list string)
    (flags : Z) (r_process : bool) (w w' : world) (ec : gpg_error_t)
    (process : gnupg_process) :
  has_flag flags GNUPG_PROCESS_DETACHED = true →
  gnupg_process_spawn name argv1 flags r_process w
    = (Returns (ec, Some process), w') →
  failed ec = false →
  terminated process = true
  ∧ fd_in process = -1 ∧ fd_out process = -1 ∧ fd_err process = -1
  ∧ pid process = -1
  ∧ ∃ child, EvWaitpid child true ∈ trace w'.
Proof.
  intros Hdet Hspawn Hok. unfold gnupg_process_spawn in Hspawn.
  destruct (sys_alloc Blk_argv _ w) as [[] w1]; [|naive_solver].
  destruct (sys_alloc Blk_process 1 w1) as [[] w2]; [|naive_solver].
  rewrite Hdet in Hspawn.
  destruct (has_flag flags GNUPG_PROCESS_STDFDS_SETTING); [naive_solver|].
  destruct r_process; [|naive_solver].
  unfold spawn_detached in Hspawn.
  destruct (setuid w2); [naive_solver|].
  destruct (negb (access_x w2 name =? 0)).
  { simplify_eq. unfold failed, gpg_err_code_from_syserror in Hok. simpl in Hok.
    by destruct (_ =? 0). }
  destruct (sys_fork w2) as [child w3].
  destruct (child =? -1).
  { simplify_eq. unfold failed, gpg_err_code_from_syserror in Hok. simpl in Hok.
    by destruct (_ =? 0). }
  assert (Hev : EvWaitpid child true ∈ trace (sys_waitpid child true w3).2).
  { unfold sys_waitpid. simpl.
    repeat (case_match; simpl); set_solver. }
  destruct (sys_waitpid child true w3) as [[e| |c st] w4]; simplify_eq; simpl in *.
  - unfold failed, gpg_err_code_from_syserror in Hok. simpl in Hok.
    by destruct (_ =? 0).
  - split_and!; try done. by exists child.
  - split_and!; try done. by exists child.
Qed.

End Handle.

Lemma nonblocking_wait_still_running_witness :
  gnupg_process_wait busy_handle false busy_world
    = (GPG_ERR_TIMEOUT, busy_handle, emit (EvWaitpid 4711 false) busy_world)
  ∧ gnupg_wait_process (H := glibc false) "gpg-agent" 4711 false (Some 0) busy_world
    = (mk_error 0 GPG_ERR_TIMEOUT, Some (-1), emit (EvWaitpid 4711 false) busy_world).
Proof.
  destruct (nonblocking_wait_still_running (H := glibc false)
              busy_handle "gpg-agent" (Some 0) busy_world) as (H1 & H2 & _).
  - reflexivity.
  - simpl. lia.
  - exists 15. simpl. apply list_elem_of_here.
  - intros c Hin _. apply list_elem_of_singleton in Hin. by subst c.
  - split; [exact H1 | exact H2].
Defined.

Lemma gnupg_process_wait_terminated_witness :
  gnupg_process_wait done_handle true busy_world
    = (GPG_ERR_NO_ERROR, done_handle, busy_world).
Proof. apply (gnupg_process_wait_terminated done_handle true busy_world). reflexivity. Defined.

Lemma gnupg_process_release_live_only_frees_witness :
  gnupg_process_release (Some busy_handle) busy_world
    = emit (EvFree Blk_process) busy_world.
Proof.
  apply (gnupg_process_release_live_only_frees busy_handle busy_world). reflexivity.
Defined.

(** ** Reap coordinator *)

Lemma unlink_result_None pid c :
  unlink_result pid c = None ↔ records_of pid c = [].
Proof.
  unfold records_of. induction c as [|r c IH]; [done|]. simpl.
  rewrite filter_cons. destruct (Z.eqb_spec r.1 pid) as [Heq|Hne].
  - rewrite decide_True by done. done.
  - rewrite decide_False by done. destruct (unlink_result pid c) as [[e c']|].
    + split; [done|]. intros Hnil. apply IH in Hnil. done.
    + split; [|done]. intros _. by apply IH.
Qed.

Lemma unlink_result_Some pid c exitcode c' :
  unlink_result pid c = Some (exitcode, c') ↔
  ∃ l1 l2, c = l1 ++ (pid, exitcode) :: l2 ∧ c' = l1 ++ l2 ∧ pid ∉ l1.*1.
Proof.
  revert c'. induction c as [|[p e] c IH]; intros c'; simpl.
  - split; [done|]. intros (l1 & l2 & Hc & _). by destruct l1.
  - destruct (Z.eqb_spec p pid) as [->|Hne].
    + split.
      * intros [= <- <-]. exists [], c. split_and!; [done|done|set_solver].
      * intros (l1 & l2 & Hc & -> & Hnot). destruct l1 as [|r' l1]; simpl in *.
        { by injection Hc as -> ->. }
        injection Hc as <- ->. exfalso. apply Hnot. set_solver.
    + split.
      * destruct (unlink_result pid c) as [[e1 c1]|]; [|done].
        intros [= <- <-].
        destruct (proj1 (IH c1) eq_refl) as (l1 & l2 & -> & -> & Hnot).
        exists ((p, e) :: l1), l2. split_and!; [done|done|set_solver].
      * intros (l1 & l2 & Hc & -> & Hnot). destruct l1 as [|r' l1]; simpl in *.
        { injection Hc as -> ->. done. }
        injection Hc as <- ->.
        rewrite (proj2 (IH (l1 ++ l2))); [done|].
        exists l1, l2. split_and!; [done|done|set_solver].
Qed.

Lemma records_of_app pid l1 l2 :
  records_of pid (l1 ++ l2) = records_of pid l1 ++ records_of pid l2.
Proof. apply filter_app. Qed.

Lemma records_of_absent pid l : pid ∉ l.*1 → records_of pid l = [].
Proof.
  unfold records_of. induction l as [|r l IH]; [done|]. simpl. intros Hnot.
  rewrite filter_cons, decide_False by set_solver. apply IH. set_solver.
Qed.

(** A lookup takes exactly one record of the pid away and leaves the
    records of every other pid alone. *)
Lemma unlink_result_records pid c exitcode c' q :
  unlink_result pid c = Some (exitcode, c') →
  if decide (q = pid)
  then records_of q c = (pid, exitcode) :: records_of q c'
  else records_of q c = records_of q c'.
Proof.
  intros (l1 & l2 & -> & -> & Hnot)%unlink_result_Some.
  rewrite !records_of_app.
  assert (Hmid : records_of q ((pid, exitcode) :: l2)
                 = if decide (q = pid) then (pid, exitcode) :: records_of q l2
                   else records_of q l2).
  { unfold records_of. rewrite filter_cons. simpl. repeat case_decide; congruence. }
  rewrite Hmid. case_decide; [|done]. subst q. by rewrite records_of_absent.
Qed.

Lemma get_result_spec pid w :
  match unlink_result pid (terminated_children w) with
  | Some (exitcode, rest) =>
      get_result pid w
        = (Some exitcode, emit (EvFree Blk_record) (set_terminated_children rest w))
  | None => get_result pid w = (None, w)
  end.
Proof. unfold get_result. by destruct (unlink_result _ _) as [[? ?]|]. Qed.

Lemma store_result_spec pid exitcode w :
  (allocs w !! 0%nat ≠ Some false →
     (store_result pid exitcode w).1 = GPG_ERR_NO_ERROR
     ∧ terminated_children (store_result pid exitcode w).2
       = (pid, exitcode) :: terminated_children w)
  ∧ (allocs w !! 0%nat = Some false →
     (store_result pid exitcode w).1 = GPG_ERR_SYSTEM_ERROR ENOMEM
     ∧ terminated_children (store_result pid exitcode w).2 = terminated_children w)
  ∧ children (store_result pid exitcode w).2 = children w
  ∧ log (store_result pid exitcode w).2 = log w.
Proof.
  unfold store_result, sys_alloc. simpl.
  destruct (allocs w) as [|[] rest] eqn:E; simpl; split_and!; done.
Qed.

Lemma take_first_length {A} (P : A → bool) l x rest :
  take_first P l = Some (x, rest) → length l = S (length rest).
Proof.
  revert rest. induction l as [|y l IH]; intros rest; simpl; [done|].
  destruct (P y); [by intros [= <- <-]|].
  destruct (take_first P l) as [[z r]|]; [|done].
  intros [= <- <-]. simpl. f_equal. by apply IH.
Qed.

(** What a wait leaves alone, and that reaping shortens the child table. *)
Lemma sys_waitpid_frame pid hang w :
  terminated_children (sys_waitpid pid hang w).2 = terminated_children w
  ∧ log (sys_waitpid pid hang w).2 = log w
  ∧ allocs (sys_waitpid pid hang w).2 = allocs w
  ∧ (length (children (sys_waitpid pid hang w).2) ≤ length (children w))%nat
  ∧ (∀ p st, (sys_waitpid pid hang w).1 = Wait_reaped p st →
       (length (children (sys_waitpid pid hang w).2) < length (children w))%nat).
Proof.
  unfold sys_waitpid. simpl.
  destruct (take_first (λ c, wait_selects pid c && has_ended c) (children w))
    as [[c rest]|] eqn:E1; simpl.
  { apply take_first_length in E1. split_and!; try done; [lia|intros; lia]. }
  destruct (take_first (wait_selects pid) (children w)) as [[c rest]|] eqn:E2; simpl.
  2:{ split_and!; done. }
  apply take_first_length in E2.
  destruct hang; [|by split_and!].
  destruct (interrupts w); simpl; split_and!; try done; [lia|intros; lia].
Qed.

Lemma waitpid_restart_frame n : ∀ pid hang w,
  terminated_children (waitpid_restart n pid hang w).2 = terminated_children w
  ∧ log (waitpid_restart n pid hang w).2 = log w
  ∧ allocs (waitpid_restart n pid hang w).2 = allocs w
  ∧ (length (children (waitpid_restart n pid hang w).2) ≤ length (children w))%nat
  ∧ (∀ p st, (waitpid_restart n pid hang w).1 = Wait_reaped p st →
       (length (children (waitpid_restart n pid hang w).2) < length (children w))%nat).
Proof.
  induction n as [|n IH]; intros pid hang w; simpl;
    pose proof (sys_waitpid_frame pid hang w) as (Hc & Hl & Ha & Hle & Hlt);
    destruct (sys_waitpid pid hang w) as [[e| |p st] w1]; simpl in *;
    try (split_and!; done).
  destruct (e =? EINTR); [|by split_and!].
  destruct (IH pid hang w1) as (Hc' & Hl' & Ha' & Hle' & Hlt').
  rewrite Hc', Hl', Ha'. split_and!; try done; [lia|].
  intros p st Hr. specialize (Hlt' p st Hr). lia.
Qed.

(** The restarts allowed to the wait statement suffice: it never gives
    up on an interrupted wait. *)
Lemma waitpid_restart_settles n : ∀ pid hang w,
  (interrupts w ≤ n)%nat →
  (waitpid_restart n pid hang w).1 ≠ Wait_error EINTR.
Proof.
  induction n as [|n IH]; intros pid hang w Hn; simpl.
  - unfold sys_waitpid. simpl.
    destruct (take_first _ (children w)) as [[c rest]|]; [done|].
    destruct (take_first _ (children w)) as [[c rest]|]; [|done].
    destruct hang; [|done]. by replace (interrupts w) with 0%nat by lia.
  - assert (Hi : (interrupts (sys_waitpid pid hang w).2 ≤ n)%nat
                 ∨ (sys_waitpid pid hang w).1 ≠ Wait_error EINTR).
    { unfold sys_waitpid. simpl.
      destruct (take_first _ (children w)) as [[c rest]|]; [by right|].
      destruct (take_first _ (children w)) as [[c rest]|]; [|by right].
      destruct hang; [|by right].
      destruct (interrupts w) eqn:E; [by right|]. left. simpl. lia. }
    destruct (sys_waitpid pid hang w) as [[e| |p st] w1]; simpl in *; try done.
    destruct (Z.eqb_spec e EINTR) as [->|Hne]; [|simpl; congruence].
    destruct Hi as [Hi|Hi]; [by apply IH|done].
Qed.

Section Reap.
Context `{!Config}.

Lemma wait_statement_frame pid hang w :
  terminated_children (wait_statement pid hang w).2 = terminated_children w
  ∧ log (wait_statement pid hang w).2 = log w
  ∧ allocs (wait_statement pid hang w).2 = allocs w
  ∧ (length (children (wait_statement pid hang w).2) ≤ length (children w))%nat
  ∧ (∀ p st, (wait_statement pid hang w).1 = Wait_reaped p st →
       (length (children (wait_statement pid hang w).2) < length (children w))%nat).
Proof.
  unfold wait_statement. destruct USE_NPTH;
    [apply sys_waitpid_frame | apply waitpid_restart_frame].
Qed.


Lemma find_pid_Some pid pids i :
  find_pid pid pids = Some i ↔ pids !! i = Some pid ∧ pid ∉ take i pids.
Proof.
  unfold find_pid. rewrite fmap_Some. split.
  - intros ([j x] & (Hj & <- & Hbefore)%list_find_Some & ->). simpl. split; [done|].
    intros (k & Hk & Hlt)%elem_of_take. by eapply Hbefore.
  - intros [Hi Hnot]. exists (i, pid). split; [|done].
    apply list_find_Some. split_and!; [done|done|].
    intros j y Hj Hlt ->. apply Hnot. apply elem_of_take. eauto.
Qed.

(** The loop comes to an end before its fuel does. *)
Lemma wait_loop_total fuel : ∀ pids hang nleft ec r_exitcodes w,
  (length (children w) < fuel)%nat →
  is_Some (wait_loop fuel pids hang nleft ec r_exitcodes w).
Proof.
  induction fuel as [|fuel IH]; intros pids hang nleft ec r w Hlen; [lia|].
  cbn [wait_loop]. destruct (nleft <=? 0); [done|].
  pose proof (wait_statement_frame (-1) hang w) as (_ & _ & _ & _ & Hlt).
  destruct (wait_statement (-1) hang w) as [[e| |p st] w1]; simpl in *; try done.
  specialize (Hlt p st eq_refl).
  destruct (find_pid p pids) as [i|].
  - destruct (negb _); [done|]. apply IH. lia.
  - pose proof (store_result_spec p st w1) as (_ & _ & Hch & _).
    destruct (store_result p st w1) as [ec1 w2]. simpl in Hch.
    destruct ec1; try done. apply IH. rewrite Hch. lia.
Qed.


(** The first loop: every slot is written; a lookup never adds a record;
    a requested pid with at most one record has none left afterwards; and
    the slot of the first request for a pid receives the exit code of the
    first record of that pid, or -1 when there is none. *)
Lemma drain_results_spec pids : ∀ nleft w,
  length (drain_results pids nleft w).1.1 = length pids
  ∧ (∀ q, length (records_of q (terminated_children (drain_results pids nleft w).2))
          ≤ length (records_of q (terminated_children w)))%nat
  ∧ (∀ q, q ∈ pids → q ≠ -1 →
          (length (records_of q (terminated_children w)) ≤ 1)%nat →
          records_of q (terminated_children (drain_results pids nleft w).2) = [])
  ∧ (∀ i q, pids !! i = Some q → q ≠ -1 → q ∉ take i pids →
          (drain_results pids nleft w).1.1 !! i
          = Some (default (-1) (fst <$> unlink_result q (terminated_children w)))).
Proof.
  induction pids as [|pid pids IH]; intros nleft w.
  { simpl. split_and!; [done|done|set_solver|done]. }
  cbn [drain_results]. destruct (Z.eqb_spec pid (-1)) as [->|Hne].
  { destruct (IH (nleft - 1) w) as (Hlen & Hmono & Hgone & Hslot).
    destruct (drain_results pids (nleft - 1) w) as [[slots n'] w'].
    simpl in *. split_and!; [by f_equal|done| |].
    - intros q [->|Hin]%elem_of_cons ? ?; [done|]. by apply Hgone.
    - intros [|i] q Hi ? Hnot; simpl in *; [by simplify_eq|].
      apply Hslot; [done|done|set_solver]. }
  pose proof (get_result_spec pid w) as Hget.
  destruct (unlink_result pid (terminated_children w)) as [[e rest]|] eqn:Hu.
  - rewrite Hget. simpl.
    set (w1 := emit (EvFree Blk_record) (set_terminated_children rest w)).
    destruct (IH (nleft - 1) w1) as (Hlen & Hmono & Hgone & Hslot).
    destruct (drain_results pids (nleft - 1) w1) as [[slots n'] w'].
    simpl in *.
    assert (Hrec : ∀ q, if decide (q = pid)
              then records_of q (terminated_children w) = (pid, e) :: records_of q rest
              else records_of q (terminated_children w) = records_of q rest).
    { intros q. by eapply unlink_result_records. }
    split_and!; [by f_equal| | |].
    + intros q. specialize (Hmono q). specialize (Hrec q).
      case_decide; rewrite Hrec; simpl; lia.
    + intros q Hin Hq Hone. specialize (Hrec q). case_decide as Hqp.
      * subst q. rewrite Hrec in Hone. simpl in Hone.
        specialize (Hmono pid).
        destruct (records_of pid rest); [|simpl in *; lia].
        destruct (records_of pid (terminated_children w')); [done|simpl in *; lia].
      * apply elem_of_cons in Hin as [->|Hin]; [done|].
        apply Hgone; [done|done|]. by rewrite <- Hrec.
    + intros [|i] q Hi ? Hnot; simpl in *; [by simplify_eq; rewrite Hu|].
      rewrite (Hslot i q); [|done|done|set_solver].
      assert (q ≠ pid) as Hqp by set_solver.
      specialize (Hrec q). rewrite decide_False in Hrec by done.
      f_equal.
      destruct (unlink_result q rest) as [[e1 r1]|] eqn:H1;
        destruct (unlink_result q (terminated_children w)) as [[e2 r2]|] eqn:H2;
        simpl; try done.
      * pose proof (unlink_result_records q _ _ _ q H1) as R1.
        pose proof (unlink_result_records q _ _ _ q H2) as R2.
        rewrite decide_True in R1, R2 by done. congruence.
      * apply unlink_result_None in H2.
        pose proof (unlink_result_records q _ _ _ q H1) as R1.
        rewrite decide_True in R1 by done. congruence.
      * apply unlink_result_None in H1.
        pose proof (unlink_result_records q _ _ _ q H2) as R2.
        rewrite decide_True in R2 by done. congruence.
  - rewrite Hget. simpl.
    destruct (IH nleft w) as (Hlen & Hmono & Hgone & Hslot).
    destruct (drain_results pids nleft w) as [[slots n'] w'].
    simpl in *. split_and!; [by f_equal|done| |].
    + intros q [->|Hin]%elem_of_cons ? ?; [|by apply Hgone].
      apply unlink_result_None in Hu. specialize (Hmono pid). rewrite Hu in Hmono.
      destruct (records_of pid (terminated_children w')); [done|simpl in *; lia].
    + intros [|i] q Hi ? Hnot; simpl in *; [by simplify_eq; rewrite Hu|].
      apply Hslot; [done|done|set_solver].
Qed.

End Reap.

Section ReapClaims.
Context `{!Config}.

(** The batch wait always returns. *)
Lemma gnupg_wait_processes_returns pgmnames pids hang r_exitcodes w :
  is_Some (gnupg_wait_processes pgmnames pids hang r_exitcodes w).
Proof.
  unfold gnupg_wait_processes.
  destruct (if negb r_exitcodes then _ else _) as [[] w1]; cbn [negb]; [|done].
  destruct (drain_results pids _ w1) as [[slots nleft] w2].
  destruct (wait_loop_total (S (length (children w2))) pids hang nleft
              GPG_ERR_NO_ERROR slots w2) as [[[ec s] w3] ->]; [lia|].
  by destruct (classify_results _ _ _ _ _ _) as [[? ?] ?].
Qed.

(** C4: [gnupg_wait_process] on a child that the wait has reaped returns
    success for exit code 0 (the slot then holds 0), the configuration
    error for exit code 127, the general error for any other exit code,
    which goes into the caller's slot if there is one and into the log if
    not, and the general error with the slot left at -1 for a child that
    did not exit normally. *)
Theorem gnupg_wait_process_classifies (name : string) (pid : Z) (hang : bool)
    (r_exitcode : option Z) (w : world) (reaped status : Z) (w' : world) :
  pid ≠ -1 →
  wait_statement pid hang w = (Wait_reaped reaped status, w') →
  (WIFEXITED status = true → WEXITSTATUS status = 0 →
     gnupg_wait_process name pid hang r_exitcode w
     = (no_error, (λ _, 0) <$> r_exitcode, w'))
  ∧ (WIFEXITED status = true → WEXITSTATUS status = 127 →
     gnupg_wait_process name pid hang r_exitcode w
     = (mk_error GPG_ERR_SOURCE_DEFAULT GPG_ERR_CONFIGURATION,
        (λ _, -1) <$> r_exitcode, log_error (Log_not_installed name) w'))
  ∧ (WIFEXITED status = true → WEXITSTATUS status ≠ 0 → WEXITSTATUS status ≠ 127 →
     gnupg_wait_process name pid hang r_exitcode w
     = (mk_error GPG_ERR_SOURCE_DEFAULT GPG_ERR_GENERAL,
        (λ _, WEXITSTATUS status) <$> r_exitcode,
        match r_exitcode with
        | Some _ => w'
        | None => log_error (Log_exit_status name (WEXITSTATUS status)) w'
        end))
  ∧ (WIFEXITED status = false →
     gnupg_wait_process name pid hang r_exitcode w
     = (mk_error GPG_ERR_SOURCE_DEFAULT GPG_ERR_GENERAL,
        (λ _, -1) <$> r_exitcode, log_error (Log_terminated name) w')).
Proof.
  intros Hpid Hwait. unfold gnupg_wait_process.
  destruct (Z.eqb_spec pid (-1)); [done|]. rewrite Hwait.
  split_and!.
  - intros -> ->. simpl. by destruct r_exitcode.
  - intros -> ->. done.
  - intros -> H0 H127. simpl.
    destruct (Z.eqb_spec (WEXITSTATUS status) 127); [done|].
    destruct (Z.eqb_spec (WEXITSTATUS status) 0); [done|].
    by destruct r_exitcode.
  - intros ->. done.
Qed.









Lemma sys_alloc_children b n w : children (sys_alloc b n w).2 = children w.
Proof. unfold sys_alloc. simpl. by destruct (allocs w) as [|[] ?]. Qed.





End ReapClaims.

(** ** The properties at work on sample inputs *)

Lemma gnupg_wait_process_classifies_witness :
  gnupg_wait_process (H := glibc false) "gpg" 4711 true (Some 0) reaping_world
  = (mk_error 0 GPG_ERR_GENERAL, Some 37,
     set_children [] (emit (EvWaitpid 4711 true) reaping_world)).
Proof.
  refine (proj1 (proj2 (proj2
    (gnupg_wait_process_classifies (H := glibc false) "gpg" 4711 true (Some 0)
       reaping_world 4711 9472 _ _ _))) _ _ _).
  - lia.
  - reflexivity.
  - reflexivity.
  - vm_compute. discriminate.
  - vm_compute. discriminate.
Defined.





Lemma detached_spawn_is_terminated_witness :
  ∃ process w',
    gnupg_process_spawn (H := glibc false) "/usr/bin/gpg-agent" ["--daemon"] 2 true
      spawning_world
    = (Returns (no_error, Some process), w')
    ∧ terminated process = true
    ∧ fd_in process = -1 ∧ fd_out process = -1 ∧ fd_err process = -1
    ∧ pid process = -1.
Proof.
  eexists _, _. split; [reflexivity|].
  destruct (detached_spawn_is_terminated (H := glibc false)
              "/usr/bin/gpg-agent" ["--daemon"] 2 true spawning_world _ _ _
              eq_refl eq_refl eq_refl) as (H1 & H2 & H3 & H4 & H5 & _).
  split_and!; [exact H1 | exact H2 | exact H3 | exact H4 | exact H5].
Defined.

Lemma gnupg_process_get_fds_transfers_once_witness :
  (gnupg_process_get_fds busy_handle 0 true true false).1.2 = (Some 5, Some 6, None)
  ∧ (gnupg_process_get_fds (gnupg_process_get_fds busy_handle 0 true true false).2
       0 true true true).1.2 = (Some (-1), Some (-1), Some (-1)).
Proof.
  destruct (gnupg_process_get_fds_transfers_once busy_handle 0 0
              true true false true true true busy_world)
    as (_ & H1 & _ & _ & _ & _ & _ & _ & _).
  split; [exact H1 | reflexivity].
Defined.

(** * Further properties of the code *)

(** ** Descriptor census and bulk closer *)

Lemma StronglySorted_seqZ m n : StronglySorted Z.lt (seqZ m (Z.of_nat n)).
Proof.
  revert m. induction n as [|n IH]; intros m; [constructor|].
  rewrite seqZ_succ_nat. constructor; [apply IH|].
  apply Forall_forall. intros x Hx. apply elem_of_seqZ in Hx. lia.
Qed.

Lemma StronglySorted_filter_lt (P : Z → Prop) `{∀ x, Decision (P x)} (l : list Z) :
  StronglySorted Z.lt l → StronglySorted Z.lt (filter P l).
Proof.
  induction 1 as [|x l Hs IH Hall]; [constructor|].
  rewrite filter_cons. case_decide; [|done].
  constructor; [done|]. apply Forall_forall. intros y Hy.
  apply list_elem_of_filter in Hy as [_ Hy].
  rewrite Forall_forall in Hall. by apply Hall.
Qed.

Lemma sys_fstat_open_fds fd w : open_fds (sys_fstat fd w).2 = open_fds w.
Proof. unfold sys_fstat. by case_decide. Qed.

Lemma open_fds_loop_open_fds n : ∀ fd array narray w,
  open_fds (open_fds_loop n fd array narray w).2 = open_fds w.
Proof.
  induction n as [|n IH]; intros fd array narray w; [done|].
  cbn [open_fds_loop].
  pose proof (sys_fstat_open_fds fd w) as Hf.
  destruct (sys_fstat fd w) as [r w1]. simpl in Hf.
  destruct (_ && _); [by rewrite IH|].
  destruct (_ >=? _); [|by rewrite IH].
  pose proof (sys_alloc_open_fds Blk_fd_array (grow_narray narray) w1) as Ha.
  destruct (sys_alloc _ _ w1) as [[] w2]; simpl in *; [by rewrite IH, Ha|congruence].
Qed.

(** X1: as long as the allocator does not fail, [get_all_open_fds]
    returns the descriptors that are open below [get_max_fds], each once
    and in ascending order, followed by the end marker -1, and it leaves
    the set of open descriptors as it was. *)
Theorem get_all_open_fds_enumerates (w : world) :
  (∀ i, allocs w !! i ≠ Some false) →
  ∃ fds,
    (get_all_open_fds w).1 = Some (fds ++ [-1])
    ∧ StronglySorted Z.lt fds
    ∧ (∀ fd, fd ∈ fds ↔ fd ∈ open_fds w ∧ 0 ≤ fd < get_max_fds w)
    ∧ open_fds (get_all_open_fds w).2 = open_fds w.
Proof.
  intros Hallocs.
  destruct (get_all_open_fds_lists_open w Hallocs) as (m & Hr & _ & _).
  eexists. split_and!; [exact Hr| | |].
  - rewrite <- seqZ_to_nat. apply StronglySorted_filter_lt, StronglySorted_seqZ.
  - intros fd. rewrite list_elem_of_filter, elem_of_seqZ. intuition lia.
  - unfold get_all_open_fds.
    pose proof (sys_alloc_open_fds Blk_fd_array 32 w) as Ha.
    destruct (sys_alloc Blk_fd_array 32 w) as [[] w1]; simpl in *; [|done].
    by rewrite open_fds_loop_open_fds.
Qed.

Lemma get_all_open_fds_enumerates_witness :
  ∃ fds,
    (get_all_open_fds quiet_world).1 = Some (fds ++ [-1])
    ∧ StronglySorted Z.lt fds
    ∧ (∀ fd, fd ∈ fds ↔ fd ∈ open_fds quiet_world ∧ 0 ≤ fd < get_max_fds quiet_world)
    ∧ open_fds (get_all_open_fds quiet_world).2 = open_fds quiet_world.
Proof.
  apply (get_all_open_fds_enumerates quiet_world).
  intros i. simpl. by rewrite lookup_nil.
Defined.

(** Without any assumption on the order of the exception list the merge
    pass may miss entries, but it errs on the side of closing. *)
Lemma close_except_loop_any_order E n : ∀ fd start w,
  -1 ∉ E →
  (∀ x, x ∈ open_fds (close_except_loop n fd E start w) →
        x ∈ open_fds w ∧ (x ∈ E ∨ ¬ (fd ≤ x < fd + Z.of_nat n)))
  ∧ (∀ x, x ∈ open_fds w → ¬ (fd ≤ x < fd + Z.of_nat n) →
          x ∈ open_fds (close_except_loop n fd E start w)).
Proof.
  induction n as [|n IH]; intros fd start w Hno.
  { simpl. split; [|done]. intros x Hx. split; [done|]. right. lia. }
  cbn [close_except_loop].
  assert (Hno' : -1 ∉ drop start E).
  { intros Hin. apply Hno. rewrite <- (take_drop start E). set_solver. }
  pose proof (scan_except_spec fd (drop start E) start Hno') as Hscan.
  destruct (scan_except fd (drop start E) start) as [j [s|]].
  - destruct Hscan as (k & -> & -> & Hk). rewrite lookup_drop in Hk.
    assert (HfdE : fd ∈ E) by (by eapply list_elem_of_lookup_2).
    unfold except_at. rewrite Hk. simpl.
    destruct (Z.eqb_spec fd (-1)) as [->|_]; [done|].
    destruct (IH (fd + 1) (S (start + k)) w Hno) as [H1 H2]. split.
    + intros x Hx. destruct (H1 x Hx) as [Hopen [HE|Hout]]; [by auto|].
      split; [done|]. destruct (decide (x = fd)) as [->|]; [by left|right; lia].
    + intros x Hx Hout. apply H2; [done|lia].
  - destruct Hscan as [-> Hnot].
    unfold except_at. rewrite lookup_ge_None_2 by (rewrite length_drop; lia).
    simpl.
    destruct (IH (fd + 1) start (sys_close fd w).2 Hno) as [H1 H2].
    rewrite sys_close_open_fds in H1, H2. split.
    + intros x Hx. destruct (H1 x Hx) as [Hopen Hor].
      apply elem_of_difference in Hopen as [Hopen Hne].
      split; [done|]. destruct Hor as [HE|Hout]; [by left|].
      right. rewrite elem_of_singleton in Hne. lia.
    + intros x Hx Hout. apply H2; [|lia].
      apply elem_of_difference. split; [done|]. rewrite elem_of_singleton. lia.
Qed.

(** X2: whatever the order of the entries of the exception list,
    [close_all_fds] opens nothing, lets no descriptor of [first, max)
    survive that the list does not name, and leaves every descriptor
    outside [first, max) alone. *)
Theorem close_all_fds_any_order (first : Z) (E : list Z) (w : world) :
  -1 ∉ E →
  (∀ fd, fd ∈ open_fds (close_all_fds first (Some E) w) →
         fd ∈ open_fds w ∧ (fd ∈ E ∨ ¬ (first ≤ fd < get_max_fds w)))
  ∧ (∀ fd, fd ∈ open_fds w → ¬ (first ≤ fd < get_max_fds w) →
           fd ∈ open_fds (close_all_fds first (Some E) w)).
Proof.
  intros Hno. unfold close_all_fds. simpl.
  destruct (close_except_loop_any_order E (Z.to_nat (get_max_fds w - first)) first 0 w Hno)
    as [H1 H2].
  split.
  - intros fd Hfd. destruct (H1 fd Hfd) as [Hopen Hor]. split; [done|].
    destruct Hor as [HE|Hout]; [by left|right; lia].
  - intros fd Hfd Hout. apply H2; [done|lia].
Qed.

Lemma close_all_fds_any_order_witness :
  (∀ fd, fd ∈ open_fds (close_all_fds 3 (Some [7; 4]) quiet_world) →
         fd ∈ open_fds quiet_world ∧ (fd ∈ [7; 4] ∨ ¬ (3 ≤ fd < get_max_fds quiet_world)))
  ∧ (∀ fd, fd ∈ open_fds quiet_world → ¬ (3 ≤ fd < get_max_fds quiet_world) →
           fd ∈ open_fds (close_all_fds 3 (Some [7; 4]) quiet_world)).
Proof.
  apply (close_all_fds_any_order 3 [7; 4] quiet_world).
  intros Hin. repeat (apply elem_of_cons in Hin as [Hin|Hin]; [lia|]).
  by apply elem_of_nil in Hin.
Defined.

(** X3: when /proc/self/fd lists every open descriptor, the descriptors
    open after [close_all_fds first E], for an ascending exception list
    [E], are exactly those that were open and are below [first] or named
    in [E]. *)
Theorem close_all_fds_keeps_exactly (first : Z) (E : list Z) (w : world)
    (entries : list Z) :
  Sorted Z.le E → -1 ∉ E →
  proc_self_fd (census w) = Some entries →
  (∀ fd, fd ∈ open_fds w → fd ∈ entries ∧ 0 ≤ fd) →
  ∀ fd, fd ∈ open_fds (close_all_fds first (Some E) w)
        ↔ fd ∈ open_fds w ∧ (fd < first ∨ fd ∈ E).
Proof.
  intros Hs Hno Hproc Hlisted fd.
  destruct (close_all_fds_spec first E w Hs Hno) as (_ & Ho). rewrite Ho.
  split; intros [Hopen Hwhy]; (split; [done|]).
  - destruct Hwhy as [HE|Hout]; [by right|].
    destruct (Hlisted fd Hopen) as [Hin Hpos].
    destruct (get_max_fds_proc w entries Hproc) as [_ Hlt]; [by exists fd|].
    specialize (Hlt fd Hin). left. lia.
  - destruct Hwhy as [Hlt|HE]; [right; lia|by left].
Qed.

Lemma close_all_fds_keeps_exactly_witness :
  (7 ∈ open_fds (close_all_fds 3 (Some [4; 7]) quiet_world)
   ↔ 7 ∈ open_fds quiet_world ∧ (7 < 3 ∨ 7 ∈ [4; 7]))
  ∧ (5 ∈ open_fds (close_all_fds 3 (Some [4; 7]) quiet_world)
     ↔ 5 ∈ open_fds quiet_world ∧ (5 < 3 ∨ 5 ∈ [4; 7])).
Proof.
  split;
    apply (close_all_fds_keeps_exactly 3 [4; 7] quiet_world [0; 1; 2; 3; 4; 5; 7; 9]).
  all: first
    [ by repeat constructor
    | reflexivity
    | intros Hin; repeat (apply elem_of_cons in Hin as [Hin|Hin]; [lia|]);
      by apply elem_of_nil in Hin
    | intros fd Hfd; apply elem_of_list_to_set in Hfd; split; [exact Hfd|];
      repeat (apply elem_of_cons in Hfd as [Hfd|Hfd]; [lia|]);
      by apply elem_of_nil in Hfd ].
Defined.

(** X4: when /proc/self/fd can be read and lists a descriptor, the limit
    is one more than the highest entry, whatever the resource limits say,
    and so above every listed descriptor.  When it cannot be read, the
    limit is never -1 and never INT32_MAX; it is the hard limit of
    RLIMIT_NOFILE if that reads as neither of the two, and 256 if no
    source gives a value. *)
Theorem get_max_fds_sources (w : world) :
  (∀ entries,
     proc_self_fd (census w) = Some entries →
     (∃ x, x ∈ entries ∧ 0 ≤ x) →
     get_max_fds w = fold_left (λ m x, if x >? m then x else m) entries (-1) + 1
     ∧ ∀ x, x ∈ entries → x < get_max_fds w)
  ∧ (proc_self_fd (census w) = None →
     get_max_fds w ≠ -1 ∧ get_max_fds w ≠ INT32_MAX
     ∧ (∀ r, rlimit_nofile (census w) = Some r →
             to_int r ≠ -1 → to_int r ≠ INT32_MAX → get_max_fds w = to_int r)
     ∧ (rlimit_nofile (census w) = None → rlimit_ofile (census w) = None →
        sc_open_max (census w) < 0 →
        posix_open_max (census w) = None → open_max (census w) = None →
        get_max_fds w = 256)).
Proof.
  split; [intros entries; apply get_max_fds_proc|].
  intros Hproc. unfold get_max_fds. rewrite Hproc. simpl.
  split_and!.
  - repeat (case_match; simpl in * ); unfold INT32_MAX in *; lia.
  - repeat (case_match; simpl in * ); unfold INT32_MAX in *; lia.
  - intros r -> H1 H2.
    repeat (case_match; simpl in * ); unfold INT32_MAX in *; lia.
  - intros -> -> Hsc -> ->. simpl.
    repeat (case_match; simpl in * ); unfold INT32_MAX in *; lia.
Qed.

Lemma get_max_fds_sources_witness :
  get_max_fds quiet_world = 10
  ∧ get_max_fds (World [] ∅ 1024 (mk_census None (Some 18446744073709551615) None 1024 None None)
                   0 [] [] false (λ _, 0) 0 [] [] []) ≠ -1.
Proof.
  split.
  - destruct (proj1 (get_max_fds_sources quiet_world) [0; 1; 2; 3; 4; 5; 7; 9])
      as [Heq _]; [reflexivity| |exact Heq].
    exists 0. split; [apply list_elem_of_here|lia].
  - apply (proj2 (get_max_fds_sources _)). reflexivity.
Defined.

(** ** The cache of exit records *)

(** X5: a record that has been stored is what the next lookup of its pid
    returns, even if older records of that pid exist, and that lookup
    puts the cache back to what it was before the store; the stored record
    does not change what a lookup of another pid returns; and a lookup of
    a pid without a record returns nothing and changes nothing. *)
Theorem store_result_then_get_result (pid exitcode : Z) (w : world) :
  allocs w !! 0%nat ≠ Some false →
  (get_result pid (store_result pid exitcode w).2).1 = Some exitcode
  ∧ terminated_children (get_result pid (store_result pid exitcode w).2).2
    = terminated_children w
  ∧ (∀ q, q ≠ pid →
          (get_result q (store_result pid exitcode w).2).1 = (get_result q w).1)
  ∧ (∀ q, records_of q (terminated_children w) = [] → get_result q w = (None, w)).
Proof.
  intros Halloc.
  destruct (store_result_spec pid exitcode w) as (Hok & _).
  destruct (Hok Halloc) as [_ Hcache].
  split_and!.
  - unfold get_result. rewrite Hcache. simpl. by rewrite Z.eqb_refl.
  - unfold get_result. rewrite Hcache. simpl. by rewrite Z.eqb_refl.
  - intros q Hq. unfold get_result. rewrite Hcache. simpl.
    destruct (Z.eqb_spec pid q); [congruence|].
    by destruct (unlink_result q (terminated_children w)) as [[? ?]|].
  - intros q Hnone. pose proof (get_result_spec q w) as Hget.
    by rewrite (proj2 (unlink_result_None q _) Hnone) in Hget.
Qed.

Lemma store_result_then_get_result_witness :
  (get_result 5 (store_result 5 256 (world_with [] [(5, 0); (7, 0)] [])).2).1 = Some 256
  ∧ terminated_children
      (get_result 5 (store_result 5 256 (world_with [] [(5, 0); (7, 0)] [])).2).2
    = [(5, 0); (7, 0)].
Proof.
  destruct (store_result_then_get_result 5 256 (world_with [] [(5, 0); (7, 0)] []))
    as (H1 & H2 & _).
  - simpl. discriminate.
  - split; [exact H1 | exact H2].
Defined.

(** ** Waiting *)

Lemma sys_waitpid_errno pid hang w e :
  (sys_waitpid pid hang w).1 = Wait_error e → errno (sys_waitpid pid hang w).2 = e.
Proof.
  unfold sys_waitpid. simpl.
  destruct (take_first _ (children w)) as [[c rest]|]; [done|].
  destruct (take_first _ (children w)) as [[c rest]|]; [|by intros [= <-]].
  destruct hang; [|done]. destruct (interrupts w); [done|]. by intros [= <-].
Qed.

Lemma waitpid_restart_errno n : ∀ pid hang w e,
  (waitpid_restart n pid hang w).1 = Wait_error e →
  errno (waitpid_restart n pid hang w).2 = e.
Proof.
  induction n as [|n IH]; intros pid hang w e; simpl;
    pose proof (sys_waitpid_errno pid hang w) as He;
    destruct (sys_waitpid pid hang w) as [[e'| |p st] w1]; simpl in *; try done.
  - intros [= <-]. by apply He.
  - destruct (e' =? EINTR); [apply IH|]. intros [= <-]. by apply He.
Qed.

Lemma sys_waitpid_open_fds pid hang w : open_fds (sys_waitpid pid hang w).2 = open_fds w.
Proof. unfold sys_waitpid. simpl. repeat case_match; done. Qed.

Lemma waitpid_restart_open_fds n : ∀ pid hang w,
  open_fds (waitpid_restart n pid hang w).2 = open_fds w.
Proof.
  induction n as [|n IH]; intros pid hang w; simpl;
    pose proof (sys_waitpid_open_fds pid hang w) as Ho;
    destruct (sys_waitpid pid hang w) as [[e| |p st] w1]; simpl in *; try done.
  destruct (e =? EINTR); [|done]. by rewrite IH.
Qed.

(** X9: whatever happens, [gnupg_process_wait] changes nothing of the
    handle but the terminated flag and the wait status; a handle once
    terminated stays so; the call returns success exactly when the handle
    is terminated afterwards; on every error the handle is as before; an
    interrupted waitpid is restarted and never reported; and neither the
    open descriptors nor the cache of exit records are touched. *)
Theorem gnupg_process_wait_outcome (process : gnupg_process) (hang : bool) (w : world) :
  let r := gnupg_process_wait process hang w in
  (pgmname r.1.2, flags r.1.2, pid r.1.2, fd_in r.1.2, fd_out r.1.2, fd_err r.1.2)
  = (pgmname process, flags process, pid process, fd_in process, fd_out process,
     fd_err process)
  ∧ (terminated process = true → r.1.2 = process)
  ∧ (r.1.1 = GPG_ERR_NO_ERROR ↔ terminated r.1.2 = true)
  ∧ (r.1.1 ≠ GPG_ERR_NO_ERROR → r.1.2 = process)
  ∧ r.1.1 ≠ GPG_ERR_SYSTEM_ERROR EINTR
  ∧ open_fds r.2 = open_fds w
  ∧ terminated_children r.2 = terminated_children w.
Proof.
  intros r. subst r. unfold gnupg_process_wait.
  destruct (terminated process) eqn:Hterm; simpl.
  { split_and!; try done; by rewrite Hterm. }
  pose proof (waitpid_restart_frame (interrupts w) (pid process) hang w)
    as (Hcache & _).
  pose proof (waitpid_restart_settles (interrupts w) (pid process) hang w (le_n _))
    as Hsettle.
  pose proof (waitpid_restart_errno (interrupts w) (pid process) hang w) as Herrno.
  pose proof (waitpid_restart_open_fds (interrupts w) (pid process) hang w) as Hopen.
  destruct (waitpid_restart (interrupts w) (pid process) hang w) as [[e| |p st] w1];
    simpl in *.
  - specialize (Herrno e eq_refl). unfold gpg_err_code_from_syserror.
    rewrite Herrno. destruct (e =? 0) eqn:E0;
      split_and!; try done; try (rewrite Hterm; split; done); congruence.
  - split_and!; try done; rewrite Hterm; split; done.
  - split_and!; done.
Qed.

Lemma take_first_app_Some {A} (P : A → bool) l1 x l2 :
  P x = true → (∀ y, y ∈ l1 → P y = false) →
  take_first P (l1 ++ x :: l2) = Some (x, l1 ++ l2).
Proof.
  intros Hx. induction l1 as [|y l1 IH]; intros Hl1; simpl.
  - by rewrite Hx.
  - rewrite (Hl1 y) by set_solver. rewrite IH; [done|].
    intros z Hz. apply Hl1. set_solver.
Qed.

Lemma take_first_all_false {A} (P : A → bool) l :
  (∀ y, y ∈ l → P y = false) → take_first P l = None.
Proof.
  induction l as [|y l IH]; intros Hl; simpl; [done|].
  rewrite (Hl y) by set_solver. rewrite IH; [done|].
  intros z Hz. apply Hl. set_solver.
Qed.

Lemma wait_selects_other pid (c : Z * child) :
  0 < pid → c.1 ≠ pid → wait_selects pid c = false.
Proof. intros Hpos Hne. unfold wait_selects. lia. Qed.

(** A blocking wait for one child that has not ended is interrupted as
    often as signals are pending and then returns the child's status. *)
Lemma waitpid_restart_running n : ∀ w pid fate l1 l2,
  interrupts w = n → 0 < pid →
  children w = l1 ++ (pid, Running fate) :: l2 →
  pid ∉ l1.*1 → pid ∉ l2.*1 →
  ∃ w', waitpid_restart n pid true w = (Wait_reaped pid fate, w')
        ∧ children w' = l1 ++ l2
        ∧ trace w' = trace w ++ replicate (S n) (EvWaitpid pid true).
Proof.
  induction n as [|n IH]; intros w pid fate l1 l2 Hn Hpos Hch H1 H2.
  - simpl. unfold sys_waitpid. simpl. rewrite Hch.
    rewrite take_first_all_false.
    2:{ intros y [Hy|[->|Hy]%elem_of_cons]%elem_of_app.
        - rewrite wait_selects_other; [done|done|].
          intros Heq. apply H1. rewrite <- Heq. by apply list_elem_of_fmap_2.
        - by rewrite andb_false_r.
        - rewrite wait_selects_other; [done|done|].
          intros Heq. apply H2. rewrite <- Heq. by apply list_elem_of_fmap_2. }
    rewrite (take_first_app_Some _ l1 (pid, Running fate) l2).
    2:{ unfold wait_selects. simpl. lia. }
    2:{ intros y Hy. apply wait_selects_other; [done|].
        intros Heq. apply H1. rewrite <- Heq. by apply list_elem_of_fmap_2. }
    rewrite Hn. simpl. eexists. split_and!; done.
  - cbn [waitpid_restart]. unfold sys_waitpid at 1. simpl. rewrite Hch.
    rewrite take_first_all_false.
    2:{ intros y [Hy|[->|Hy]%elem_of_cons]%elem_of_app.
        - rewrite wait_selects_other; [done|done|].
          intros Heq. apply H1. rewrite <- Heq. by apply list_elem_of_fmap_2.
        - by rewrite andb_false_r.
        - rewrite wait_selects_other; [done|done|].
          intros Heq. apply H2. rewrite <- Heq. by apply list_elem_of_fmap_2. }
    rewrite (take_first_app_Some _ l1 (pid, Running fate) l2).
    2:{ unfold wait_selects. simpl. lia. }
    2:{ intros y Hy. apply wait_selects_other; [done|].
        intros Heq. apply H1. rewrite <- Heq. by apply list_elem_of_fmap_2. }
    rewrite Hn. simpl.
    edestruct (IH (set_errno EINTR (set_interrupts n (emit (EvWaitpid pid true) w)))
                 pid fate l1 l2) as (w' & Hr & Hc & Ht); [done|done|by simpl|done|done|].
    exists w'. rewrite Hr. split_and!; [done|done|].
    rewrite Ht. simpl. by rewrite <- app_assoc.
Qed.

Lemma sys_waitpid_ended w pid status l1 l2 hang :
  0 < pid →
  children w = l1 ++ (pid, Zombie status) :: l2 →
  pid ∉ l1.*1 →
  sys_waitpid pid hang w
  = (Wait_reaped pid status,
     set_children (l1 ++ l2) (emit (EvWaitpid pid hang) w)).
Proof.
  intros Hpos Hch H1. unfold sys_waitpid. simpl. rewrite Hch.
  rewrite (take_first_app_Some _ l1 (pid, Zombie status) l2); [done| |].
  - unfold wait_selects, has_ended. simpl. rewrite andb_true_r. lia.
  - intros y Hy. rewrite wait_selects_other; [done|done|].
    intros Heq. apply H1. rewrite <- Heq. by apply list_elem_of_fmap_2.
Qed.

(** What a blocking wait does on the handle of a child of the caller. *)
Lemma gnupg_process_wait_reaps (process : gnupg_process) (w : world)
    (l1 l2 : list (Z * child)) (c : child) :
  terminated process = false →
  0 < pid process →
  children w = l1 ++ (pid process, c) :: l2 →
  pid process ∉ l1.*1 → pid process ∉ l2.*1 →
  ∃ w',
    gnupg_process_wait process true w
    = (GPG_ERR_NO_ERROR,
       set_wstatus (final_status c) (set_terminated true process), w')
    ∧ children w' = l1 ++ l2
    ∧ trace w' = trace w
        ++ replicate (S (match c with Running _ => interrupts w | Zombie _ => 0%nat end))
             (EvWaitpid (pid process) true).
Proof.
  intros Hterm Hpos Hch H1 H2. unfold gnupg_process_wait. rewrite Hterm.
  destruct c as [fate|status].
  - destruct (waitpid_restart_running (interrupts w) w (pid process) fate l1 l2)
      as (w' & Hr & Hc & Ht); try done.
    exists w'. by rewrite Hr.
  - eexists. split_and!.
    + destruct (interrupts w); simpl;
        rewrite (sys_waitpid_ended w (pid process) status l1 l2); done.
    + done.
    + done.
Qed.

(** X8: a blocking [gnupg_process_wait] on the handle of a child of the
    caller, ended or still running, returns success, marks the handle
    terminated with the child's wait status, and takes the child and no
    other out of the kernel's table; it calls waitpid once, and once more
    for every signal that interrupts the wait for a running child. *)
Theorem gnupg_process_wait_blocking_reaps (process : gnupg_process) (w : world)
    (l1 l2 : list (Z * child)) (c : child) :
  terminated process = false →
  0 < pid process →
  children w = l1 ++ (pid process, c) :: l2 →
  pid process ∉ l1.*1 → pid process ∉ l2.*1 →
  ∃ w',
    gnupg_process_wait process true w
    = (GPG_ERR_NO_ERROR,
       set_wstatus (final_status c) (set_terminated true process), w')
    ∧ children w' = l1 ++ l2
    ∧ trace w' = trace w
        ++ replicate (S (match c with Running _ => interrupts w | Zombie _ => 0%nat end))
             (EvWaitpid (pid process) true).
Proof. apply gnupg_process_wait_reaps. Qed.

Lemma gnupg_process_wait_blocking_reaps_witness :
  ∃ w',
    gnupg_process_wait busy_handle true interrupted_world
    = (GPG_ERR_NO_ERROR, set_wstatus 256 (set_terminated true busy_handle), w')
    ∧ children w' = [(4700, Zombie 0); (4720, Running 0)]
    ∧ trace w' = replicate 3 (EvWaitpid 4711 true).
Proof.
  apply (gnupg_process_wait_blocking_reaps busy_handle interrupted_world
           [(4700, Zombie 0)] [(4720, Running 0)] (Running 256)).
  - reflexivity.
  - simpl. lia.
  - reflexivity.
  - simpl. intros Hin. apply list_elem_of_singleton in Hin. lia.
  - simpl. intros Hin. apply list_elem_of_singleton in Hin. lia.
Defined.

Section MoreWaiting.
Context `{!Config}.

Lemma classify_results_code dummy pgmnames r_exitcodes : ∀ i ec w,
  (classify_results dummy pgmnames i r_exitcodes ec w).1.1 = ec
  ∨ (classify_results dummy pgmnames i r_exitcodes ec w).1.1 = GPG_ERR_GENERAL
  ∨ (classify_results dummy pgmnames i r_exitcodes ec w).1.1 = GPG_ERR_CONFIGURATION.
Proof.
  induction r_exitcodes as [|status rest IH]; intros i ec w; [by left|].
  cbn [classify_results].
  set (step := if status =? -1 then _ else _).
  assert (Hstep : step.1.2 = ec ∨ step.1.2 = GPG_ERR_GENERAL
                  ∨ step.1.2 = GPG_ERR_CONFIGURATION).
  { subst step. repeat (case_match; simpl); auto. }
  clearbody step. destruct step as [[slot ec1] w1]. simpl in Hstep.
  specialize (IH (S i) ec1 w1).
  destruct (classify_results dummy pgmnames (S i) rest ec1 w1) as [[ec2 rest'] w2].
  simpl in *. destruct IH as [->|IH]; [done|]. by right.
Qed.

Lemma wait_statement_restarted pid hang w :
  USE_NPTH = false →
  (wait_statement pid hang w).1 ≠ Wait_error EINTR
  ∧ ∀ e, (wait_statement pid hang w).1 = Wait_error e →
         errno (wait_statement pid hang w).2 = e.
Proof.
  intros Hnpth. unfold wait_statement. rewrite Hnpth. split.
  - by apply waitpid_restart_settles.
  - apply waitpid_restart_errno.
Qed.

Lemma wait_loop_not_interrupted fuel : ∀ pids hang nleft ec r_exitcodes w res,
  USE_NPTH = false →
  ec ≠ GPG_ERR_SYSTEM_ERROR EINTR →
  wait_loop fuel pids hang nleft ec r_exitcodes w = Some res →
  res.1.1 ≠ GPG_ERR_SYSTEM_ERROR EINTR.
Proof.
  induction fuel as [|fuel IH]; intros pids hang nleft ec r w res Hnpth Hec; simpl.
  { destruct (nleft <=? 0); [|done]. by intros [= <-]. }
  destruct (nleft <=? 0); [by intros [= <-]|].
  destruct (wait_statement_restarted (-1) hang w Hnpth) as [Hne Herrno].
  destruct (wait_statement (-1) hang w) as [[e| |p st] w1]; simpl in *.
  - intros [= <-]. simpl. rewrite (Herrno e eq_refl).
    unfold gpg_err_code_from_errno. destruct (e =? 0); congruence.
  - by intros [= <-].
  - destruct (find_pid p pids) as [i|].
    + destruct (negb _); [by intros [= <-]|]. by apply IH.
    + pose proof (store_result_spec p st w1) as (Hok & Hfail & _).
      destruct (allocs w1 !! 0%nat) as [[]|] eqn:Ha.
      2:{ destruct (Hfail eq_refl) as [He _].
          destruct (store_result p st w1) as [ec1 w2]. simpl in *. subst ec1.
          by intros [= <-]. }
      all: destruct Hok as [He _]; [done|];
        destruct (store_result p st w1) as [ec1 w2]; simpl in *; subst ec1;
        by apply IH.
Qed.

(** X7: in the build without nPth, where waitpid is restarted on EINTR,
    neither [gnupg_wait_process] nor [gnupg_wait_processes] ever reports
    an interrupted system call. *)
Theorem waits_restart_on_eintr :
  USE_NPTH = false →
  (∀ name pid hang r_exitcode w,
     err_code (gnupg_wait_process name pid hang r_exitcode w).1.1
     ≠ GPG_ERR_SYSTEM_ERROR EINTR)
  ∧ (∀ pgmnames pids hang r_exitcodes w e out w',
       gnupg_wait_processes pgmnames pids hang r_exitcodes w = Some (e, out, w') →
       err_code e ≠ GPG_ERR_SYSTEM_ERROR EINTR).
Proof.
  intros Hnpth. split.
  - intros name pid hang r w. unfold gnupg_wait_process.
    destruct (pid =? -1); [done|].
    destruct (wait_statement_restarted pid hang w Hnpth) as [Hne Herrno].
    destruct (wait_statement pid hang w) as [[e| |p st] w1]; simpl in *.
    + rewrite (Herrno e eq_refl). unfold gpg_err_code_from_errno.
      destruct (e =? 0); simpl; congruence.
    + done.
    + repeat (case_match; simpl); simplify_eq; done.
  - intros pgmnames pids hang r_exitcodes w e out w' Hcall.
    unfold gnupg_wait_processes in Hcall.
    set (a := if negb r_exitcodes then _ else _) in Hcall.
    assert (Ha : a.1 = false → errno a.2 = ENOMEM).
    { subst a. destruct (negb r_exitcodes); [|done].
      apply sys_alloc_spec. }
    destruct a as [[] w1]; cbn [fst snd] in Ha; cbn [negb] in Hcall.
    2:{ simplify_eq. simpl. unfold gpg_err_code_from_syserror. by rewrite Ha. }
    destruct (drain_results pids _ w1) as [[slots nleft] w2].
    destruct (wait_loop _ pids hang nleft GPG_ERR_NO_ERROR slots w2)
      as [[[ec s] w3]|] eqn:Hloop; [|done].
    apply wait_loop_not_interrupted in Hloop; [|done|done]. cbn [fst snd] in Hloop.
    pose proof (classify_results_code (negb r_exitcodes) pgmnames s 0%nat ec w3) as Hc.
    destruct (classify_results _ _ _ s ec w3) as [[ec' s'] w4]. cbn [fst snd] in *.
    assert (He : err_code e = err_code (gpg_err_make GPG_ERR_SOURCE_DEFAULT ec'))
      by (by simplify_eq).
    rewrite He. destruct Hc as [->|[->| ->]]; [|done|done].
    by destruct ec.
Qed.

End MoreWaiting.

Lemma waits_restart_on_eintr_witness :
  err_code (gnupg_wait_process (H := glibc false) "gpg" 4711 true None
              interrupted_world).1.1
  ≠ GPG_ERR_SYSTEM_ERROR EINTR.
Proof.
  apply (proj1 (waits_restart_on_eintr (H := glibc false) eq_refl)).
Defined.

(** ** Spawning *)

Lemma lowest_free_spec (s : gset Z) : (lowest_free s ∉ s) ∧ 0 ≤ lowest_free s.
Proof.
  unfold lowest_free.
  set (n := Z.of_nat (size s)).
  destruct (head (filter (λ fd, fd ∉ s) (seqZ 0 (n + 1)))) as [x|] eqn:Hhead; simpl.
  - apply head_Some_elem_of in Hhead.
    apply list_elem_of_filter in Hhead as [Hx Hin]. apply elem_of_seqZ in Hin.
    split; [done|lia].
  - exfalso. apply head_None in Hhead.
    assert (Hsub : list_to_set (seqZ 0 (n + 1)) ⊆ s).
    { intros x Hx. apply elem_of_list_to_set in Hx.
      destruct (decide (x ∈ s)) as [|Hnot]; [done|].
      assert (x ∈ filter (λ fd, fd ∉ s) (seqZ 0 (n + 1))) as Hf
        by (by apply list_elem_of_filter).
      rewrite Hhead in Hf. by apply elem_of_nil in Hf. }
    apply subseteq_size in Hsub.
    rewrite size_list_to_set in Hsub by apply NoDup_seqZ.
    rewrite length_seqZ in Hsub. lia.
Qed.

(** A new descriptor is one that was not open; nothing else changes in
    the descriptor set, and the children are left alone. *)
Lemma sys_new_fd_spec w :
  children (sys_new_fd w).2 = children w
  ∧ match (sys_new_fd w).1 with
    | Some fd => 0 ≤ fd ∧ (fd ∉ open_fds w)
                 ∧ open_fds (sys_new_fd w).2 = ({[fd]} ∪ open_fds w)
    | None => open_fds (sys_new_fd w).2 = open_fds w
    end.
Proof.
  unfold sys_new_fd. destruct (lowest_free_spec (open_fds w)) as [Hnot Hpos].
  destruct (_ <? _); simpl; done.
Qed.

Lemma sys_pipe_spec w :
  children (sys_pipe w).2 = children w
  ∧ match (sys_pipe w).1 with
    | Some (a, b) => 0 ≤ a ∧ 0 ≤ b ∧ a ≠ b ∧ (a ∉ open_fds w) ∧ (b ∉ open_fds w)
                     ∧ open_fds (sys_pipe w).2 = ({[a; b]} ∪ open_fds w)
    | None => open_fds (sys_pipe w).2 = open_fds w
    end.
Proof.
  unfold sys_pipe. pose proof (sys_new_fd_spec w) as [Hc1 H1].
  destruct (sys_new_fd w) as [[a|] w1]; simpl in *; [|done].
  destruct H1 as (Ha & Hna & Ho1).
  pose proof (sys_new_fd_spec w1) as [Hc2 H2].
  destruct (sys_new_fd w1) as [[b|] w2]; simpl in *; [|done].
  destruct H2 as (Hb & Hnb & Ho2). rewrite Ho1 in Hnb.
  split; [congruence|]. split_and!; try done.
  - set_solver.
  - set_solver.
  - rewrite Ho2, Ho1. set_solver.
Qed.

Lemma sys_dup_spec fd w :
  children (sys_dup fd w).2 = children w
  ∧ (((sys_dup fd w).1 = -1 ∧ open_fds (sys_dup fd w).2 = open_fds w)
     ∨ (0 ≤ (sys_dup fd w).1 ∧ ((sys_dup fd w).1 ∉ open_fds w)
        ∧ open_fds (sys_dup fd w).2 = ({[(sys_dup fd w).1]} ∪ open_fds w))).
Proof.
  unfold sys_dup. case_decide; [|by split; [|left]].
  pose proof (sys_new_fd_spec w) as [Hc H1].
  destruct (sys_new_fd w) as [[a|] w1]; simpl in *; [|by split; [|left]].
  split; [done|]. by right.
Qed.

Lemma gpg_err_code_from_syserror_failed w src :
  failed (gpg_err_make src (gpg_err_code_from_syserror w)) = true
  ∧ failed (code_only (gpg_err_code_from_syserror w)) = true.
Proof. unfold gpg_err_code_from_syserror. by destruct (_ =? 0). Qed.

Lemma close_if_spec c fd w :
  children (close_if c fd w) = children w
  ∧ open_fds (close_if c fd w) = (if c then open_fds w ∖ {[fd]} else open_fds w).
Proof.
  unfold close_if. destruct c; [|done].
  split; [|apply sys_close_open_fds]. unfold sys_close. by case_decide.
Qed.


(** ** Spawning *)

Section Spawning.
Context `{!Config}.

(** A pipe is made of two descriptors that were not open, or not at all. *)
Lemma do_create_pipe_spec w :
  ∃ ec a b w',
    do_create_pipe w = (ec, (a, b), w')
    ∧ children w' = children w
    ∧ ((failed ec = true ∧ a = -1 ∧ b = -1 ∧ open_fds w' = open_fds w)
       ∨ (failed ec = false ∧ 0 ≤ a ∧ 0 ≤ b ∧ a ≠ b
          ∧ (a ∉ open_fds w) ∧ (b ∉ open_fds w)
          ∧ open_fds w' = ({[a; b]} ∪ open_fds w))).
Proof.
  unfold do_create_pipe. pose proof (sys_pipe_spec w) as [Hc Hp].
  destruct (sys_pipe w) as [[[a b]|] w1]; simpl in *.
  - exists no_error, a, b, w1. split_and!; [done|done|]. right. naive_solver.
  - eexists _, _, _, _. split_and!; [done|done|]. left.
    split_and!; try done. apply (proj1 (gpg_err_code_from_syserror_failed _ _)).
Qed.

Lemma do_create_socketpair_spec w :
  ∃ ec a b w',
    do_create_socketpair w = (ec, (a, b), w')
    ∧ children w' = children w
    ∧ ((failed ec = true ∧ a = -1 ∧ b = -1 ∧ open_fds w' = open_fds w)
       ∨ (failed ec = false ∧ 0 ≤ a ∧ 0 ≤ b ∧ a ≠ b
          ∧ (a ∉ open_fds w) ∧ (b ∉ open_fds w)
          ∧ open_fds w' = ({[a; b]} ∪ open_fds w))).
Proof.
  unfold do_create_socketpair, sys_socketpair.
  pose proof (sys_pipe_spec w) as [Hc Hp].
  destruct (sys_pipe w) as [[[a b]|] w1]; simpl in *.
  - exists no_error, a, b, w1. split_and!; [done|done|]. right. naive_solver.
  - eexists _, _, _, _. split_and!; [done|done|]. left.
    split_and!; try done. apply (proj2 (gpg_err_code_from_syserror_failed _ 0)).
Qed.

(** With 0, 1 and 2 open, a new descriptor is at least 3. *)
Lemma fresh_ge_3 (S : gset Z) a :
  0 ∈ S → 1 ∈ S → 2 ∈ S → 0 ≤ a → a ∉ S → 3 ≤ a.
Proof.
  intros H0 H1 H2 Ha Hn.
  destruct (decide (a = 0)) as [->|]; [done|].
  destruct (decide (a = 1)) as [->|]; [done|].
  destruct (decide (a = 2)) as [->|]; [done|]. lia.
Qed.

(** Decides the tests of a filter over a list of known descriptors. *)
Ltac filter3 :=
  repeat (rewrite filter_cons;
          first [rewrite decide_True by lia | rewrite decide_False by lia]);
  rewrite ?filter_nil.

Lemma close_if_children c fd w : children (close_if c fd w) = children w.
Proof. apply close_if_spec. Qed.

Lemma close_if_true c fd w :
  c = true → open_fds (close_if c fd w) = open_fds w ∖ {[fd]}.
Proof. intros ->. apply (close_if_spec true). Qed.

Lemma close_if_false c fd w :
  c = false → open_fds (close_if c fd w) = open_fds w.
Proof. by intros ->. Qed.

(** Settles every conditional close whose condition arithmetic decides. *)
Ltac close_ifs :=
  repeat first [ rewrite close_if_true by lia | rewrite close_if_false by lia ].

(** One step of the set-up: the next pipe, the next dup, the error test. *)
Ltac pipe_step :=
  match goal with
  | |- context [do_create_pipe ?w] =>
      let ec := fresh "ec" in let a := fresh "p" in let b := fresh "q" in
      let w1 := fresh "w" in let Heq := fresh "Heq" in let Hc := fresh "Hc" in
      let Hf := fresh "Hf" in let Ho := fresh "Ho" in
      destruct (do_create_pipe_spec w)
        as (ec & a & b & w1 & Heq & Hc
            & [(Hf & -> & -> & Ho)|(Hf & ? & ? & ? & ? & ? & Ho)]);
      rewrite Heq; cbn [fst snd negb]; rewrite Hf; cbn [fst snd negb]
  end.

Ltac dup_step :=
  match goal with
  | |- context [sys_dup ?fd ?w] =>
      let d := fresh "d" in let w1 := fresh "w" in let Hd := fresh "Hd" in
      let Hs := fresh "Hs" in let Hc := fresh "Hc" in let Ho := fresh "Ho" in
      pose proof (sys_dup_spec fd w) as Hs;
      destruct (sys_dup fd w) as [d w1] eqn:Hd; cbn [fst snd] in Hs;
      destruct Hs as [Hc [[-> Ho]|(? & ? & Ho)]]; cbn [fst snd negb]
  end.

Ltac norm_failed :=
  repeat match goal with
         | Hx : failed _ = _ |- _ => rewrite Hx; cbn [fst snd negb]
         end.

(** One standard stream: a pipe with flag [P], /dev/null with flag [N],
    or the inherited descriptor. *)
Ltac stage P N :=
  lazymatch goal with
  | |- context [if has_flag ?f P then _ else _] =>
      destruct (has_flag f P) eqn:?; cbn [fst snd negb];
      [ pipe_step | destruct (has_flag f N) eqn:?; cbn [fst snd negb] ];
      norm_failed
  | |- _ => idtac
  end.

(** A descriptor that was not open in [w0] is at least 3. *)
Ltac ge3 w0 :=
  repeat match goal with
  | Hp : 0 ≤ ?a |- _ =>
      assert (3 ≤ a) by (apply (fresh_ge_3 (open_fds w0)); [done|done|done|done|set_solver]);
      clear Hp
  end.

(** States the descriptor sets of all later worlds by that of the first. *)
Ltac fds_in_terms_of_start :=
  repeat match goal with
         | Ho : open_fds ?x = _ |- _ => (try rewrite Ho in * ); clear Ho
         end;
  repeat match goal with
         | Hx : _ = (_, _) |- _ => clear Hx
         | Hx : children _ = _ |- _ => clear Hx
         | Hx : has_flag _ _ = _ |- _ => clear Hx
         | Hx : failed _ = _ |- _ => clear Hx
         end.

(** The two kinds of leaves of the set-up: an error with everything
    closed again, or success. *)
Ltac stdio_fail :=
  eexists _, _, _, _, _, _, _, _; split; [reflexivity|];
  split; [rewrite ?close_if_children; congruence|];
  left; split; [done|]; close_ifs; fds_in_terms_of_start; set_solver.

Ltac flag_facts :=
  intros; first [ lia | congruence
                | split; intros; first [done | lia | congruence]
                | split; split; intros; first [done | lia | congruence] ].

Ltac stdio_leaf w0 :=
  ge3 w0;
  first
    [ stdio_fail
    | eexists _, _, _, _, _, _, _, _; split; [reflexivity|];
      split; [congruence|];
      right; split; [done|]; filter3;
      split_and!;
      [ fds_in_terms_of_start; set_solver
      | fds_in_terms_of_start; repeat constructor; set_solver
      | fds_in_terms_of_start; intros v Hv Hge;
        repeat (apply elem_of_cons in Hv as [->|Hv]); first [lia | set_solver]
      | flag_facts .. ] ].

(** The set-up of the standard streams either fails and leaves the
    descriptors as they were, or opens new descriptors, all different and
    at least 3, beside the inherited 0, 1 and 2. *)
Lemma setup_stdio_spec flags w :
  0 ∈ open_fds w → 1 ∈ open_fds w → 2 ∈ open_fds w →
  ∃ ec a1 a2 b1 b2 c1 c2 w',
    setup_stdio flags w = (ec, ((a1, a2), (b1, b2), (c1, c2)), w')
    ∧ children w' = children w
    ∧ ((failed ec = true ∧ open_fds w' = open_fds w)
       ∨ (failed ec = false
          ∧ open_fds w'
            = (list_to_set (filter (λ v, 3 ≤ v) [a1; a2; b1; b2; c1; c2]) ∪ open_fds w)
          ∧ NoDup (filter (λ v, 3 ≤ v) [a1; a2; b1; b2; c1; c2])
          ∧ (∀ v, v ∈ [a1; a2; b1; b2; c1; c2] → 3 ≤ v → v ∉ open_fds w)
          ∧ (a1 = -1 ∨ a1 = 0 ∨ 3 ≤ a1) ∧ (a2 = -1 ∨ 3 ≤ a2)
          ∧ (b1 = -1 ∨ 3 ≤ b1) ∧ (b2 = -1 ∨ b2 = 1 ∨ 3 ≤ b2)
          ∧ (c1 = -1 ∨ 3 ≤ c1) ∧ (c2 = -1 ∨ c2 = 2 ∨ 3 ≤ c2)
          ∧ (has_flag flags GNUPG_PROCESS_STDINOUT_SOCKETPAIR = true → 3 ≤ a2)
          ∧ (has_flag flags GNUPG_PROCESS_STDINOUT_SOCKETPAIR = false →
             (3 ≤ a2 ↔ has_flag flags GNUPG_PROCESS_STDIN_PIPE = true)
             ∧ (3 ≤ b1 ↔ has_flag flags GNUPG_PROCESS_STDOUT_PIPE = true))
          ∧ (3 ≤ c1 ↔ has_flag flags GNUPG_PROCESS_STDERR_PIPE = true))).
Proof.
  intros H0 H1 H2. unfold setup_stdio.
  assert (Hnf : failed no_error = false) by done.
  destruct (has_flag flags GNUPG_PROCESS_STDINOUT_SOCKETPAIR) eqn:Fsp.
  - destruct (do_create_socketpair_spec w)
      as (ec & a & b & w1 & Heq & Hc
          & [(Hf & -> & -> & Ho)|(Hf & ? & ? & ? & ? & ? & Ho)]);
      rewrite Heq; cbn [fst snd negb]; norm_failed.
    + stdio_fail.
    + dup_step; dup_step; norm_failed;
        stage GNUPG_PROCESS_STDERR_PIPE GNUPG_PROCESS_STDERR_NULL.
      all: stdio_leaf w.
  - stage GNUPG_PROCESS_STDIN_PIPE GNUPG_PROCESS_STDIN_NULL;
      stage GNUPG_PROCESS_STDOUT_PIPE GNUPG_PROCESS_STDOUT_NULL;
      stage GNUPG_PROCESS_STDERR_PIPE GNUPG_PROCESS_STDERR_NULL.
    all: stdio_leaf w.
Qed.

Ltac use_fresh :=
  repeat match goal with
         | Hx : 3 ≤ ?x → _, Hy : 3 ≤ ?x |- _ => specialize (Hx Hy)
         | Hx : 3 ≤ _ → _ |- _ => clear Hx
         end.

(** The six conditional closes after a failed fork undo the set-up. *)
Lemma stdio_rollback (O : gset Z) a1 a2 b1 b2 c1 c2 w :
  (a1 = -1 ∨ a1 = 0 ∨ 3 ≤ a1) → (a2 = -1 ∨ 3 ≤ a2) →
  (b1 = -1 ∨ 3 ≤ b1) → (b2 = -1 ∨ b2 = 1 ∨ 3 ≤ b2) →
  (c1 = -1 ∨ 3 ≤ c1) → (c2 = -1 ∨ c2 = 2 ∨ 3 ≤ c2) →
  (∀ v, v ∈ [a1; a2; b1; b2; c1; c2] → 3 ≤ v → v ∉ O) →
  open_fds w = (list_to_set (filter (λ v, 3 ≤ v) [a1; a2; b1; b2; c1; c2]) ∪ O) →
  open_fds
    (close_if ((0 <=? c2) && negb (c2 =? 2)) c2
       (close_if (0 <=? c1) c1
          (close_if ((0 <=? b2) && negb (b2 =? 1)) b2
             (close_if (0 <=? b1) b1
                (close_if (0 <=? a2) a2
                   (close_if ((0 <=? a1) && negb (a1 =? 0)) a1 w)))))) = O.
Proof.
  intros Ha1 Ha2 Hb1 Hb2 Hc1 Hc2 Hfresh Ho.
  (assert (F1 := Hfresh a1 ltac:(repeat constructor))).
  assert (F2 := Hfresh a2 ltac:(repeat constructor)).
  assert (F3 := Hfresh b1 ltac:(repeat constructor)).
  assert (F4 := Hfresh b2 ltac:(repeat constructor)).
  assert (F5 := Hfresh c1 ltac:(repeat constructor)).
  (assert (F6 := Hfresh c2 ltac:(repeat constructor))).
  clear Hfresh.
  assert (A1 : (3 ≤ a1 ∧ (0 <=? a1) && negb (a1 =? 0) = true)
               ∨ (¬ 3 ≤ a1 ∧ (0 <=? a1) && negb (a1 =? 0) = false)) by lia.
  assert (A2 : (3 ≤ a2 ∧ (0 <=? a2) = true) ∨ (¬ 3 ≤ a2 ∧ (0 <=? a2) = false)) by lia.
  assert (B1 : (3 ≤ b1 ∧ (0 <=? b1) = true) ∨ (¬ 3 ≤ b1 ∧ (0 <=? b1) = false)) by lia.
  assert (B2 : (3 ≤ b2 ∧ (0 <=? b2) && negb (b2 =? 1) = true)
               ∨ (¬ 3 ≤ b2 ∧ (0 <=? b2) && negb (b2 =? 1) = false)) by lia.
  assert (C1 : (3 ≤ c1 ∧ (0 <=? c1) = true) ∨ (¬ 3 ≤ c1 ∧ (0 <=? c1) = false)) by lia.
  assert (C2 : (3 ≤ c2 ∧ (0 <=? c2) && negb (c2 =? 2) = true)
               ∨ (¬ 3 ≤ c2 ∧ (0 <=? c2) && negb (c2 =? 2) = false)) by lia.
  clear Ha1 Ha2 Hb1 Hb2 Hc1 Hc2.
  (destruct A1 as [[? ->]|[? ->]], A2 as [[? ->]|[? ->]], B1 as [[? ->]|[? ->]],
    B2 as [[? ->]|[? ->]], C1 as [[? ->]|[? ->]], C2 as [[? ->]|[? ->]];
    unfold close_if; rewrite ?sys_close_open_fds; rewrite Ho; clear Ho;
    repeat (rewrite filter_cons; first [rewrite decide_True by done | rewrite decide_False by done]);
    rewrite filter_nil; use_fresh; set_solver).
Qed.

(** After the fork the parent closes the child's ends and keeps its own. *)
Lemma stdio_parent_ends (O : gset Z) a1 a2 b1 b2 c1 c2 w :
  (a1 = -1 ∨ a1 = 0 ∨ 3 ≤ a1) → (a2 = -1 ∨ 3 ≤ a2) →
  (b1 = -1 ∨ 3 ≤ b1) → (b2 = -1 ∨ b2 = 1 ∨ 3 ≤ b2) →
  (c1 = -1 ∨ 3 ≤ c1) → (c2 = -1 ∨ c2 = 2 ∨ 3 ≤ c2) →
  (∀ v, v ∈ [a1; a2; b1; b2; c1; c2] → 3 ≤ v → v ∉ O) →
  NoDup (filter (λ v, 3 ≤ v) [a1; a2; b1; b2; c1; c2]) →
  open_fds w = (list_to_set (filter (λ v, 3 ≤ v) [a1; a2; b1; b2; c1; c2]) ∪ O) →
  open_fds
    (close_if ((0 <=? c2) && negb (c2 =? 2)) c2
       (close_if ((0 <=? b2) && negb (b2 =? 1)) b2
          (close_if ((0 <=? a1) && negb (a1 =? 0)) a1 w)))
  = (list_to_set (filter (λ fd, 0 ≤ fd) [a2; b1; c1]) ∪ O)
  ∧ list_to_set (filter (λ fd, 0 ≤ fd) [a2; b1; c1]) ## O
  ∧ NoDup (filter (λ fd, 0 ≤ fd) [a2; b1; c1]).
Proof.
  intros Ha1 Ha2 Hb1 Hb2 Hc1 Hc2 Hfresh Hnd Ho.
  (assert (F1 := Hfresh a1 ltac:(repeat constructor))).
  assert (F2 := Hfresh a2 ltac:(repeat constructor)).
  assert (F3 := Hfresh b1 ltac:(repeat constructor)).
  assert (F4 := Hfresh b2 ltac:(repeat constructor)).
  assert (F5 := Hfresh c1 ltac:(repeat constructor)).
  (assert (F6 := Hfresh c2 ltac:(repeat constructor))).
  clear Hfresh.
  assert (A1 : (3 ≤ a1 ∧ (0 <=? a1) && negb (a1 =? 0) = true)
               ∨ (¬ 3 ≤ a1 ∧ (0 <=? a1) && negb (a1 =? 0) = false)) by lia.
  assert (A2 : (3 ≤ a2 ∧ 0 ≤ a2) ∨ (¬ 3 ≤ a2 ∧ ¬ 0 ≤ a2)) by lia.
  assert (B1 : (3 ≤ b1 ∧ 0 ≤ b1) ∨ (¬ 3 ≤ b1 ∧ ¬ 0 ≤ b1)) by lia.
  assert (B2 : (3 ≤ b2 ∧ (0 <=? b2) && negb (b2 =? 1) = true)
               ∨ (¬ 3 ≤ b2 ∧ (0 <=? b2) && negb (b2 =? 1) = false)) by lia.
  assert (C1 : (3 ≤ c1 ∧ 0 ≤ c1) ∨ (¬ 3 ≤ c1 ∧ ¬ 0 ≤ c1)) by lia.
  assert (C2 : (3 ≤ c2 ∧ (0 <=? c2) && negb (c2 =? 2) = true)
               ∨ (¬ 3 ≤ c2 ∧ (0 <=? c2) && negb (c2 =? 2) = false)) by lia.
  clear Ha1 Ha2 Hb1 Hb2 Hc1 Hc2.
  (destruct A1 as [[? ->]|[? ->]], A2 as [[? ?]|[? ?]], B1 as [[? ?]|[? ?]],
    B2 as [[? ->]|[? ->]], C1 as [[? ?]|[? ?]], C2 as [[? ->]|[? ->]];
    unfold close_if; rewrite ?sys_close_open_fds; rewrite Ho; clear Ho;
    revert Hnd;
    repeat (rewrite filter_cons; first [rewrite decide_True by done | rewrite decide_False by done]);
    rewrite ?filter_nil; intros Hnd; use_fresh;
    rewrite ?NoDup_cons in Hnd;
    (split_and!; [set_solver | set_solver | repeat constructor; set_solver])).
Qed.

Lemma sys_fork_spec w :
  open_fds (sys_fork w).2 = open_fds w
  ∧ (((sys_fork w).1 = -1 ∧ children (sys_fork w).2 = children w)
     ∨ (0 < (sys_fork w).1
        ∧ ∃ c, children (sys_fork w).2 = children w ++ [((sys_fork w).1, c)])).
Proof.
  unfold sys_fork. simpl. destruct (forks w) as [|[[pid c]|] rest]; simpl.
  - split; [done|by left].
  - destruct (0 <? pid) eqn:Hp; simpl; (split; [done|]); [right|by left].
    split; [lia|by exists c].
  - split; [done|by left].
Qed.


(** The two outcomes of a spawn that is not detached. *)
Lemma gnupg_process_spawn_parent_spec pgmname argv1 flags w :
  has_flag flags GNUPG_PROCESS_DETACHED = false →
  0 ∈ open_fds w → 1 ∈ open_fds w → 2 ∈ open_fds w →
  ∃ ec r w',
    gnupg_process_spawn pgmname argv1 flags true w = (Returns (ec, r), w')
    ∧ match r with
      | None =>
          failed ec = true ∧ open_fds w' = open_fds w ∧ children w' = children w
      | Some p =>
          failed ec = false
          ∧ terminated p = false ∧ wstatus p = -1 ∧ 0 < pid p
          ∧ (∃ c, children w' = children w ++ [(pid p, c)])
          ∧ open_fds w' = (owned_fds p ∪ open_fds w)
          ∧ owned_fds p ## open_fds w
          ∧ NoDup (filter (λ fd, 0 ≤ fd) [fd_in p; fd_out p; fd_err p])
          ∧ (has_flag flags GNUPG_PROCESS_STDINOUT_SOCKETPAIR = true → 0 ≤ fd_in p)
          ∧ (has_flag flags GNUPG_PROCESS_STDINOUT_SOCKETPAIR = false →
             (0 ≤ fd_in p ↔ has_flag flags GNUPG_PROCESS_STDIN_PIPE = true)
             ∧ (0 ≤ fd_out p ↔ has_flag flags GNUPG_PROCESS_STDOUT_PIPE = true))
          ∧ (0 ≤ fd_err p ↔ has_flag flags GNUPG_PROCESS_STDERR_PIPE = true)
      end.
Proof.
  intros Hdet H0 H1 H2. unfold gnupg_process_spawn.
  pose proof (sys_alloc_open_fds Blk_argv (Z.of_nat (length argv1) + 2) w) as Ho1.
  pose proof (sys_alloc_children Blk_argv (Z.of_nat (length argv1) + 2) w) as Hc1.
  destruct (sys_alloc Blk_argv _ w) as [[] w1]; simpl in Ho1, Hc1; cycle 1.
  { eexists _, _, _. split; [reflexivity|]. split_and!; [|done..].
    apply (proj2 (gpg_err_code_from_syserror_failed _ 0)). }
  pose proof (sys_alloc_open_fds Blk_process 1 w1) as Ho2.
  pose proof (sys_alloc_children Blk_process 1 w1) as Hc2.
  destruct (sys_alloc Blk_process 1 w1) as [[] w2]; simpl in Ho2, Hc2; cycle 1.
  { eexists _, _, _. split; [reflexivity|]. split_and!; [|simpl; congruence..].
    apply (proj2 (gpg_err_code_from_syserror_failed _ 0)). }
  rewrite Hdet.
  destruct (setup_stdio_spec flags w2)
    as (ec & a1 & a2 & b1 & b2 & c1 & c2 & w3 & -> & Hc3 & Hs);
    [congruence..|].
  destruct Hs as [[Hf Ho3]|(Hf & Ho3 & Hnd & Hfresh & Ha1 & Ha2 & Hb1 & Hb2 & Hc1' & Hc2'
                            & Fsp & Fnsp & Ferr)];
    rewrite Hf; cbn [negb fst snd].
  { eexists _, _, _. split; [reflexivity|]. simpl. split_and!; congruence. }
  pose proof (sys_fork_spec w3) as [Ho4 Hfork].
  destruct (sys_fork w3) as [cpid w4]; cbn [fst snd] in *.
  destruct Hfork as [[-> Hc4]|[Hpid [c Hc4]]].
  - rewrite Z.eqb_refl. eexists _, _, _. split; [reflexivity|].
    split_and!.
    + apply (proj2 (gpg_err_code_from_syserror_failed _ 0)).
    + cbn [sys_free emit open_fds].
      rewrite <- Ho1, <- Ho2.
      apply stdio_rollback; try done.
      cbn [log_error open_fds]. by rewrite Ho4.
    + cbn [sys_free emit children]. rewrite !close_if_children.
      cbn [log_error children]. congruence.
  - destruct (cpid =? -1) eqn:E; [lia|]. clear E.
    destruct (stdio_parent_ends (open_fds w2) a1 a2 b1 b2 c1 c2
                (sys_free Blk_argv w4)) as (P1 & P2 & P3); try done.
    { cbn [sys_free emit open_fds]. by rewrite Ho4. }
    eexists _, _, _. split; [reflexivity|]. unfold owned_fds.
    cbn [terminated wstatus pid fd_in fd_out fd_err set_terminated set_wstatus
         set_pid set_fd_in set_fd_out set_fd_err fst snd].
    rewrite <- Ho1, <- Ho2.
    split_and!; try done.
    + exists c. rewrite !close_if_children. cbn [sys_free emit children]. congruence.
    + intros Hx. specialize (Fsp Hx). lia.
    + intros Hx. destruct (Fnsp Hx) as [<- <-]. lia.
    + rewrite <- Ferr. lia.
Qed.

(** X11: when a spawn that is not detached, called with a place for the
    handle (r_process is not NULL), returns no handle, in a process
    whose descriptors 0, 1 and 2 are open, it reports an error, and
    whether an allocation, a pipe, the socket pair or the fork failed,
    every descriptor it had opened is closed again and no child has been
    added. *)
Theorem gnupg_process_spawn_failure_restores (pgmname : string)
    (argv1 : list string) (flags : Z) (w w' : world) (ec : gpg_error_t) :
  has_flag flags GNUPG_PROCESS_DETACHED = false →
  0 ∈ open_fds w → 1 ∈ open_fds w → 2 ∈ open_fds w →
  gnupg_process_spawn pgmname argv1 flags true w = (Returns (ec, None), w') →
  failed ec = true ∧ open_fds w' = open_fds w ∧ children w' = children w.
Proof.
  intros Hdet H0 H1 H2 Hspawn.
  destruct (gnupg_process_spawn_parent_spec pgmname argv1 flags w Hdet H0 H1 H2)
    as (ec' & r & w'' & Heq & Hr).
  rewrite Heq in Hspawn. by simplify_eq.
Qed.

(** X12: when a spawn that is not detached hands back a handle, in a
    process whose descriptors 0, 1 and 2 are open, the handle is live
    (not terminated, status -1, the pid of the child just added to the
    table), its descriptor slots hold distinct descriptors that were not
    open before, these are exactly what the spawn leaves open beyond the
    descriptors of before, and a slot holds a descriptor exactly when
    its pipe was asked for (the input slot always with a socket pair). *)
Theorem gnupg_process_spawn_handle_owns (pgmname : string)
    (argv1 : list string) (flags : Z) (w w' : world) (ec : gpg_error_t)
    (process : gnupg_process) :
  has_flag flags GNUPG_PROCESS_DETACHED = false →
  0 ∈ open_fds w → 1 ∈ open_fds w → 2 ∈ open_fds w →
  gnupg_process_spawn pgmname argv1 flags true w
    = (Returns (ec, Some process), w') →
  failed ec = false
  ∧ terminated process = false ∧ wstatus process = -1 ∧ 0 < pid process
  ∧ (∃ c, children w' = children w ++ [(pid process, c)])
  ∧ open_fds w' = (owned_fds process ∪ open_fds w)
  ∧ owned_fds process ## open_fds w
  ∧ NoDup (filter (λ fd, 0 ≤ fd) [fd_in process; fd_out process; fd_err process])
  ∧ (has_flag flags GNUPG_PROCESS_STDINOUT_SOCKETPAIR = true → 0 ≤ fd_in process)
  ∧ (has_flag flags GNUPG_PROCESS_STDINOUT_SOCKETPAIR = false →
     (0 ≤ fd_in process ↔ has_flag flags GNUPG_PROCESS_STDIN_PIPE = true)
     ∧ (0 ≤ fd_out process ↔ has_flag flags GNUPG_PROCESS_STDOUT_PIPE = true))
  ∧ (0 ≤ fd_err process ↔ has_flag flags GNUPG_PROCESS_STDERR_PIPE = true).
Proof.
  intros Hdet H0 H1 H2 Hspawn.
  destruct (gnupg_process_spawn_parent_spec pgmname argv1 flags w Hdet H0 H1 H2)
    as (ec' & r & w'' & Heq & Hr).
  rewrite Heq in Hspawn. by simplify_eq.
Qed.

Lemma sys_alloc_setuid b n w :
  setuid (sys_alloc b n w).2 = setuid w
  ∧ ∀ name, access_x (sys_alloc b n w).2 name = access_x w name.
Proof. unfold sys_alloc. simpl. by destruct (allocs w) as [|[] ?]. Qed.

(** X14: a detached spawn that is refused, because a flag for the
    standard descriptors is set, the process runs setuid or the program
    is not executable, reports an error without forking and without
    touching children or descriptors; when it still passes a handle
    back, the block of that handle has already been freed. *)
Theorem detached_spawn_refused (pgmname : string) (argv1 : list string)
    (flags : Z) (w : world) :
  has_flag flags GNUPG_PROCESS_DETACHED = true →
  has_flag flags GNUPG_PROCESS_STDFDS_SETTING = true
  ∨ setuid w = true ∨ access_x w pgmname ≠ 0 →
  ∃ ec r w' t,
    gnupg_process_spawn pgmname argv1 flags true w = (Returns (ec, r), w')
    ∧ failed ec = true
    ∧ children w' = children w ∧ open_fds w' = open_fds w
    ∧ trace w' = trace w ++ t
    ∧ (EvFork ∉ t)
    ∧ (is_Some r → has_flag flags GNUPG_PROCESS_STDFDS_SETTING = false
                  ∧ EvFree Blk_process ∈ t).
Proof.
  intros Hdet Hwhy. unfold gnupg_process_spawn.
  pose proof (sys_alloc_spec Blk_argv (Z.of_nat (length argv1) + 2) w) as (Ht1 & _).
  pose proof (sys_alloc_open_fds Blk_argv (Z.of_nat (length argv1) + 2) w) as Ho1.
  pose proof (sys_alloc_children Blk_argv (Z.of_nat (length argv1) + 2) w) as Hc1.
  pose proof (sys_alloc_setuid Blk_argv (Z.of_nat (length argv1) + 2) w) as [Hs1 Ha1].
  destruct (sys_alloc Blk_argv _ w) as [[] w1]; cbn [fst snd] in *; cycle 1.
  { eexists _, _, _, _. split; [reflexivity|].
    split_and!; [apply (proj2 (gpg_err_code_from_syserror_failed _ 0))|done..| |].
    - set_solver.
    - by intros [? ?]. }
  pose proof (sys_alloc_spec Blk_process 1 w1) as (Ht2 & _).
  pose proof (sys_alloc_open_fds Blk_process 1 w1) as Ho2.
  pose proof (sys_alloc_children Blk_process 1 w1) as Hc2.
  pose proof (sys_alloc_setuid Blk_process 1 w1) as [Hs2 Ha2].
  destruct (sys_alloc Blk_process 1 w1) as [[] w2]; cbn [fst snd] in *; cycle 1.
  { eexists _, _, _, _. split; [reflexivity|]. simpl.
    split_and!; [apply (proj2 (gpg_err_code_from_syserror_failed _ 0))|congruence..| | |].
    - rewrite Ht2, Ht1, <- !app_assoc. done.
    - set_solver.
    - by intros [? ?]. }
  rewrite Hdet.
  destruct (has_flag flags GNUPG_PROCESS_STDFDS_SETTING) eqn:Hstd.
  { eexists _, _, _, _. split; [reflexivity|]. simpl.
    split_and!; [done|congruence..| | |].
    - rewrite Ht2, Ht1, <- !app_assoc. done.
    - set_solver.
    - by intros [? ?]. }
  destruct Hwhy as [?|Hwhy]; [done|].
  unfold spawn_detached. rewrite Hs2, Hs1, Ha2, Ha1.
  destruct (setuid w) eqn:Hsu.
  { eexists _, _, _, _. split; [reflexivity|]. simpl.
    split_and!; [done|congruence..| | |].
    - rewrite Ht2, Ht1, <- !app_assoc. done.
    - set_solver.
    - intros _. split; [done|set_solver]. }
  destruct Hwhy as [?|Hwhy]; [done|].
  destruct (access_x w pgmname =? 0) eqn:Hacc; [lia|]. cbn [negb].
  eexists _, _, _, _. split; [reflexivity|]. simpl.
  split_and!; [|congruence..| | |].
  - unfold failed, gpg_err_code_from_syserror. simpl. by rewrite Hacc.
  - rewrite Ht2, Ht1, <- !app_assoc. done.
  - set_solver.
  - intros _. split; [done|set_solver].
Qed.

End Spawning.

Lemma gnupg_process_spawn_failure_restores_witness :
  ∃ ec w',
    gnupg_process_spawn (H := glibc false) "/usr/bin/gpgsm" ["--server"] 1792 true
      tight_world
    = (Returns (ec, None), w')
    ∧ failed ec = true ∧ open_fds w' = open_fds tight_world.
Proof.
  eexists _, _. split; [vm_compute; reflexivity|].
  edestruct (gnupg_process_spawn_failure_restores (H := glibc false)
               "/usr/bin/gpgsm" ["--server"] 1792 tight_world) as (H1 & H2 & _);
    [reflexivity | by vm_compute | by vm_compute | by vm_compute
    | vm_compute; reflexivity | split; [exact H1 | exact H2]].
Defined.

Lemma gnupg_process_spawn_handle_owns_witness :
  ∃ process w',
    gnupg_process_spawn (H := glibc false) "/usr/bin/gpgsm" ["--server"] 768 true
      parent_world
    = (Returns (no_error, Some process), w')
    ∧ pid process = 4712
    ∧ open_fds w' = (owned_fds process ∪ open_fds parent_world)
    ∧ owned_fds process = {[4; 6]}.
Proof.
  eexists _, _. split; [vm_compute; reflexivity|].
  edestruct (gnupg_process_spawn_handle_owns (H := glibc false)
               "/usr/bin/gpgsm" ["--server"] 768 parent_world)
    as (_ & _ & _ & _ & _ & H1 & _);
    [reflexivity | by vm_compute | by vm_compute | by vm_compute
    | vm_compute; reflexivity | split_and!; [reflexivity | exact H1 | by vm_compute]].
Defined.

Lemma detached_spawn_refused_witness :
  ∃ ec r w' t,
    gnupg_process_spawn (H := glibc false) "/usr/bin/gpg-agent" ["--daemon"] 258 true
      spawning_world
    = (Returns (ec, r), w')
    ∧ failed ec = true
    ∧ trace w' = trace spawning_world ++ t
    ∧ (EvFork ∉ t).
Proof.
  destruct (detached_spawn_refused (H := glibc false)
              "/usr/bin/gpg-agent" ["--daemon"] 258 spawning_world)
    as (ec & r & w' & t & H1 & H2 & _ & _ & H3 & H4 & _);
    [reflexivity | left; reflexivity |].
  exists ec, r, w', t. split_and!; [exact H1 | exact H2 | exact H3 | exact H4].
Defined.

(** ** Waiting for a list of handles *)

(** A wait leaves the handle terminated and reports success, or leaves
    it as it was and reports an error. *)
Lemma gnupg_process_wait_cases process hang w :
  let r := gnupg_process_wait process hang w in
  (r.1.1 = GPG_ERR_NO_ERROR ∧ terminated r.1.2 = true)
  ∨ (failed (code_only r.1.1) = true ∧ r.1.2 = process).
Proof.
  intros r. subst r. unfold gnupg_process_wait.
  destruct (terminated process) eqn:Hterm; simpl; [by left|].
  destruct (waitpid_restart (interrupts w) (pid process) hang w) as [[e| |p st] w1];
    simpl.
  - right. split; [|done]. apply gpg_err_code_from_syserror_failed. exact 0.
  - by right.
  - by left.
Qed.

Lemma gnupg_process_wait_list_spec l : ∀ heap hang w ec heap' w',
  gnupg_process_wait_list heap l hang w = (Returns (ec, heap'), w') →
  length heap' = length heap
  ∧ (∀ j p, heap !! j = Some p → terminated p = true → heap' !! j = Some p)
  ∧ (∀ j, j ∉ l → heap' !! j = heap !! j)
  ∧ (ec = GPG_ERR_NO_ERROR →
     ∀ i, i ∈ l → ∃ p, heap' !! i = Some p ∧ terminated p = true)
  ∧ (ec ≠ GPG_ERR_NO_ERROR →
     ∃ l1 i l2 p, l = l1 ++ i :: l2
       ∧ (∀ j, j ∈ l1 → ∃ q, heap' !! j = Some q ∧ terminated q = true)
       ∧ heap' !! i = Some p ∧ terminated p = false
       ∧ ∀ l3, gnupg_process_wait_list heap (l1 ++ i :: l3) hang w
               = (Returns (ec, heap'), w')).
Proof.
  induction l as [|i l IH]; intros heap hang w ec heap' w' Hrun; simpl in Hrun.
  { simplify_eq. split_and!; try done. intros _ i Hi. by apply elem_of_nil in Hi. }
  destruct (heap !! i) as [process|] eqn:Hi; [|done].
  destruct (terminated process) eqn:Hterm.
  - destruct (IH _ _ _ _ _ _ Hrun) as (Hlen & Hkeep & Hout & Hok & Herr).
    split_and!; [done|done| | |].
    + intros j Hj. apply Hout. set_solver.
    + intros Hec k [->|Hk]%elem_of_cons; [|by apply Hok].
      exists process. split; [by apply Hkeep|done].
    + intros Hec. destruct (Herr Hec) as (l1 & k & l2 & p & -> & Hl1 & Hk & Hp & Hrest).
      exists (i :: l1), k, l2, p. split_and!; [done| |done|done|].
      * intros j [->|Hj]%elem_of_cons; [|by apply Hl1].
        exists process. split; [by apply Hkeep|done].
      * intros l3. simpl. rewrite Hi, Hterm. apply Hrest.
  - pose proof (gnupg_process_wait_cases process hang w) as Hcases.
    destruct (gnupg_process_wait process hang w) as [[ec1 process1] w1] eqn:Hw.
    simpl in Hcases.
    assert (Hi' : <[i := process1]> heap !! i = Some process1).
    { apply list_lookup_insert_eq. by apply lookup_lt_Some in Hi. }
    destruct Hcases as [[-> Hterm1]|[Hfail ->]].
    + simpl in Hrun.
      destruct (IH _ _ _ _ _ _ Hrun) as (Hlen & Hkeep & Hout & Hok & Herr).
      rewrite length_insert in Hlen.
      assert (Hkeep' : ∀ j p, heap !! j = Some p → terminated p = true →
                              heap' !! j = Some p).
      { intros j p Hj Hp. apply Hkeep; [|done].
        destruct (decide (j = i)) as [->|Hne]; [congruence|].
        by rewrite list_lookup_insert_ne. }
      split_and!; [done|done| | |].
      * intros j Hj. rewrite Hout by set_solver.
        apply list_lookup_insert_ne. set_solver.
      * intros Hec k [->|Hk]%elem_of_cons; [|by apply Hok].
        exists process1. split; [by apply Hkeep|done].
      * intros Hec. destruct (Herr Hec) as (l1 & k & l2 & p & -> & Hl1 & Hk & Hp & Hrest).
        exists (i :: l1), k, l2, p. split_and!; [done| |done|done|].
        -- intros j [->|Hj]%elem_of_cons; [|by apply Hl1].
           exists process1. split; [by apply Hkeep|done].
        -- intros l3. simpl. rewrite Hi, Hterm, Hw. simpl. apply Hrest.
    + rewrite Hfail in Hrun. simplify_eq.
      rewrite list_insert_id by done.
      split_and!; [done|done|done| |].
      * intros ->. done.
      * intros Hec. exists [], i, l, process. split_and!; [done| |done|done|].
        -- intros j Hj. by apply elem_of_nil in Hj.
        -- intros l3. simpl. rewrite Hi, Hterm, Hw, Hfail.
           by rewrite list_insert_id.
Qed.

Lemma gnupg_process_wait_list_skips l : ∀ heap hang w,
  (∀ i, i ∈ l → ∃ p, heap !! i = Some p ∧ terminated p = true) →
  gnupg_process_wait_list heap l hang w = (Returns (GPG_ERR_NO_ERROR, heap), w).
Proof.
  induction l as [|i l IH]; intros heap hang w Hall; simpl; [done|].
  destruct (Hall i) as (p & -> & ->); [set_solver|].
  apply IH. intros j Hj. apply Hall. set_solver.
Qed.

(** X10: when [gnupg_process_wait_list] returns success, every handle
    that the list names is marked terminated, the handles that were
    terminated before or that the list does not name are as before, and
    running it again on the result, blocking or not, makes no system
    call and returns success. *)
Theorem gnupg_process_wait_list_success (heap heap' : list gnupg_process)
    (process_list : list nat) (hang : bool) (w w' : world) :
  gnupg_process_wait_list heap process_list hang w
    = (Returns (GPG_ERR_NO_ERROR, heap'), w') →
  length heap' = length heap
  ∧ (∀ i, i ∈ process_list → ∃ p, heap' !! i = Some p ∧ terminated p = true)
  ∧ (∀ j p, heap !! j = Some p → terminated p = true → heap' !! j = Some p)
  ∧ (∀ j, j ∉ process_list → heap' !! j = heap !! j)
  ∧ (∀ hang' w'', gnupg_process_wait_list heap' process_list hang' w''
                  = (Returns (GPG_ERR_NO_ERROR, heap'), w'')).
Proof.
  intros Hrun.
  destruct (gnupg_process_wait_list_spec _ _ _ _ _ _ _ Hrun)
    as (Hlen & Hkeep & Hout & Hok & _).
  specialize (Hok eq_refl). split_and!; try done.
  intros hang' w''. by apply gnupg_process_wait_list_skips.
Qed.


Lemma gnupg_process_wait_list_success_witness :
  ∃ heap' w',
    gnupg_process_wait_list [busy_handle; done_handle] [0; 1; 0]%nat true busy_world
    = (Returns (GPG_ERR_NO_ERROR, heap'), w')
    ∧ (∀ i, i ∈ [0; 1; 0]%nat → ∃ p, heap' !! i = Some p ∧ terminated p = true)
    ∧ trace w' = [EvWaitpid 4711 true].
Proof.
  eexists _, _. split; [reflexivity|].
  edestruct gnupg_process_wait_list_success
    with (heap := [busy_handle; done_handle]) (process_list := [0; 1; 0]%nat)
         (hang := true) (w := busy_world) as (_ & H1 & _);
    [reflexivity|]. split; [exact H1|reflexivity].
Defined.


(** ** The handle of a detached spawn *)

Section DetachedHandle.
Context `{!Config}.

Lemma sys_waitpid_trace pid hang w :
  trace (sys_waitpid pid hang w).2 = trace w ++ [EvWaitpid pid hang].
Proof. unfold sys_waitpid. simpl. by repeat (case_match; simpl). Qed.

Lemma sys_fork_trace w : trace (sys_fork w).2 = trace w ++ [EvFork].
Proof. unfold sys_fork. simpl. by repeat (case_match; simpl). Qed.

(** A successful detached spawn: the handle it hands back and the
    system calls it has made. *)
Lemma detached_spawn_success (name : string) (argv1 : list string)
    (flags : Z) (w w' : world) (ec : gpg_error_t) (process : gnupg_process) :
  has_flag flags GNUPG_PROCESS_DETACHED = true →
  gnupg_process_spawn name argv1 flags true w = (Returns (ec, Some process), w') →
  failed ec = false →
  terminated process = true ∧ pid process = -1 ∧ wstatus process = -1
  ∧ ∃ child,
      trace w' = trace w ++ [EvAlloc Blk_argv (Z.of_nat (length argv1) + 2);
                             EvAlloc Blk_process 1; EvFork; EvWaitpid child true].
Proof.
  intros Hdet Hspawn Hok. unfold gnupg_process_spawn in Hspawn.
  pose proof (sys_alloc_spec Blk_argv (Z.of_nat (length argv1) + 2) w) as (Ht1 & _).
  destruct (sys_alloc Blk_argv _ w) as [[] w1]; [|naive_solver].
  pose proof (sys_alloc_spec Blk_process 1 w1) as (Ht2 & _).
  destruct (sys_alloc Blk_process 1 w1) as [[] w2]; [|naive_solver].
  rewrite Hdet in Hspawn.
  destruct (has_flag flags GNUPG_PROCESS_STDFDS_SETTING); [naive_solver|].
  unfold spawn_detached in Hspawn.
  destruct (setuid w2); [naive_solver|].
  destruct (negb (access_x w2 name =? 0)).
  { simplify_eq. unfold failed, gpg_err_code_from_syserror in Hok. simpl in Hok.
    by destruct (_ =? 0). }
  pose proof (sys_fork_trace w2) as Ht3.
  destruct (sys_fork w2) as [child w3].
  destruct (child =? -1).
  { simplify_eq. unfold failed, gpg_err_code_from_syserror in Hok. simpl in Hok.
    by destruct (_ =? 0). }
  pose proof (sys_waitpid_trace child true w3) as Ht4.
  simpl in Ht1, Ht2, Ht3, Ht4.
  assert (Htrace : trace (sys_waitpid child true w3).2
                   = trace w ++ [EvAlloc Blk_argv (Z.of_nat (length argv1) + 2);
                                 EvAlloc Blk_process 1; EvFork; EvWaitpid child true]).
  { rewrite Ht4, Ht3, Ht2, Ht1, <- !app_assoc. done. }
  destruct (sys_waitpid child true w3) as [[e| |c st] w4]; simplify_eq.
  - unfold failed, gpg_err_code_from_syserror in Hok. simpl in Hok.
    by destruct (_ =? 0).
  - split_and!; [done..|by exists child].
  - split_and!; [done..|by exists child].
Qed.

(** X13: the handle that a successful detached spawn hands back is marked
    terminated with -1 as its pid, so that releasing it calls kill with pid -1 and SIGTERM before the
    block is freed; and the spawn itself has forked once, waited once and
    not freed the argument vector it allocated. *)
Theorem detached_handle_release_signals (name : string) (argv1 : list string)
    (flags : Z) (w w' : world) (ec : gpg_error_t) (process : gnupg_process) :
  has_flag flags GNUPG_PROCESS_DETACHED = true →
  gnupg_process_spawn name argv1 flags true w = (Returns (ec, Some process), w') →
  failed ec = false →
  trace (gnupg_process_release (Some process) w')
    = trace w' ++ [EvKill (-1) SIGTERM; EvFree Blk_process]
  ∧ ∃ child,
      trace w' = trace w ++ [EvAlloc Blk_argv (Z.of_nat (length argv1) + 2);
                             EvAlloc Blk_process 1; EvFork; EvWaitpid child true].
Proof.
  intros Hdet Hspawn Hok.
  destruct (detached_spawn_success _ _ _ _ _ _ _ Hdet Hspawn Hok)
    as (Hterm & Hpid & _ & Htrace).
  split; [|done]. rewrite <- Hpid. by apply gnupg_process_release_terminated.
Qed.

End DetachedHandle.

Lemma detached_handle_release_signals_witness :
  ∃ process w',
    gnupg_process_spawn (H := glibc false) "/usr/bin/gpg-agent" ["--daemon"] 2 true
      spawning_world
    = (Returns (no_error, Some process), w')
    ∧ trace (gnupg_process_release (Some process) w')
      = trace w' ++ [EvKill (-1) SIGTERM; EvFree Blk_process].
Proof.
  eexists _, _. split; [reflexivity|].
  edestruct (detached_handle_release_signals (H := glibc false)
               "/usr/bin/gpg-agent" ["--daemon"] 2 spawning_world)
    as (H1 & _); [reflexivity|reflexivity|reflexivity|exact H1].
Defined.

(** ** The child's side of a spawn *)

Lemma posix_open_null_spec for_write w fd w' :
  posix_open_null for_write w = inl (fd, w') →
  0 ≤ fd < fd_limit w ∧ open_fds w' = ({[fd]} ∪ open_fds w)
  ∧ census w' = census w ∧ fd_limit w' = fd_limit w.
Proof.
  unfold posix_open_null, sys_open_null, sys_new_fd.
  destruct (lowest_free_spec (open_fds w)) as [_ Hpos].
  destruct (_ <? _) eqn:Hlt; simpl.
  - destruct (_ =? -1) eqn:E; [done|]. intros [= <- <-]. simpl.
    split_and!; try done; lia.
  - done.
Qed.


Lemma assign_null_spec fds0 w fds1 w1 :
  assign_null [0; 1; 2] fds0 w = inl (fds1, w1) →
  census w1 = census w ∧ fd_limit w1 = fd_limit w
  ∧ open_fds w ⊆ open_fds w1
  ∧ (fds_below_limit w → fds_below_limit w1)
  ∧ (∀ i, 0 ≤ i ≤ 2 →
       (get_fd fds1 i = get_fd fds0 i ∧ get_fd fds0 i ≠ -1)
       ∨ (get_fd fds0 i = -1 ∧ get_fd fds1 i ∈ open_fds w1)).
Proof.
  destruct fds0 as [[a b] c]. unfold fds_below_limit. simpl.
  unfold get_fd, set_fd; simpl.
  intros Hrun.
  repeat match type of Hrun with
         | context [posix_open_null ?i ?w] =>
             let E := fresh "E" in
             destruct (posix_open_null i w) as [[? ?]|?] eqn:E; [|by repeat case_match];
             apply posix_open_null_spec in E as (? & ? & ? & ?)
         | context [if ?x =? -1 then _ else _] =>
             destruct (Z.eqb_spec x (-1)); simpl in Hrun
         end.
  all: simplify_eq.
  all: split_and!; [congruence | congruence | set_solver | |].
  all: try (intros Hb fd Hfd;
            repeat match goal with
                   | Ho : open_fds ?x = _ |- _ =>
                       rewrite Ho in Hfd; clear Ho;
                       apply elem_of_union in Hfd as [?%elem_of_singleton|Hfd];
                       [lia|]
                   end;
            specialize (Hb fd Hfd); lia).
  all: intros i Hi; assert (i = 0 ∨ i = 1 ∨ i = 2) as [-> | [-> | ->]] by lia; simpl;
       first [ by left | right; split; [done|set_solver] ].
Qed.




Lemma lowest_free_le (s : gset Z) : lowest_free s ≤ Z.of_nat (size s).
Proof.
  unfold lowest_free.
  destruct (head _) as [x|] eqn:Hhead; simpl; [|lia].
  apply head_Some_elem_of, list_elem_of_filter in Hhead as [_ Hin].
  apply elem_of_seqZ in Hin. lia.
Qed.

Lemma posix_open_null_ok for_write w :
  Z.of_nat (size (open_fds w)) < fd_limit w →
  ∃ fd w', posix_open_null for_write w = inl (fd, w')
           ∧ fd_limit w' = fd_limit w
           ∧ size (open_fds w') = S (size (open_fds w)).
Proof.
  intros Hsize. unfold posix_open_null, sys_open_null, sys_new_fd.
  pose proof (lowest_free_le (open_fds w)) as Hle.
  destruct (lowest_free_spec (open_fds w)) as [Hnot Hpos].
  destruct (_ <? _) eqn:Hlt; [|lia]. simpl.
  destruct (_ =? -1) eqn:E; [lia|].
  eexists _, _. split_and!; [done|done|]. simpl.
  rewrite size_union by set_solver. by rewrite size_singleton.
Qed.

Lemma assign_null_ok todo : ∀ fds0 w,
  Z.of_nat (size (open_fds w)) + Z.of_nat (length todo) ≤ fd_limit w →
  ∃ fds1 w1, assign_null todo fds0 w = inl (fds1, w1).
Proof.
  induction todo as [|i todo IH]; intros fds0 w Hsize; simpl in *; [by eexists _, _|].
  destruct (_ =? -1).
  - destruct (posix_open_null_ok i w) as (fd & w' & -> & Hl & Hs); [lia|].
    apply IH. rewrite Hl, Hs. lia.
  - apply IH. lia.
Qed.

Lemma connect_std_ok todo : ∀ fds0 w,
  (∀ i, i ∈ todo → 0 ≤ i < fd_limit w ∧ get_fd fds0 i ∈ open_fds w) →
  ∃ w1, connect_std todo fds0 w = inl w1.
Proof.
  induction todo as [|i todo IH]; intros fds0 w Hall; simpl; [by eexists|].
  destruct (Hall i) as [Hi Hopen]; [set_solver|].
  destruct (negb _).
  - unfold sys_dup2. rewrite decide_True by done.
    destruct (Z.eqb_spec i (-1)); [lia|].
    apply IH. intros j Hj. destruct (Hall j) as [? ?]; [set_solver|].
    simpl. split; [done|set_solver].
  - apply IH. intros j Hj. apply Hall. set_solver.
Qed.

(** X16: without a callback, the child's side of a spawn reaches execv,
    and does not end in [log_fatal], whenever each descriptor it is given
    is -1 or open and three more descriptors can be opened. *)
Theorem my_exec_reaches_execv (pgmname : string) (argv : list string)
    (fd_in fd_out fd_err : Z) (w : world) :
  (∀ fd, fd ∈ [fd_in; fd_out; fd_err] → fd = -1 ∨ fd ∈ open_fds w) →
  Z.of_nat (size (open_fds w)) + 3 ≤ fd_limit w →
  ∃ w', my_exec pgmname argv fd_in fd_out fd_err None w = Execv pgmname argv w'.
Proof.
  intros Hfds Hsize. unfold my_exec. simpl fds.
  destruct (assign_null_ok [0; 1; 2] (fd_in, fd_out, fd_err) w) as (fds1 & w1 & Hnull);
    [simpl; lia|].
  rewrite Hnull.
  destruct (assign_null_spec _ _ _ _ Hnull) as (_ & Hl & Hsub & _ & Hslots).
  destruct (connect_std_ok [0; 1; 2] fds1 w1) as (w2 & ->); [|by eexists].
  intros i Hi.
  assert (0 ≤ i ≤ 2) as Hi'.
  { repeat (apply elem_of_cons in Hi as [->|Hi]; [lia|]). by apply elem_of_nil in Hi. }
  split; [lia|].
  destruct (Hslots i Hi') as [[-> Hne]|[_ Hin]]; [|done].
  apply Hsub.
  destruct (Hfds (get_fd (fd_in, fd_out, fd_err) i)) as [?|?]; [|done|done].
  assert (i = 0 ∨ i = 1 ∨ i = 2) as [-> | [-> | ->]] by lia; unfold get_fd; simpl;
    set_solver.
Qed.


Lemma my_exec_reaches_execv_witness :
  ∃ w', my_exec "/usr/bin/gpgsm" ["gpgsm"; "--server"] 5 (-1) 2 None child_world
        = Execv "/usr/bin/gpgsm" ["gpgsm"; "--server"] w'.
Proof.
  apply (my_exec_reaches_execv "/usr/bin/gpgsm" ["gpgsm"; "--server"] 5 (-1) 2
           child_world).
  - intros fd Hfd.
    repeat (apply elem_of_cons in Hfd as [->|Hfd];
            [first [by left | right; by vm_compute]|]).
    by apply elem_of_nil in Hfd.
  - vm_compute. discriminate.
Defined.

(** ** Control requests *)

Section ControlRequests.
Context `{!Config} `{!WaitSignal}.

(** X17: for the live handle of a child of the caller, the requests for
    the exit code and for the wait status report GPG_ERR_UNFINISHED and
    store nothing; after a blocking [gnupg_process_wait], which
    succeeds, they report success and store what the wait macros make
    of the status the child left: its exit code, or -1 when it did not
    exit; the flags, exit code and signal, or nothing at all when it
    neither exited nor was signaled; the pid is as before. *)
Theorem exit_status_after_wait (process : gnupg_process) (w : world)
    (l1 l2 : list (Z * child)) (c : child) :
  terminated process = false →
  0 < pid process →
  children w = l1 ++ (pid process, c) :: l2 →
  pid process ∉ l1.*1 → pid process ∉ l2.*1 →
  let status := final_status c in
  let r := gnupg_process_wait process true w in
  gnupg_process_ctl process (GNUPG_PROCESS_GET_EXIT_ID true) w
    = (Returns (GPG_ERR_UNFINISHED, [None]), w)
  ∧ gnupg_process_ctl process (GNUPG_PROCESS_GET_WSTATUS true true true true) w
    = (Returns (GPG_ERR_UNFINISHED, [None; None; None; None]), w)
  ∧ r.1.1 = GPG_ERR_NO_ERROR
  ∧ gnupg_process_ctl r.1.2 (GNUPG_PROCESS_GET_EXIT_ID true) r.2
    = (Returns (Code GPG_ERR_NO_ERROR,
                [Some (if WIFEXITED status then WEXITSTATUS status else -1)]), r.2)
  ∧ gnupg_process_ctl r.1.2 (GNUPG_PROCESS_GET_WSTATUS true true true true) r.2
    = (Returns (Code GPG_ERR_NO_ERROR,
                if WIFEXITED status
                then [Some 1; Some 0; Some (WEXITSTATUS status); Some 0]
                else if WIFSIGNALED status
                then [Some 0; Some 1; Some 0; Some (WTERMSIG status)]
                else [None; None; None; None]), r.2)
  ∧ gnupg_process_ctl r.1.2 (GNUPG_PROCESS_GET_PID true) r.2
    = (Returns (Code GPG_ERR_NO_ERROR, [Some (pid process)]), r.2).
Proof.
  intros Hterm Hpos Hch H1 H2 status r. subst r.
  destruct (gnupg_process_wait_reaps process w l1 l2 c Hterm Hpos Hch H1 H2)
    as (w' & -> & _). simpl.
  unfold gnupg_process_ctl, process_vctl. rewrite Hterm. simpl.
  split_and!; try done.
  - by destruct (WIFEXITED _).
  - destruct (WIFEXITED _); [done|]. by destruct (WIFSIGNALED _).
Qed.

(** X18: the handle of a successful detached spawn carries -1 as pid and
    as wait status.  With wait macros that take -1 for neither an exit
    nor a signal, as those of glibc do, the request for the wait status
    reports success and stores nothing, the request for the exit code
    stores -1, and with a NULL pointer it stores through that pointer. *)
Theorem detached_handle_queries (name : string) (argv1 : list string)
    (flags : Z) (w w' : world) (ec : gpg_error_t) (process : gnupg_process) :
  has_flag flags GNUPG_PROCESS_DETACHED = true →
  gnupg_process_spawn name argv1 flags true w = (Returns (ec, Some process), w') →
  failed ec = false →
  WIFEXITED (-1) = false → WIFSIGNALED (-1) = false →
  gnupg_process_ctl process (GNUPG_PROCESS_GET_PID true) w'
    = (Returns (Code GPG_ERR_NO_ERROR, [Some (-1)]), w')
  ∧ gnupg_process_ctl process (GNUPG_PROCESS_GET_EXIT_ID true) w'
    = (Returns (Code GPG_ERR_NO_ERROR, [Some (-1)]), w')
  ∧ gnupg_process_ctl process (GNUPG_PROCESS_GET_EXIT_ID false) w' = (Faults, w')
  ∧ (∀ a b c d,
       gnupg_process_ctl process (GNUPG_PROCESS_GET_WSTATUS a b c d) w'
       = (Returns (Code GPG_ERR_NO_ERROR, [None; None; None; None]), w')).
Proof.
  intros Hdet Hspawn Hok Hexited Hsignaled.
  destruct (detached_spawn_success _ _ _ _ _ _ _ Hdet Hspawn Hok)
    as (Hterm & Hpid & Hst & _).
  unfold gnupg_process_ctl, process_vctl.
  rewrite Hterm, Hpid, Hst, Hexited, Hsignaled. done.
Qed.

End ControlRequests.

Lemma exit_status_after_wait_witness :
  let r := gnupg_process_wait busy_handle true interrupted_world in
  gnupg_process_ctl (H := glibc false) (H0 := glibc_signal) busy_handle
    (GNUPG_PROCESS_GET_EXIT_ID true) interrupted_world
  = (Returns (GPG_ERR_UNFINISHED, [None]), interrupted_world)
  ∧ gnupg_process_ctl (H := glibc false) (H0 := glibc_signal) r.1.2
      (GNUPG_PROCESS_GET_EXIT_ID true) r.2
    = (Returns (Code GPG_ERR_NO_ERROR, [Some 1]), r.2).
Proof.
  destruct (exit_status_after_wait (H := glibc false) (H0 := glibc_signal)
              busy_handle interrupted_world
              [(4700, Zombie 0)] [(4720, Running 0)] (Running 256))
    as (H1 & _ & _ & H2 & _).
  - reflexivity.
  - simpl. lia.
  - reflexivity.
  - simpl. intros Hin. apply list_elem_of_singleton in Hin. lia.
  - simpl. intros Hin. apply list_elem_of_singleton in Hin. lia.
  - split; [exact H1|exact H2].
Defined.

Lemma detached_handle_queries_witness :
  ∃ process w',
    gnupg_process_spawn (H := glibc false) "/usr/bin/gpg-agent" ["--daemon"] 2 true
      spawning_world
    = (Returns (no_error, Some process), w')
    ∧ gnupg_process_ctl (H := glibc false) (H0 := glibc_signal) process
        (GNUPG_PROCESS_GET_WSTATUS true true true true) w'
      = (Returns (Code GPG_ERR_NO_ERROR, [None; None; None; None]), w')
    ∧ gnupg_process_ctl (H := glibc false) (H0 := glibc_signal) process
        (GNUPG_PROCESS_GET_EXIT_ID false) w' = (Faults, w').
Proof.
  eexists _, _. split; [reflexivity|].
  edestruct (detached_handle_queries (H := glibc false) (H0 := glibc_signal)
               "/usr/bin/gpg-agent" ["--daemon"] 2 spawning_world)
    as (_ & _ & H1 & H2);
    [reflexivity|reflexivity|reflexivity|reflexivity|reflexivity|].
  split; [apply H2|exact H1].
Defined.

(** ** The life of a handle *)

Section HandleLifetime.
Context `{!Config}.

Lemma gnupg_process_wait_frame process hang w :
  open_fds (gnupg_process_wait process hang w).2 = open_fds w
  ∧ owned_fds (gnupg_process_wait process hang w).1.2 = owned_fds process.
Proof.
  unfold gnupg_process_wait. destruct (terminated process); [done|].
  pose proof (waitpid_restart_open_fds (interrupts w) (pid process) hang w) as Hopen.
  by destruct (waitpid_restart (interrupts w) (pid process) hang w) as [[e| |p st] w1].
Qed.

(** X19: neither waiting for a spawned child nor releasing its handle
    closes a descriptor: after a spawn that is not detached, a wait and
    the release, the descriptors that the handle held, none of which
    was open before the spawn, are all still open. *)
Theorem spawn_wait_release_keeps_descriptors (pgmname : string)
    (argv1 : list string) (flags : Z) (hang : bool) (w w' : world)
    (ec : gpg_error_t) (process : gnupg_process) :
  has_flag flags GNUPG_PROCESS_DETACHED = false →
  0 ∈ open_fds w → 1 ∈ open_fds w → 2 ∈ open_fds w →
  gnupg_process_spawn pgmname argv1 flags true w
    = (Returns (ec, Some process), w') →
  let r := gnupg_process_wait process hang w' in
  open_fds (gnupg_process_release (Some r.1.2) r.2)
    = (owned_fds process ∪ open_fds w)
  ∧ owned_fds process ## open_fds w
  ∧ owned_fds r.1.2 = owned_fds process.
Proof.
  intros Hdet H0 H1 H2 Hspawn r. subst r.
  destruct (gnupg_process_spawn_parent_spec pgmname argv1 flags w Hdet H0 H1 H2)
    as (ec' & r & w'' & Heq & Hr).
  rewrite Heq in Hspawn. simplify_eq.
  destruct Hr as (_ & _ & _ & _ & _ & Ho & Hdisj & _).
  destruct (gnupg_process_wait_frame process hang w') as [Hw Hown].
  destruct (gnupg_process_release_no_close
              (Some (gnupg_process_wait process hang w').1.2)
              (gnupg_process_wait process hang w').2) as [Hrel _].
  rewrite Hrel, Hw, Ho. done.
Qed.

End HandleLifetime.

Lemma spawn_wait_release_keeps_descriptors_witness :
  ∃ process w',
    gnupg_process_spawn (H := glibc false) "/usr/bin/gpgsm" ["--server"] 768 true
      parent_world
    = (Returns (no_error, Some process), w')
    ∧ open_fds (gnupg_process_release (Some (gnupg_process_wait process true w').1.2)
                  (gnupg_process_wait process true w').2)
      = (owned_fds process ∪ open_fds parent_world).
Proof.
  eexists _, _. split; [vm_compute; reflexivity|].
  edestruct (spawn_wait_release_keeps_descriptors (H := glibc false)
               "/usr/bin/gpgsm" ["--server"] 768 true parent_world) as (H1 & _);
    [reflexivity | by vm_compute | by vm_compute | by vm_compute
    | vm_compute; reflexivity | exact H1].
Defined.

(** ** Waiting for several pids, the successful case *)

Lemma take_first_holds {A} (P : A → bool) l x rest :
  take_first P l = Some (x, rest) → P x = true.
Proof.
  revert rest. induction l as [|y l IH]; intros rest; simpl; [done|].
  destruct (P y) eqn:Hy; [by intros [= <- <-]|].
  destruct (take_first P l) as [[z r]|]; [|done].
  intros [= <- <-]. by eapply IH.
Qed.

(** Only children with a positive pid are reaped. *)
Lemma sys_waitpid_reaped_pos pid hang w p st :
  (sys_waitpid pid hang w).1 = Wait_reaped p st → 0 < p.
Proof.
  unfold sys_waitpid. simpl.
  destruct (take_first (λ c, wait_selects pid c && has_ended c) (children w))
    as [[c rest]|] eqn:E1; simpl.
  { intros [= <- <-]. apply take_first_holds in E1. unfold wait_selects in E1. lia. }
  destruct (take_first (wait_selects pid) (children w)) as [[c rest]|] eqn:E2;
    simpl; [|done].
  apply take_first_holds in E2. unfold wait_selects in E2.
  destruct hang; [|done]. destruct (interrupts w); [|done].
  intros [= <- <-]. lia.
Qed.

Lemma waitpid_restart_reaped_pos n : ∀ pid hang w p st,
  (waitpid_restart n pid hang w).1 = Wait_reaped p st → 0 < p.
Proof.
  induction n as [|n IH]; intros pid hang w p st; simpl;
    pose proof (sys_waitpid_reaped_pos pid hang w) as Hpos;
    destruct (sys_waitpid pid hang w) as [[e| |q st'] w1]; simpl in *; try done.
  - intros [= <- <-]. by eapply Hpos.
  - destruct (e =? EINTR); [apply IH|done].
  - intros [= <- <-]. by eapply Hpos.
Qed.

Section BatchWait.
Context `{!Config}.

Lemma wait_statement_reaped_pos pid hang w p st :
  (wait_statement pid hang w).1 = Wait_reaped p st → 0 < p.
Proof.
  unfold wait_statement. destruct USE_NPTH;
    [apply sys_waitpid_reaped_pos | apply waitpid_restart_reaped_pos].
Qed.

Lemma drain_results_invalid pids : ∀ nleft w i,
  pids !! i = Some (-1) → (drain_results pids nleft w).1.1 !! i = Some (-1).
Proof.
  induction pids as [|pid pids IH]; intros nleft w i Hi; [done|].
  cbn [drain_results]. destruct (Z.eqb_spec pid (-1)) as [->|Hne].
  - specialize (IH (nleft - 1) w).
    destruct (drain_results pids (nleft - 1) w) as [[slots n'] w'].
    destruct i as [|i]; simpl in *; [done|by apply IH].
  - destruct (get_result pid w) as [found w1].
    set (n1 := match found with Some _ => _ | None => _ end).
    specialize (IH n1 w1).
    destruct (drain_results pids n1 w1) as [[slots n'] w'].
    destruct i as [|i]; simpl in *; [by simplify_eq|by apply IH].
Qed.

Lemma wait_loop_slots fuel : ∀ pids hang nleft ec slots w res,
  wait_loop fuel pids hang nleft ec slots w = Some res →
  length res.1.2 = length slots
  ∧ ∀ i, pids !! i = Some (-1) → res.1.2 !! i = slots !! i.
Proof.
  induction fuel as [|fuel IH]; intros pids hang nleft ec slots w res; simpl.
  { destruct (nleft <=? 0); [|done]. by intros [= <-]. }
  destruct (nleft <=? 0); [by intros [= <-]|].
  pose proof (wait_statement_reaped_pos (-1) hang w) as Hpos.
  destruct (wait_statement (-1) hang w) as [[e| |p st] w1]; simpl in *.
  - by intros [= <-].
  - by intros [= <-].
  - specialize (Hpos p st eq_refl).
    destruct (find_pid p pids) as [i|] eqn:Hfind.
    + destruct (negb _); [by intros [= <-]|].
      intros Hres. apply IH in Hres as [Hlen Hkeep].
      rewrite length_insert in Hlen. split; [done|].
      intros j Hj. rewrite Hkeep by done.
      apply find_pid_Some in Hfind as [Hi _].
      apply list_lookup_insert_ne. intros ->. simplify_eq. lia.
    + destruct (store_result p st w1) as [ec1 w2].
      destruct ec1; try (by intros [= <-]). apply IH.
Qed.

Lemma classify_results_clean dummy pgmnames slots : ∀ i ec w,
  (classify_results dummy pgmnames i slots ec w).1.1 = GPG_ERR_NO_ERROR →
  ec = GPG_ERR_NO_ERROR
  ∧ (classify_results dummy pgmnames i slots ec w).1.2 = slots
  ∧ (classify_results dummy pgmnames i slots ec w).2 = w
  ∧ Forall (λ status, status = -1
                      ∨ (WIFEXITED status = true ∧ WEXITSTATUS status = 0)) slots.
Proof.
  induction slots as [|status rest IH]; intros i ec w; [done|].
  cbn [classify_results].
  set (step := if status =? -1 then _ else _).
  assert (Hstep : step.1.2 = GPG_ERR_NO_ERROR →
                  step = (status, ec, w)
                  ∧ (status = -1 ∨ (WIFEXITED status = true ∧ WEXITSTATUS status = 0))).
  { subst step.
    destruct (Z.eqb_spec status (-1)); [by auto|].
    destruct (WIFEXITED status); simpl; [|done].
    destruct (Z.eqb_spec (WEXITSTATUS status) 127); simpl; [done|].
    destruct (Z.eqb_spec (WEXITSTATUS status) 0); simpl; [by auto|].
    by destruct dummy. }
  clearbody step. destruct step as [[slot ec1] w1]. simpl in Hstep.
  specialize (IH (S i) ec1 w1).
  destruct (classify_results dummy pgmnames (S i) rest ec1 w1) as [[ec2 rest'] w2].
  simpl in *. intros ->.
  destruct (IH eq_refl) as (-> & -> & -> & Hrest).
  destruct (Hstep eq_refl) as [[= -> -> ->] Hclean].
  split_and!; try done. by constructor.
Qed.

(** X20: when [gnupg_wait_processes], called with an array for the exit
    codes, returns success, the array has a slot for every pid, the slot
    of every invalid pid holds -1, and every other slot holds -1 or the
    wait status of a child that exited with code 0. *)
Theorem gnupg_wait_processes_success_clean (pgmnames : list string)
    (pids : list Z) (hang : bool) (w w' : world) (ec : gpg_error_t)
    (slots : list Z) :
  gnupg_wait_processes pgmnames pids hang true w = Some (ec, Some slots, w') →
  failed ec = false →
  length slots = length pids
  ∧ (∀ i, pids !! i = Some (-1) → slots !! i = Some (-1))
  ∧ (∀ i status, slots !! i = Some status →
       status = -1 ∨ (WIFEXITED status = true ∧ WEXITSTATUS status = 0)).
Proof.
  unfold gnupg_wait_processes. cbn [negb].
  pose proof (drain_results_spec pids (Z.of_nat (length pids)) w) as (Hlen & _).
  pose proof (drain_results_invalid pids (Z.of_nat (length pids)) w) as Hinv.
  destruct (drain_results pids (Z.of_nat (length pids)) w) as [[slots0 nleft] w1].
  simpl in Hlen, Hinv.
  destruct (wait_loop (S (length (children w1))) pids hang nleft
              GPG_ERR_NO_ERROR slots0 w1)
    as [[[ec1 slots1] w2]|] eqn:Hloop; cbn beta iota; [|done].
  apply wait_loop_slots in Hloop as [Hlen1 Hkeep]. simpl in Hlen1, Hkeep.
  pose proof (classify_results_clean false pgmnames slots1 0 ec1 w2) as Hclean.
  destruct (classify_results false pgmnames 0 slots1 ec1 w2) as [[ec2 slots2] w3].
  simpl in Hclean. intros [= <- <- <-] Hok.
  assert (ec2 = GPG_ERR_NO_ERROR) as -> by (by destruct ec2).
  destruct (Hclean eq_refl) as (_ & -> & _ & Hall).
  split_and!.
  - congruence.
  - intros i Hi. rewrite Hkeep by done. by apply Hinv.
  - intros i status Hi. rewrite Forall_lookup in Hall. by apply (Hall i).
Qed.

End BatchWait.

Lemma gnupg_wait_processes_success_clean_witness :
  ∃ w',
    gnupg_wait_processes (H := glibc false) ["gpg"; "gpgsm"] [4711; -1] true true
      (world_with [(4711, Zombie 0)] [] [])
    = Some (no_error, Some [0; -1], w')
    ∧ length [0; -1] = length [4711; -1]
    ∧ [0; -1] !! 1%nat = Some (-1).
Proof.
  eexists. split; [reflexivity|].
  edestruct (gnupg_wait_processes_success_clean (H := glibc false)
               ["gpg"; "gpgsm"] [4711; -1] true (world_with [(4711, Zombie 0)] [] []))
    as (H1 & H2 & _); [reflexivity|reflexivity|].
  split; [exact H1|]. apply H2. reflexivity.
Defined.

(** ** Spawning and waiting *)

Section SpawnThenWait.
Context `{!Config}.

(** X21: a spawn that is not detached followed by a blocking wait on its
    handle is a round trip for the table of children: the spawn adds
    the child under the handle's pid, and if that pid belonged to no
    other child of the caller the wait succeeds, marks the handle
    terminated with the status that child leaves, and takes the child
    out of the table again; it closes no descriptor. *)
Theorem spawn_then_wait_reaps (pgmname : string) (argv1 : list string)
    (flags : Z) (w w' : world) (ec : gpg_error_t) (process : gnupg_process) :
  has_flag flags GNUPG_PROCESS_DETACHED = false →
  0 ∈ open_fds w → 1 ∈ open_fds w → 2 ∈ open_fds w →
  gnupg_process_spawn pgmname argv1 flags true w
    = (Returns (ec, Some process), w') →
  pid process ∉ (children w).*1 →
  ∃ c w'',
    children w' = children w ++ [(pid process, c)]
    ∧ gnupg_process_wait process true w'
      = (GPG_ERR_NO_ERROR,
         set_wstatus (final_status c) (set_terminated true process), w'')
    ∧ children w'' = children w
    ∧ open_fds w'' = open_fds w'.
Proof.
  intros Hdet H0 H1 H2 Hspawn Hnew.
  destruct (gnupg_process_spawn_parent_spec pgmname argv1 flags w Hdet H0 H1 H2)
    as (ec' & r & w0 & Heq & Hr).
  rewrite Heq in Hspawn. simplify_eq.
  destruct Hr as (_ & Hterm & _ & Hpos & [c Hch] & _).
  destruct (gnupg_process_wait_reaps process w' (children w) [] c)
    as (w'' & Hwait & Hch' & _); [done|done|done|done|set_solver|].
  exists c, w''. split_and!; [done|done|by rewrite Hch', app_nil_r|].
  destruct (gnupg_process_wait_frame process true w') as [Ho _].
  by rewrite Hwait in Ho.
Qed.

End SpawnThenWait.

Lemma spawn_then_wait_reaps_witness :
  ∃ process w' w'',
    gnupg_process_spawn (H := glibc false) "/usr/bin/gpgsm" ["--server"] 768 true
      parent_world
    = (Returns (no_error, Some process), w')
    ∧ gnupg_process_wait process true w'
      = (GPG_ERR_NO_ERROR, set_wstatus 0 (set_terminated true process), w'')
    ∧ children w'' = children parent_world.
Proof.
  eexists _, _.
  edestruct (spawn_then_wait_reaps (H := glibc false)
               "/usr/bin/gpgsm" ["--server"] 768 parent_world)
    as (c & w'' & H1 & H2 & H3 & _);
    [reflexivity | by vm_compute | by vm_compute | by vm_compute
    | vm_compute; reflexivity | apply not_elem_of_nil |].
  exists w''. split; [vm_compute; reflexivity|].
  assert (c = Running 0) as -> by (vm_compute in H1; by simplify_eq).
  split; [exact H2|exact H3].
Defined.

(** ** The older interface *)

Section OlderChildFacts.
Context `{!SpawnFlags}.

Lemma do_exec_assign_null_plain flags todo : ∀ fds0 w,
  (∀ i, i ∈ todo → nodevnull flags i = false) →
  do_exec_assign_null todo flags fds0 w = assign_null todo fds0 w.
Proof.
  induction todo as [|i todo IH]; intros fds0 w Hno; simpl; [done|].
  rewrite (Hno i) by set_solver. unfold posix_open_null.
  destruct (_ =? -1); [|apply IH; set_solver].
  destruct (sys_open_null w) as [fd w1]. destruct (fd =? -1); [done|].
  apply IH. set_solver.
Qed.

Lemma do_exec_connect_std_plain flags todo : ∀ fds0 w,
  (∀ i, i ∈ todo → nodevnull flags i = false) →
  do_exec_connect_std todo flags fds0 w = connect_std todo fds0 w.
Proof.
  induction todo as [|i todo IH]; intros fds0 w Hno; simpl; [done|].
  rewrite (Hno i) by set_solver.
  destruct (negb _); [|apply IH; set_solver].
  destruct (sys_dup2 _ i w) as [r w1]. destruct (r =? -1); [done|].
  apply IH. set_solver.
Qed.

Lemma sys_alloc_limits b n w :
  census (sys_alloc b n w).2 = census w ∧ fd_limit (sys_alloc b n w).2 = fd_limit w.
Proof. unfold sys_alloc. simpl. by destruct (allocs w) as [|[] ?]. Qed.

Lemma make_arg_list_spec pgmname argv w :
  open_fds (make_arg_list pgmname argv w).2 = open_fds w
  ∧ census (make_arg_list pgmname argv w).2 = census w
  ∧ fd_limit (make_arg_list pgmname argv w).2 = fd_limit w
  ∧ ∀ arg_list, (make_arg_list pgmname argv w).1 = Some arg_list →
      arg_list = default pgmname (after_last_slash pgmname) :: argv.
Proof.
  unfold make_arg_list.
  pose proof (sys_alloc_open_fds Blk_argv (Z.of_nat (length argv) + 2) w) as Ho1.
  pose proof (sys_alloc_limits Blk_argv (Z.of_nat (length argv) + 2) w) as [Hc1 Hl1].
  destruct (sys_alloc Blk_argv _ w) as [[] w1]; simpl in *; [|done].
  destruct (after_last_slash pgmname) as [name|]; simpl.
  { split_and!; try done. intros ? ?. by simplify_eq. }
  pose proof (sys_alloc_open_fds Blk_argv (Z.of_nat (String.length pgmname) + 1) w1)
    as Ho2.
  pose proof (sys_alloc_limits Blk_argv (Z.of_nat (String.length pgmname) + 1) w1)
    as [Hc2 Hl2].
  destruct (sys_alloc Blk_argv _ w1) as [[] w2]; simpl in *.
  - split_and!; try congruence; intros ? ?; by simplify_eq.
  - split_and!; try congruence; intros ? ?; by simplify_eq.
Qed.

(** X22: when none of the KEEP flags is set and the argument vector can
    be allocated, [do_exec] does what [my_exec] does with a callback
    that only sets the exception list: it is the same call of execv or
    the same fatal end, with the base name of the program in front of
    the arguments; making the argument vector opens and closes no
    descriptor. *)
Theorem do_exec_as_my_exec (pgmname : string) (argv : list string)
    (fd_in fd_out fd_err : Z) (except : option (list Z)) (flags : Z)
    (w w1 : world) (arg_list : list string) :
  has_flag flags GNUPG_SPAWN_KEEP_STDIN = false →
  has_flag flags GNUPG_SPAWN_KEEP_STDOUT = false →
  has_flag flags GNUPG_SPAWN_KEEP_STDERR = false →
  make_arg_list pgmname argv w = (Some arg_list, w1) →
  do_exec pgmname argv fd_in fd_out fd_err except flags w
  = my_exec pgmname arg_list fd_in fd_out fd_err
      (Some (λ sca w, (mk_sca (fds sca) except, w))) w1
  ∧ arg_list = default pgmname (after_last_slash pgmname) :: argv
  ∧ open_fds w1 = open_fds w.
Proof.
  intros Hin Hout Herr Hargs.
  assert (Hno : ∀ i, i ∈ [0; 1; 2] → nodevnull flags i = false).
  { intros i Hi. unfold nodevnull.
    repeat (apply elem_of_cons in Hi as [->|Hi]; [done|]). by apply elem_of_nil in Hi. }
  pose proof (make_arg_list_spec pgmname argv w) as (Ho & _ & _ & Hlist).
  rewrite Hargs in Ho, Hlist. simpl in Ho, Hlist.
  split; [|split; [by apply Hlist|done]].
  unfold do_exec, my_exec. rewrite Hargs. cbn [fds except_fds].
  rewrite do_exec_assign_null_plain by done.
  destruct (assign_null [0; 1; 2] (fd_in, fd_out, fd_err) w1) as [[fds1 w2]|w2]; [|done].
  by rewrite do_exec_connect_std_plain.
Qed.

(** X23: with the KEEP flag of a standard stream set, [do_exec] never
    looks at the descriptor it is given for that stream: any two values
    for it give the same result. *)
Theorem do_exec_keeps_standard_descriptors (pgmname : string) (argv : list string)
    (except : option (list Z)) (flags : Z) (w : world) :
  (has_flag flags GNUPG_SPAWN_KEEP_STDIN = true →
   ∀ x y fd_out fd_err,
     do_exec pgmname argv x fd_out fd_err except flags w
     = do_exec pgmname argv y fd_out fd_err except flags w)
  ∧ (has_flag flags GNUPG_SPAWN_KEEP_STDOUT = true →
     ∀ x y fd_in fd_err,
       do_exec pgmname argv fd_in x fd_err except flags w
       = do_exec pgmname argv fd_in y fd_err except flags w)
  ∧ (has_flag flags GNUPG_SPAWN_KEEP_STDERR = true →
     ∀ x y fd_in fd_out,
       do_exec pgmname argv fd_in fd_out x except flags w
       = do_exec pgmname argv fd_in fd_out y except flags w).
Proof.
  split_and!; intros Hkeep x y a b; unfold do_exec;
    destruct (make_arg_list pgmname argv w) as [[arg_list|] w1]; try done;
    unfold do_exec_assign_null, do_exec_connect_std, nodevnull, get_fd, set_fd;
    simpl; rewrite Hkeep; simpl.
  all: repeat (case_match; simpl in *; simplify_eq; try done).
Qed.

End OlderChildFacts.

Lemma do_exec_as_my_exec_witness :
  ∃ w',
    do_exec (H := exechelp_flags) "/usr/bin/gpgsm" ["--server"] 5 (-1) 2 None 0
      child_world
    = Execv "/usr/bin/gpgsm" ["gpgsm"; "--server"] w'
    ∧ open_fds w' = list_to_set [0; 1; 2].
Proof.
  edestruct (do_exec_as_my_exec (H := exechelp_flags) "/usr/bin/gpgsm" ["--server"]
               5 (-1) 2 None 0 child_world) as (H1 & _);
    [reflexivity | reflexivity | reflexivity | vm_compute; reflexivity |].
  eexists. rewrite H1. split; [vm_compute; reflexivity|by vm_compute].
Defined.

Lemma do_exec_keeps_standard_descriptors_witness :
  do_exec (H := exechelp_flags) "/usr/bin/gpgsm" ["--server"] 5 (-1) 77 None 1024
    child_world
  = do_exec (H := exechelp_flags) "/usr/bin/gpgsm" ["--server"] 5 (-1) 2 None 1024
      child_world.
Proof.
  destruct (do_exec_keeps_standard_descriptors (H := exechelp_flags)
              "/usr/bin/gpgsm" ["--server"] None 1024 child_world) as (_ & _ & H3).
  apply H3. reflexivity.
Defined.

Section OlderInterfaceFacts.
Context `{!Config}.

(** With no signal pending, a blocking wait for the youngest child, whose
    pid no other child has, reaps it. *)
Lemma wait_statement_youngest p c w l :
  0 < p → children w = l ++ [(p, c)] → p ∉ l.*1 → interrupts w = 0%nat →
  ∃ w', wait_statement p true w = (Wait_reaped p (final_status c), w')
        ∧ children w' = l ∧ open_fds w' = open_fds w.
Proof.
  intros Hpos Hch Hnew Hint.
  assert (Hsys : ∃ w', sys_waitpid p true w = (Wait_reaped p (final_status c), w')
                       ∧ children w' = l).
  { destruct c as [fate|status].
    - destruct (waitpid_restart_running 0 w p fate l []) as (w' & Hr & Hc & _);
        [done|done|done|done|set_solver|].
      rewrite app_nil_r in Hc. simpl in Hr.
      destruct (sys_waitpid p true w) as [[e| |q st] w1]; simplify_eq; by eexists.
    - rewrite (sys_waitpid_ended w p status l []) by done.
      eexists. split; [done|]. simpl. by rewrite app_nil_r. }
  destruct Hsys as (w' & Hsys & Hc).
  pose proof (sys_waitpid_open_fds p true w) as Ho. rewrite Hsys in Ho.
  exists w'. split; [|done].
  unfold wait_statement. destruct USE_NPTH; [done|].
  rewrite Hint. simpl. by rewrite Hsys.
Qed.

(** X24: [gnupg_spawn_process_fd] followed by a blocking
    [gnupg_wait_process] on the pid it stored is a round trip for the
    table of children: when the fork succeeds the child is added under
    that pid, no descriptor is opened or closed, and with no signal
    pending and no other child of that pid the wait takes the child out
    again and returns success exactly when the child exits with code 0. *)
Theorem spawn_fd_then_wait (pgmname : string) (argv : list string)
    (infd outfd errfd : Z) (w : world) (p : Z) (c : child)
    (rest : list (option (Z * child))) (slot : Z) :
  forks w = Some (p, c) :: rest → 0 < p →
  p ∉ (children w).*1 → interrupts w = 0%nat →
  ∃ w1,
    gnupg_spawn_process_fd pgmname argv infd outfd errfd true w
      = (Returns (no_error, p), w1)
    ∧ children w1 = children w ++ [(p, c)]
    ∧ open_fds w1 = open_fds w
    ∧ children (gnupg_wait_process pgmname p true (Some slot) w1).2 = children w
    ∧ open_fds (gnupg_wait_process pgmname p true (Some slot) w1).2 = open_fds w
    ∧ ((gnupg_wait_process pgmname p true (Some slot) w1).1.1 = no_error
       ↔ WIFEXITED (final_status c) = true ∧ WEXITSTATUS (final_status c) = 0).
Proof.
  intros Hforks Hpos Hnew Hint.
  unfold gnupg_spawn_process_fd, sys_fork. simpl. rewrite Hforks.
  destruct (Z.ltb_spec 0 p); [|lia]. destruct (Z.eqb_spec p (-1)); [lia|].
  eexists. split; [done|]. simpl. split; [done|]. split; [done|].
  set (w1 := set_children _ _).
  destruct (wait_statement_youngest p c w1 (children w)) as (w2 & Hwait & Hc & Ho);
    [done|done|done|done|].
  unfold gnupg_wait_process. destruct (Z.eqb_spec p (-1)); [lia|].
  rewrite Hwait. simpl.
  destruct (WIFEXITED (final_status c)); simpl.
  - destruct (Z.eqb_spec (WEXITSTATUS (final_status c)) 127) as [E|E]; simpl.
    + split_and!; [done|done|]. rewrite E. split; [|lia].
      unfold gpg_err_make. done.
    + destruct (Z.eqb_spec (WEXITSTATUS (final_status c)) 0) as [E0|E0]; simpl.
      * split_and!; [done|done|]. unfold gpg_err_make. done.
      * split_and!; [done|done|]. unfold gpg_err_make. split; [done|]. tauto.
  - split_and!; [done|done|]. unfold gpg_err_make. split; [done|]. intros [? _]. done.
Qed.

(** X25: [gnupg_spawn_process_detached] fails without forking and
    without a change of the children when the process runs setuid (a
    bug is reported) or the program is not executable (the error of
    access is reported).  Otherwise it forks, and it fails exactly when
    the fork fails, having done nothing else; once the fork has returned
    a pid it waits for that pid, once and blocking, and returns success
    whatever waitpid returns.  It opens and closes no descriptor. *)
Theorem gnupg_spawn_process_detached_outcomes (pgmname : string)
    (argv envp : list string) (w : world) :
  let r := gnupg_spawn_process_detached pgmname argv envp w in
  let child := (sys_fork w).1 in
  (setuid w = true → r = (gpg_err_make default_errsource GPG_ERR_BUG, w))
  ∧ (setuid w = false → access_x w pgmname ≠ 0 →
     r.1 = gpg_err_make default_errsource (GPG_ERR_SYSTEM_ERROR (access_x w pgmname))
     ∧ trace r.2 = trace w ∧ children r.2 = children w
     ∧ open_fds r.2 = open_fds w)
  ∧ (setuid w = true ∨ access_x w pgmname ≠ 0 → failed r.1 = true)
  ∧ (setuid w = false → access_x w pgmname = 0 →
     open_fds r.2 = open_fds w
     ∧ (child = -1 →
        failed r.1 = true
        ∧ trace r.2 = trace w ++ [EvFork]
        ∧ children r.2 = children w)
     ∧ (child ≠ -1 →
        r.1 = no_error
        ∧ trace r.2 = trace w ++ [EvFork; EvWaitpid child true]
        ∧ children r.2 = children (sys_waitpid child true (sys_fork w).2).2)).
Proof.
  intros r child. subst r child. unfold gnupg_spawn_process_detached.
  split_and!.
  - by intros ->.
  - intros -> Hacc. unfold gpg_err_code_from_errno.
    destruct (Z.eqb_spec (access_x w pgmname) 0); [done|]. done.
  - intros Hwhy. destruct (setuid w); [done|].
    destruct Hwhy as [?|Hacc]; [done|].
    unfold gpg_err_code_from_errno.
    destruct (Z.eqb_spec (access_x w pgmname) 0); [done|]. done.
  - intros -> Hacc. rewrite Hacc. simpl.
    pose proof (sys_fork_trace w) as Ht.
    pose proof (sys_fork_spec w) as [Ho Hfork].
    destruct (sys_fork w) as [child w1]. simpl in Ht, Ho, Hfork.
    destruct (Z.eqb_spec child (-1)) as [->|Hne].
    + simpl. split_and!; [done| |done].
      intros _. destruct Hfork as [[_ Hc]|[? _]]; [|lia].
      split_and!; [|done|done].
      apply (proj1 (gpg_err_code_from_syserror_failed
                      (log_error (Log_fork_failed (gpg_err_code_from_syserror w1)) w1)
                      default_errsource)).
    + cbn [fst snd].
      pose proof (sys_waitpid_trace child true w1) as Ht2.
      pose proof (sys_waitpid_open_fds child true w1) as Ho2.
      destruct (sys_waitpid child true w1) as [[e| |q st] w2]; simpl in *;
        (split_and!; [congruence|intros ?; lia|]); intros _;
        (split_and!; [done| |done]); by rewrite Ht2, Ht, <- app_assoc.
Qed.

End OlderInterfaceFacts.

Lemma spawn_fd_then_wait_witness :
  ∃ w1,
    gnupg_spawn_process_fd (H := glibc false) "/usr/bin/gpgsm" ["--server"]
      (-1) (-1) (-1) true parent_world
    = (Returns (no_error, 4712), w1)
    ∧ (gnupg_wait_process (H := glibc false) "/usr/bin/gpgsm" 4712 true (Some 0) w1).1.1
      = no_error
    ∧ children (gnupg_wait_process (H := glibc false) "/usr/bin/gpgsm" 4712 true
                  (Some 0) w1).2 = [].
Proof.
  destruct (spawn_fd_then_wait (H := glibc false) "/usr/bin/gpgsm" ["--server"]
              (-1) (-1) (-1) parent_world 4712 (Running 0) [] 0)
    as (w1 & H1 & _ & _ & H2 & _ & H3).
  - reflexivity.
  - lia.
  - apply not_elem_of_nil.
  - reflexivity.
  - exists w1. split; [exact H1|]. split; [|exact H2].
    apply H3. split; reflexivity.
Defined.
